(** * Custom-SDL3-Window: layout engine and hit classifier of [main.c]

    A shallow embedding of [main.c]: the parts that decide the layout
    rectangles, the hit-test regions and the dirty/exit/theme flags, and
    around them the update loop, the drawing calls and the start-up and
    clean-up.

    - C [float] is IEEE-754 binary32.  It is modelled by the Standard
      Library's executable specification [SpecFloat] instantiated at
      precision 24 and maximal exponent 128, so every rounding that the
      program performs is performed by the model as well ([float]
      expressions are evaluated in binary32, FLT_EVAL_METHOD 0).
    - C [int] is a 32-bit two's-complement integer, modelled by [Z] with the
      wrap-around of the integer arithmetic of [updateLayout] written out.
    - The conversion of a [float] to an [int] has no defined result when the
      truncated value does not fit the integer type (C11 6.3.1.4); the model
      returns [None] there, in the manner of CompCert's [Float32.to_int].
    - Global variables become one record [App] that is passed explicitly;
      what the program asks of SDL (display scale, size in pixels, system
      theme) is an explicit environment [Env].
    - What the program does to SDL is a list of calls [SDL_Call] in the
      order in which they are made; whether a call of the start-up
      succeeds is an explicit answer [Startup], and the functions
      registered with [atexit] run when [main] is left. *)

From Stdlib Require Import ZArith Bool Lia List String.
From Stdlib Require Import Floats.SpecFloat.
Import ListNotations.

Local Open Scope Z_scope.

(** ** binary32 *)

Module F32.

Definition prec : Z := 24.
Definition emax : Z := 128.

Definition float : Type := spec_float.

Definition valid (x : float) : bool := valid_binary prec emax x.

(** Conversion of an integer to [float] (round to nearest, ties to even). *)
Definition of_int (n : Z) : float := binary_normalize prec emax n 0 false.

Definition add : float -> float -> float := SFadd prec emax.
Definition sub : float -> float -> float := SFsub prec emax.
Definition mul : float -> float -> float := SFmul prec emax.
Definition opp : float -> float := SFopp.

(** The C comparisons; each is false as soon as one operand is a NaN. *)
Definition ltb : float -> float -> bool := SFltb.
Definition leb : float -> float -> bool := SFleb.
Definition geb (x y : float) : bool := SFleb y x.

Definition zero : float := S754_zero false.

(** [floorf] of <math.h>: the largest integral value not above [x].
    A finite number [m * 2^e] with [0 <= e] is integral already;
    otherwise the signed mantissa is shifted right, which rounds towards
    minus infinity, and the integer, which has at most 24 digits, is
    converted back.  Zeros, infinities and NaN are returned as they are. *)
Definition floorf (x : float) : float :=
  match x with
  | S754_finite s m e =>
      if 0 <=? e then x
      else of_int (Z.shiftr (cond_Zopp s (Zpos m)) (- e))
  | _ => x
  end.

(** [ceilf] of <math.h>, by symmetry; the sign of a zero result follows
    the sign of the argument, as IEEE-754 requires. *)
Definition ceilf (x : float) : float := opp (floorf (opp x)).

Definition INT_MIN : Z := - 2 ^ 31.
Definition INT_MAX : Z := 2 ^ 31 - 1.

(** The integer obtained by discarding the fractional part. *)
Definition trunc (x : float) : option Z :=
  match x with
  | S754_zero _ => Some 0
  | S754_finite s m e => Some (cond_Zopp s (Z.shiftl (Zpos m) e))
  | _ => None
  end.

(** Conversion of a [float] to [int]: truncation towards zero, undefined
    when the result is not representable. *)
Definition to_int (x : float) : option Z :=
  match trunc x with
  | Some z => if (INT_MIN <=? z) && (z <=? INT_MAX) then Some z else None
  | None => None
  end.

(** The exact value of an integral finite number, for stating results. *)
Definition to_Z (x : float) : option Z :=
  match x with
  | S754_zero _ => Some 0
  | S754_finite s m e =>
      if 0 <=? e then Some (cond_Zopp s (Zpos m * 2 ^ e))
      else if Zpos m mod 2 ^ (- e) =? 0
           then Some (cond_Zopp s (Zpos m / 2 ^ (- e)))
           else None
  | _ => None
  end.

(** The mathematical floor and ceiling of the exact value of a finite
    number, by integer division. *)
Definition Zfloor (x : float) : Z :=
  match x with
  | S754_finite s m e =>
      if 0 <=? e then cond_Zopp s (Zpos m) * 2 ^ e
      else cond_Zopp s (Zpos m) / 2 ^ (- e)
  | _ => 0
  end.

Definition Zceil (x : float) : Z := - Zfloor (opp x).

End F32.

Definition float : Type := F32.float.

(** 32-bit wrap-around of an [int] result. *)
Definition wrap_int (z : Z) : Z := (z + 2 ^ 31) mod 2 ^ 32 - 2 ^ 31.

(** ** SDL types used by the program *)

Module SDL_FRect.
Record t : Type := mk { x : float; y : float; w : float; h : float }.
End SDL_FRect.

Module SDL_Point.
Record t : Type := mk { x : Z; y : Z }.
End SDL_Point.

Module SDL_FPoint.
Record t : Type := mk { x : float; y : float }.
End SDL_FPoint.

Module SDL_Color.
Record t : Type := mk { r : Z; g : Z; b : Z; a : Z }.
End SDL_Color.

(** The public fields of an [SDL_Texture] that [updateLayout] reads. *)
Module SDL_Texture.
Record t : Type := mk { w : Z; h : Z }.
End SDL_Texture.

Inductive SDL_HitTestResult : Type :=
| SDL_HITTEST_NORMAL
| SDL_HITTEST_DRAGGABLE
| SDL_HITTEST_RESIZE_TOPLEFT
| SDL_HITTEST_RESIZE_TOP
| SDL_HITTEST_RESIZE_TOPRIGHT
| SDL_HITTEST_RESIZE_RIGHT
| SDL_HITTEST_RESIZE_BOTTOMRIGHT
| SDL_HITTEST_RESIZE_BOTTOM
| SDL_HITTEST_RESIZE_BOTTOMLEFT
| SDL_HITTEST_RESIZE_LEFT.

Inductive SDL_SystemTheme : Type :=
| SDL_SYSTEM_THEME_UNKNOWN
| SDL_SYSTEM_THEME_LIGHT
| SDL_SYSTEM_THEME_DARK.

(** The event types that [handleEvent] distinguishes; every other value of
    [event->type] is [SDL_EVENT_other] with its numeric code. *)
Inductive SDL_EventType : Type :=
| SDL_EVENT_QUIT
| SDL_EVENT_WINDOW_EXPOSED
| SDL_EVENT_WINDOW_PIXEL_SIZE_CHANGED
| SDL_EVENT_WINDOW_DISPLAY_SCALE_CHANGED
| SDL_EVENT_SYSTEM_THEME_CHANGED
| SDL_EVENT_other (code : Z).

(** [SDL_PointInRectFloat] of SDL3's SDL_rect.h: all four bounds are
    inclusive, and the far edges are computed in [float]. *)
Definition SDL_PointInRectFloat (p : SDL_FPoint.t) (r : SDL_FRect.t) : bool :=
  F32.geb (SDL_FPoint.x p) (SDL_FRect.x r)
  && F32.leb (SDL_FPoint.x p) (F32.add (SDL_FRect.x r) (SDL_FRect.w r))
  && F32.geb (SDL_FPoint.y p) (SDL_FRect.y r)
  && F32.leb (SDL_FPoint.y p) (F32.add (SDL_FRect.y r) (SDL_FRect.h r)).

(** ** Program state *)

Module Layout.
Record t : Type := mk {
  window : SDL_FRect.t;
  background : SDL_FRect.t;
  titleBar : SDL_FRect.t;
  clientArea : SDL_FRect.t;
  scale : float
}.
End Layout.

Module Shadow.
Record t : Type := mk {
  bottom : SDL_Texture.t;
  corner : SDL_Texture.t;
  left : SDL_Texture.t
}.
End Shadow.

Module palette.
Record t : Type := mk {
  border : SDL_Color.t;
  background : SDL_Color.t;
  titleBar : SDL_Color.t
}.
End palette.

Module Theme.
Record t : Type := mk {
  light : palette.t;
  dark : palette.t;
  useLight : bool
}.
End Theme.

(** The global variables of [main.c]. *)
Record App : Type := mkApp {
  layout : Layout.t;
  shadow : Shadow.t;
  theme : Theme.t;
  appShouldExit : bool;
  windowShouldBeRedrawn : bool
}.

(** What SDL answers when the program queries it. *)
Record Env : Type := mkEnv {
  SDL_GetWindowDisplayScale : float;
  SDL_GetWindowSizeInPixels : Z * Z;
  SDL_GetSystemTheme : SDL_SystemTheme
}.

Definition color (r g b a : Z) : SDL_Color.t := SDL_Color.mk r g b a.

Definition theme_light : palette.t :=
  palette.mk (color 200 200 200 255) (color 227 227 227 255)
             (color 255 255 255 255).

Definition theme_dark : palette.t :=
  palette.mk (color 55 55 55 255) (color 27 27 27 255) (color 0 0 0 255).

(** The initialiser of the global [theme]. *)
Definition theme_init : Theme.t := Theme.mk theme_light theme_dark true.

Definition zero_rect : SDL_FRect.t :=
  SDL_FRect.mk F32.zero F32.zero F32.zero F32.zero.

(** The zero-initialised global [layout]. *)
Definition layout_init : Layout.t :=
  Layout.mk zero_rect zero_rect zero_rect zero_rect F32.zero.

(** ** [updateLayout] *)

Definition updateLayout (env : Env) (st : App) : App :=
  let scale := SDL_GetWindowDisplayScale env in
  let '(w, h) := SDL_GetWindowSizeInPixels env in
  let window := SDL_FRect.mk (F32.of_int 0) (F32.of_int 0)
                             (F32.of_int w) (F32.of_int h) in
  let left_w := SDL_Texture.w (Shadow.left (shadow st)) in
  let bottom_h := SDL_Texture.h (Shadow.bottom (shadow st)) in
  let background :=
    SDL_FRect.mk (F32.of_int left_w) (F32.of_int bottom_h)
                 (F32.of_int (wrap_int (w - wrap_int (2 * left_w))))
                 (F32.of_int (wrap_int (h - wrap_int (2 * bottom_h)))) in
  let rh := F32.sub (SDL_FRect.h background)
                    (F32.mul (F32.of_int 2) (F32.floorf scale)) in
  let titleBar :=
    SDL_FRect.mk (F32.add (SDL_FRect.x background) (F32.floorf scale))
                 (F32.add (SDL_FRect.y background) (F32.floorf scale))
                 (F32.sub (SDL_FRect.w background)
                          (F32.mul (F32.of_int 2) (F32.floorf scale)))
                 (F32.ceilf (F32.mul (F32.of_int 30) scale)) in
  let rh := F32.sub rh (F32.add (SDL_FRect.h titleBar) (F32.floorf scale)) in
  let clientArea :=
    SDL_FRect.mk (SDL_FRect.x titleBar)
                 (F32.add (F32.add (SDL_FRect.y titleBar)
                                   (SDL_FRect.h titleBar))
                          (F32.floorf scale))
                 (SDL_FRect.w titleBar)
                 rh in
  {| layout := Layout.mk window background titleBar clientArea scale;
     shadow := shadow st;
     theme := theme st;
     appShouldExit := appShouldExit st;
     windowShouldBeRedrawn := true |}.

(** ** [handleEvent] *)

Definition system_is_light (env : Env) : bool :=
  match SDL_GetSystemTheme env with
  | SDL_SYSTEM_THEME_DARK => false
  | _ => true
  end.

Definition handleEvent (env : Env) (event : SDL_EventType) (st : App) : App :=
  match event with
  | SDL_EVENT_QUIT =>
      {| layout := layout st; shadow := shadow st; theme := theme st;
         appShouldExit := true;
         windowShouldBeRedrawn := windowShouldBeRedrawn st |}
  | SDL_EVENT_WINDOW_EXPOSED =>
      {| layout := layout st; shadow := shadow st; theme := theme st;
         appShouldExit := appShouldExit st;
         windowShouldBeRedrawn := true |}
  | SDL_EVENT_WINDOW_PIXEL_SIZE_CHANGED => updateLayout env st
  | SDL_EVENT_WINDOW_DISPLAY_SCALE_CHANGED => updateLayout env st
  | SDL_EVENT_SYSTEM_THEME_CHANGED =>
      {| layout := layout st; shadow := shadow st;
         theme := Theme.mk (Theme.light (theme st)) (Theme.dark (theme st))
                           (system_is_light env);
         appShouldExit := appShouldExit st;
         windowShouldBeRedrawn := true |}
  | SDL_EVENT_other _ => st
  end.

(** ** [hitTest] *)

Definition bind_int {A : Type} (c : option Z) (k : Z -> option A) : option A :=
  match c with
  | Some z => k z
  | None => None
  end.

Notation "'int' x <- c ; k" := (bind_int c (fun x => k))
  (at level 10, x name, c at level 100, k at level 200).

Definition hitTest (l : Layout.t) (area : SDL_Point.t)
  : option SDL_HitTestResult :=
  let scale := Layout.scale l in
  let bx := SDL_FRect.x (Layout.background l) in
  let by_ := SDL_FRect.y (Layout.background l) in
  let bw := SDL_FRect.w (Layout.background l) in
  let bh := SDL_FRect.h (Layout.background l) in
  let pos := SDL_FPoint.mk (F32.mul (F32.of_int (SDL_Point.x area)) scale)
                           (F32.mul (F32.of_int (SDL_Point.y area)) scale) in
  int x <- F32.to_int (SDL_FPoint.x pos);
  int y <- F32.to_int (SDL_FPoint.y pos);
  int edgeTol <- F32.to_int (F32.ceilf (F32.mul (F32.of_int 2) scale));
  int cornerTol <- F32.to_int (F32.ceilf (F32.mul (F32.of_int 8) scale));
  let fx := F32.of_int x in
  let fy := F32.of_int y in
  let fedge := F32.of_int edgeTol in
  let fcorner := F32.of_int cornerTol in
  Some (
    if F32.geb fx (F32.sub bx fedge) && F32.leb fx (F32.add bx fedge) then
      if F32.ltb fy (F32.add by_ fcorner) then SDL_HITTEST_RESIZE_TOPLEFT
      else if F32.geb fy (F32.sub (F32.add by_ bh) fcorner)
           then SDL_HITTEST_RESIZE_BOTTOMLEFT
           else SDL_HITTEST_RESIZE_LEFT
    else if F32.geb fx (F32.sub (F32.add bx bw) fedge)
            && F32.leb fx (F32.add (F32.add bx bw) fedge) then
      if F32.ltb fy (F32.add by_ fcorner) then SDL_HITTEST_RESIZE_TOPRIGHT
      else if F32.geb fy (F32.sub (F32.add by_ bh) fcorner)
           then SDL_HITTEST_RESIZE_BOTTOMRIGHT
           else SDL_HITTEST_RESIZE_RIGHT
    else if F32.geb fy (F32.sub by_ fedge) && F32.leb fy (F32.add by_ fedge)
    then SDL_HITTEST_RESIZE_TOP
    else if F32.geb fy (F32.sub (F32.add by_ bh) fedge)
            && F32.leb fy (F32.add (F32.add by_ bh) fedge)
    then SDL_HITTEST_RESIZE_BOTTOM
    else if SDL_PointInRectFloat pos (Layout.titleBar l)
    then SDL_HITTEST_DRAGGABLE
    else SDL_HITTEST_NORMAL).

(** ** [main]: start-up and one turn of the update loop *)

(** The globals when the loop is entered: textures loaded, layout updated,
    system theme queried. *)
Definition main_init (env : Env) (sh : Shadow.t) : App :=
  let st := updateLayout env
              {| layout := layout_init; shadow := sh; theme := theme_init;
                 appShouldExit := false; windowShouldBeRedrawn := true |} in
  {| layout := layout st; shadow := shadow st;
     theme := Theme.mk (Theme.light (theme st)) (Theme.dark (theme st))
                       (system_is_light env);
     appShouldExit := appShouldExit st;
     windowShouldBeRedrawn := windowShouldBeRedrawn st |}.

(** The effect of [drawWindow(); windowShouldBeRedrawn = false;] on the
    globals; what is drawn is not part of the model. *)
Definition redraw (st : App) : App :=
  {| layout := layout st; shadow := shadow st; theme := theme st;
     appShouldExit := appShouldExit st;
     windowShouldBeRedrawn := false |}.

(** One turn of the loop: redraw if needed, then handle the event that
    [SDL_WaitEventTimeout] left in [event]. *)
Definition main_loop (env : Env) (event : SDL_EventType) (st : App) : App :=
  handleEvent env event (if windowShouldBeRedrawn st then redraw st else st).

(** The states of the program at the top of the update loop, when every
    answer of SDL satisfies [ok]; the loop takes another turn only while
    [appShouldExit] is false. *)
Inductive reachable (ok : Env -> Prop) (sh : Shadow.t) : App -> Prop :=
| reach_init (env : Env) :
    ok env -> reachable ok sh (main_init env sh)
| reach_loop (env : Env) (event : SDL_EventType) (st : App) :
    ok env -> reachable ok sh st -> appShouldExit st = false ->
    reachable ok sh (main_loop env event st).

(** ** [main]: the update loop *)

(** The do-while loop of [main], run on the successive contents of [event]
    after each [SDL_WaitEventTimeout], each with SDL's answers at that
    time.  The result is the list of the states in which [drawWindow] was
    called and the state in which the loop was left, if it was left before
    the list ran out. *)
Fixpoint update_loop (events : list (Env * SDL_EventType)) (st : App)
  : list App * option App :=
  let frame := if windowShouldBeRedrawn st then [st] else [] in
  match events with
  | [] => (frame, None)
  | (env, event) :: rest =>
      let st' := main_loop env event st in
      if appShouldExit st' then (frame, Some st')
      else let '(frames, final) := update_loop rest st' in
           (frame ++ frames, final)
  end.

(** ** [drawShadow] and [drawWindow] *)

(** The three textures of the global [shadow]. *)
Inductive ShadowTexture : Type :=
| shadow_bottom
| shadow_corner
| shadow_left.

(** [SDL_FlipMode]: a set of the two mirror axes, joined by [|]. *)
Module SDL_FlipMode.
Record t : Type := mk { horizontal : bool; vertical : bool }.
End SDL_FlipMode.

Definition SDL_FLIP_NONE : SDL_FlipMode.t := SDL_FlipMode.mk false false.
Definition SDL_FLIP_HORIZONTAL : SDL_FlipMode.t := SDL_FlipMode.mk true false.
Definition SDL_FLIP_VERTICAL : SDL_FlipMode.t := SDL_FlipMode.mk false true.

Definition flip_or (a b : SDL_FlipMode.t) : SDL_FlipMode.t :=
  SDL_FlipMode.mk (SDL_FlipMode.horizontal a || SDL_FlipMode.horizontal b)
                  (SDL_FlipMode.vertical a || SDL_FlipMode.vertical b).

Inductive SDL_WindowFlags : Type :=
| SDL_WINDOW_HIGH_PIXEL_DENSITY
| SDL_WINDOW_RESIZABLE
| SDL_WINDOW_BORDERLESS
| SDL_WINDOW_TRANSPARENT
| SDL_WINDOW_INPUT_FOCUS.

(** The calls by which the program acts on SDL, with the arguments that
    differ between calls.  The source rectangle and the centre of a
    textured draw are NULL and its angle is 0 at every call;
    [SDL_RenderTexture] draws without a flip; [IMG_LoadTextureTyped_IO]
    stands for the load of one embedded image through [SDL_IOFromMem].
    The queries ([SDL_GetError], [SDL_WaitEventTimeout] and those of
    [Env]) are not calls of this kind. *)
Inductive SDL_Call : Type :=
| SDL_Init
| TTF_Init
| SDL_CreateWindow (title : string) (w h : Z) (flags : list SDL_WindowFlags)
| SDL_SetWindowMinimumSize (min_w min_h : Z)
| SDL_CreateRenderer
| SDL_SetWindowHitTest
| SDL_ShowSimpleMessageBox (title : string)
| IMG_LoadTextureTyped_IO (texture : ShadowTexture)
| SDL_SetTextureAlphaModFloat (texture : ShadowTexture) (alpha : float)
| SDL_SetRenderDrawColor (c : SDL_Color.t)
| SDL_RenderClear
| SDL_RenderTextureRotated (texture : ShadowTexture) (dstrect : SDL_FRect.t)
                           (flip : SDL_FlipMode.t)
| SDL_RenderTexture (texture : ShadowTexture) (dstrect : SDL_FRect.t)
| SDL_RenderFillRect (rect : SDL_FRect.t)
| SDL_RenderPresent
| SDL_DestroyRenderer
| SDL_DestroyWindow
| TTF_Quit
| SDL_Quit.

(** The assignments [dest.x = v] and [dest.y = v]. *)
Definition set_x (r : SDL_FRect.t) (v : float) : SDL_FRect.t :=
  SDL_FRect.mk v (SDL_FRect.y r) (SDL_FRect.w r) (SDL_FRect.h r).

Definition set_y (r : SDL_FRect.t) (v : float) : SDL_FRect.t :=
  SDL_FRect.mk (SDL_FRect.x r) v (SDL_FRect.w r) (SDL_FRect.h r).

(** [drawShadow]: the width and height of the window are converted to
    [int]; [w - dest.w] and [h - dest.h] are [float] subtractions, the
    other differences are computed in [int] and then converted. *)
Definition drawShadow (l : Layout.t) : option (list SDL_Call) :=
  int w <- F32.to_int (SDL_FRect.w (Layout.window l));
  int h <- F32.to_int (SDL_FRect.h (Layout.window l));
  let dest := SDL_FRect.mk (F32.of_int 0) (F32.of_int 0)
                           (F32.of_int 55) (F32.of_int 55) in
  let top_left := dest in
  let dest := set_x dest (F32.sub (F32.of_int w) (SDL_FRect.w dest)) in
  let top_right := dest in
  let dest := set_y dest (F32.sub (F32.of_int h) (SDL_FRect.h dest)) in
  let bottom_right := dest in
  let dest := set_x dest (F32.of_int 0) in
  let bottom_left := dest in
  let dest := SDL_FRect.mk (F32.of_int 55) (F32.of_int 0)
                           (F32.of_int (wrap_int (w - 110))) (F32.of_int 16) in
  let top := dest in
  let dest := set_y dest (F32.of_int (wrap_int (h - 16))) in
  let bottom := dest in
  let dest := SDL_FRect.mk (F32.of_int 0) (F32.of_int 55) (F32.of_int 16)
                           (F32.of_int (wrap_int (h - 110))) in
  let left := dest in
  let dest := set_x dest (F32.of_int (wrap_int (w - 16))) in
  let right := dest in
  Some [ SDL_RenderTextureRotated shadow_corner top_left
           (flip_or SDL_FLIP_HORIZONTAL SDL_FLIP_VERTICAL);
         SDL_RenderTextureRotated shadow_corner top_right SDL_FLIP_VERTICAL;
         SDL_RenderTexture shadow_corner bottom_right;
         SDL_RenderTextureRotated shadow_corner bottom_left SDL_FLIP_HORIZONTAL;
         SDL_RenderTextureRotated shadow_bottom top SDL_FLIP_VERTICAL;
         SDL_RenderTexture shadow_bottom bottom;
         SDL_RenderTextureRotated shadow_left left SDL_FLIP_NONE;
         SDL_RenderTextureRotated shadow_left right SDL_FLIP_HORIZONTAL ].

(** The palette that [drawWindow] selects with [theme.useLight]. *)
Definition active_palette (t : Theme.t) : palette.t :=
  if Theme.useLight t then Theme.light t else Theme.dark t.

(** The three filled rectangles of [drawWindow], in the order of the calls:
    the background in the border colour, the title bar, the client area in
    the background colour. *)
Definition fill_rects (p : palette.t) (l : Layout.t) : list SDL_Call :=
  [ SDL_SetRenderDrawColor (palette.border p);
    SDL_RenderFillRect (Layout.background l);
    SDL_SetRenderDrawColor (palette.titleBar p);
    SDL_RenderFillRect (Layout.titleBar l);
    SDL_SetRenderDrawColor (palette.background p);
    SDL_RenderFillRect (Layout.clientArea l) ].

Definition drawWindow (st : App) : option (list SDL_Call) :=
  match drawShadow (layout st) with
  | Some shadow_calls =>
      Some ([SDL_SetRenderDrawColor (color 0 0 0 0); SDL_RenderClear]
            ++ shadow_calls
            ++ fill_rects (active_palette (theme st)) (layout st)
            ++ [SDL_RenderPresent])
  | None => None
  end.

(** The calls of a sequence of frames. *)
Fixpoint draw_frames (frames : list App) : option (list SDL_Call) :=
  match frames with
  | [] => Some []
  | st :: rest =>
      match drawWindow st, draw_frames rest with
      | Some calls, Some calls' => Some (calls ++ calls')
      | _, _ => None
      end
  end.

(** ** Start-up and clean-up: [initSDL], [createWindow], [destroyWindow],
       [loadImageResources] and [main] *)

(** What SDL answers during the start-up: whether each call succeeds. *)
Record Startup : Type := mkStartup {
  SDL_Init_ok : bool;
  TTF_Init_ok : bool;
  SDL_CreateWindow_ok : bool;
  SDL_CreateRenderer_ok : bool;
  SDL_SetWindowHitTest_ok : bool
}.

(** The functions that the program registers with [atexit]. *)
Inductive atexit_fn : Type :=
| fn_SDL_Quit
| fn_TTF_Quit
| fn_destroyWindow.

(** The globals [wnd] and [rnd] ([true]: not NULL), the functions
    registered with [atexit], the latest first, and the calls made so far,
    in order. *)
Record Sys : Type := mkSys {
  wnd : bool;
  rnd : bool;
  registered : list atexit_fn;
  calls : list SDL_Call
}.

Definition sys_init : Sys := mkSys false false [] [].

Definition call (c : SDL_Call) (s : Sys) : Sys :=
  mkSys (wnd s) (rnd s) (registered s) (calls s ++ [c]).

Definition atexit (f : atexit_fn) (s : Sys) : Sys :=
  mkSys (wnd s) (rnd s) (f :: registered s) (calls s).

Definition initSDL (b : Startup) (s : Sys) : bool * Sys :=
  let s := call SDL_Init s in
  if negb (SDL_Init_ok b) then
    (false, call (SDL_ShowSimpleMessageBox "Failed to initialize SDL3") s)
  else
    let s := atexit fn_SDL_Quit s in
    let s := call TTF_Init s in
    if negb (TTF_Init_ok b) then
      (false, call (SDL_ShowSimpleMessageBox "Failed to initialize SDL3_ttf") s)
    else
      (true, atexit fn_TTF_Quit s).

Definition createWindow (b : Startup) (s : Sys) : bool * Sys :=
  let s := call (SDL_CreateWindow "Demo Window" 800 600
                   [SDL_WINDOW_HIGH_PIXEL_DENSITY; SDL_WINDOW_RESIZABLE;
                    SDL_WINDOW_BORDERLESS; SDL_WINDOW_TRANSPARENT;
                    SDL_WINDOW_INPUT_FOCUS]) s in
  let s := mkSys (SDL_CreateWindow_ok b) (rnd s) (registered s) (calls s) in
  if negb (wnd s) then
    (false, call (SDL_ShowSimpleMessageBox "Failed to create window") s)
  else
    let s := atexit fn_destroyWindow s in
    let s := call (SDL_SetWindowMinimumSize 126 126) s in
    let s := call SDL_CreateRenderer s in
    let s := mkSys (wnd s) (SDL_CreateRenderer_ok b) (registered s) (calls s) in
    if negb (rnd s) then
      (false, call (SDL_ShowSimpleMessageBox "Failed to create renderer") s)
    else (true, s).

Definition destroyWindow (s : Sys) : Sys :=
  let s := if rnd s
           then let s := call SDL_DestroyRenderer s in
                mkSys (wnd s) false (registered s) (calls s)
           else s in
  if wnd s
  then let s := call SDL_DestroyWindow s in
       mkSys false (rnd s) (registered s) (calls s)
  else s.

Definition run_atexit (f : atexit_fn) (s : Sys) : Sys :=
  match f with
  | fn_SDL_Quit => call SDL_Quit s
  | fn_TTF_Quit => call TTF_Quit s
  | fn_destroyWindow => destroyWindow s
  end.

(** Leaving [main]: the registered functions run in the reverse order of
    their registration (C11 7.22.4.4). *)
Definition exit (s : Sys) : Sys :=
  fold_left (fun s f => run_atexit f s) (registered s) s.

(** The [float] nearest to the constant 0.3, that is 10066330 / 2^25. *)
Definition alpha_0_3 : float := S754_finite false 10066330 (-25).

Definition loadImageResources (s : Sys) : Sys :=
  let s := call (IMG_LoadTextureTyped_IO shadow_corner) s in
  let s := call (IMG_LoadTextureTyped_IO shadow_bottom) s in
  let s := call (IMG_LoadTextureTyped_IO shadow_left) s in
  let s := call (SDL_SetTextureAlphaModFloat shadow_corner alpha_0_3) s in
  let s := call (SDL_SetTextureAlphaModFloat shadow_bottom alpha_0_3) s in
  call (SDL_SetTextureAlphaModFloat shadow_left alpha_0_3) s.

Inductive ExitStatus : Type :=
| EXIT_SUCCESS
| EXIT_FAILURE.

(** How a run of [main] ends: the process exits with a status; or the
    events run out while the loop waits; or a conversion of [drawShadow]
    has no defined result. *)
Inductive Outcome : Type :=
| Exited (status : ExitStatus) (s : Sys)
| Waiting (s : Sys)
| Undefined.

Definition calls_after (s : Sys) (cs : list SDL_Call) : Sys :=
  mkSys (wnd s) (rnd s) (registered s) (calls s ++ cs).

(** [main], for the answers [b] of SDL during the start-up, the textures
    [sh] that [loadImageResources] stores in [shadow], the answers [env] at
    the first [updateLayout], and the events of the loop. *)
Definition main (b : Startup) (sh : Shadow.t) (env : Env)
  (events : list (Env * SDL_EventType)) : Outcome :=
  let '(ok, s) := initSDL b sys_init in
  if negb ok then Exited EXIT_FAILURE (exit s) else
  let '(ok, s) := createWindow b s in
  if negb ok then Exited EXIT_FAILURE (exit s) else
  let s := call SDL_SetWindowHitTest s in
  if negb (SDL_SetWindowHitTest_ok b) then
    Exited EXIT_FAILURE
      (exit (call (SDL_ShowSimpleMessageBox "Failed to enable hit tests") s))
  else
  let s := loadImageResources s in
  let '(frames, final) := update_loop events (main_init env sh) in
  match draw_frames frames with
  | None => Undefined
  | Some drawn =>
      let s := calls_after s drawn in
      match final with
      | Some _ => Exited EXIT_SUCCESS (exit s)
      | None => Waiting s
      end
  end.

(** ** Vocabulary of the properties *)

(** A scale that is a well-formed binary32 number with [0 < scale <= 4096]. *)
Definition scale_ok (scale : float) : Prop :=
  F32.valid scale = true
  /\ F32.ltb F32.zero scale = true
  /\ F32.leb scale (F32.of_int 4096) = true.

(** Sizes for which every quantity of the layout stays below [2^24], the
    range in which binary32 represents each integer. *)
Definition env_ok (sh : Shadow.t) (env : Env) : Prop :=
  scale_ok (SDL_GetWindowDisplayScale env)
  /\ 0 < fst (SDL_GetWindowSizeInPixels env) <= 2 ^ 22
  /\ 0 < snd (SDL_GetWindowSizeInPixels env) <= 2 ^ 22
  /\ 0 <= SDL_Texture.w (Shadow.left sh) <= 2 ^ 20
  /\ 0 <= SDL_Texture.h (Shadow.bottom sh) <= 2 ^ 20.

(** Border width [floor(scale)] and title-bar height [ceil(30 * scale)] as
    integers; the product is the binary32 product of the program. *)
Definition border (scale : float) : Z := F32.Zfloor scale.

Definition titleHeight (scale : float) : Z :=
  F32.Zceil (F32.mul (F32.of_int 30) scale).

Definition rectZ (x y w h : Z) : SDL_FRect.t :=
  SDL_FRect.mk (F32.of_int x) (F32.of_int y) (F32.of_int w) (F32.of_int h).

(** The exact coordinates of a rectangle whose fields are integral. *)
Definition rect_exact (r : SDL_FRect.t) : option (Z * Z * Z * Z) :=
  match F32.to_Z (SDL_FRect.x r), F32.to_Z (SDL_FRect.y r),
        F32.to_Z (SDL_FRect.w r), F32.to_Z (SDL_FRect.h r) with
  | Some x, Some y, Some w, Some h => Some (x, y, w, h)
  | _, _, _, _ => None
  end.

(** [a] is a rectangle (its sizes are not negative) that lies within [b]. *)
Definition contained (a b : SDL_FRect.t) : bool :=
  match rect_exact a, rect_exact b with
  | Some (ax, ay, aw, ah), Some (bx, by_, bw, bh) =>
      (0 <=? aw) && (0 <=? ah) && (bx <=? ax) && (by_ <=? ay)
      && (ax + aw <=? bx + bw) && (ay + ah <=? by_ + bh)
  | _, _ => false
  end.

(** clientRect.y = titleBarRect.y + titleBarRect.height + floor(scale) *)
Definition client_below_title (l : Layout.t) : bool :=
  match F32.to_Z (SDL_FRect.y (Layout.clientArea l)),
        F32.to_Z (SDL_FRect.y (Layout.titleBar l)),
        F32.to_Z (SDL_FRect.h (Layout.titleBar l)),
        F32.to_Z (F32.floorf (Layout.scale l)) with
  | Some cy, Some ty, Some th, Some f => cy =? ty + th + f
  | _, _, _, _ => false
  end.

Definition nested_layout (l : Layout.t) : Prop :=
  contained (Layout.background l) (Layout.window l) = true
  /\ contained (Layout.titleBar l) (Layout.background l) = true
  /\ contained (Layout.clientArea l) (Layout.background l) = true
  /\ SDL_FRect.x (Layout.clientArea l) = SDL_FRect.x (Layout.titleBar l)
  /\ SDL_FRect.w (Layout.clientArea l) = SDL_FRect.w (Layout.titleBar l)
  /\ client_below_title l = true.

(** clientRect.height = backgroundRect.height - titleBarRect.height
    - 3 * floor(scale) *)
Definition client_height_law (l : Layout.t) : bool :=
  match F32.to_Z (SDL_FRect.h (Layout.clientArea l)),
        F32.to_Z (SDL_FRect.h (Layout.background l)),
        F32.to_Z (SDL_FRect.h (Layout.titleBar l)),
        F32.to_Z (F32.floorf (Layout.scale l)) with
  | Some ch, Some bh, Some th, Some f => ch =? bh - th - 3 * f
  | _, _, _, _ => false
  end.

(** The quantities that [hitTest] computes before it branches. *)
Definition cursor (l : Layout.t) (area : SDL_Point.t) : SDL_FPoint.t :=
  SDL_FPoint.mk (F32.mul (F32.of_int (SDL_Point.x area)) (Layout.scale l))
                (F32.mul (F32.of_int (SDL_Point.y area)) (Layout.scale l)).

Definition edgeTol (l : Layout.t) : option Z :=
  F32.to_int (F32.ceilf (F32.mul (F32.of_int 2) (Layout.scale l))).

Definition cornerTol (l : Layout.t) : option Z :=
  F32.to_int (F32.ceilf (F32.mul (F32.of_int 8) (Layout.scale l))).

(** [v] lies within [tol] of [edge]: the two-sided test of the edge bands. *)
Definition within (v edge tol : float) : bool :=
  F32.geb v (F32.sub edge tol) && F32.leb v (F32.add edge tol).

Definition left_edge (l : Layout.t) : float := SDL_FRect.x (Layout.background l).
Definition top_edge (l : Layout.t) : float := SDL_FRect.y (Layout.background l).
Definition right_edge (l : Layout.t) : float :=
  F32.add (SDL_FRect.x (Layout.background l)) (SDL_FRect.w (Layout.background l)).
Definition bottom_edge (l : Layout.t) : float :=
  F32.add (SDL_FRect.y (Layout.background l)) (SDL_FRect.h (Layout.background l)).

(** The one-sided corner tests of the program. *)
Definition above_top_corner (l : Layout.t) (y cornerTol : Z) : bool :=
  F32.ltb (F32.of_int y) (F32.add (top_edge l) (F32.of_int cornerTol)).

Definition below_bottom_corner (l : Layout.t) (y cornerTol : Z) : bool :=
  F32.geb (F32.of_int y) (F32.sub (bottom_edge l) (F32.of_int cornerTol)).

(** The six classes of regions in the order of precedence. *)
Inductive Zone : Type :=
| ZoneLeft | ZoneRight | ZoneTop | ZoneBottom | ZoneTitle | ZoneNone.

Definition zone_of (r : SDL_HitTestResult) : Zone :=
  match r with
  | SDL_HITTEST_RESIZE_TOPLEFT | SDL_HITTEST_RESIZE_LEFT
  | SDL_HITTEST_RESIZE_BOTTOMLEFT => ZoneLeft
  | SDL_HITTEST_RESIZE_TOPRIGHT | SDL_HITTEST_RESIZE_RIGHT
  | SDL_HITTEST_RESIZE_BOTTOMRIGHT => ZoneRight
  | SDL_HITTEST_RESIZE_TOP => ZoneTop
  | SDL_HITTEST_RESIZE_BOTTOM => ZoneBottom
  | SDL_HITTEST_DRAGGABLE => ZoneTitle
  | SDL_HITTEST_NORMAL => ZoneNone
  end.

(** The first test of the specified order that the point passes. *)
Definition first_zone (l : Layout.t) (pos : SDL_FPoint.t) (x y edgeTol : Z)
  : Zone :=
  if within (F32.of_int x) (left_edge l) (F32.of_int edgeTol) then ZoneLeft
  else if within (F32.of_int x) (right_edge l) (F32.of_int edgeTol)
  then ZoneRight
  else if within (F32.of_int y) (top_edge l) (F32.of_int edgeTol) then ZoneTop
  else if within (F32.of_int y) (bottom_edge l) (F32.of_int edgeTol)
  then ZoneBottom
  else if SDL_PointInRectFloat pos (Layout.titleBar l) then ZoneTitle
  else ZoneNone.

(** ** Concrete inputs of the scenarios *)

(** Shadow textures with a left strip 16 wide and a bottom strip 16 high. *)
Definition shadow16 : Shadow.t :=
  Shadow.mk (SDL_Texture.mk 55 16) (SDL_Texture.mk 55 55) (SDL_Texture.mk 16 55).

Definition app16 : App :=
  {| layout := layout_init; shadow := shadow16; theme := theme_init;
     appShouldExit := false; windowShouldBeRedrawn := false |}.

Definition scale_1_0 : float := F32.of_int 1.
Definition scale_1_5 : float := S754_finite false 12582912 (-23).
Definition scale_2_0 : float := F32.of_int 2.

(** The binary32 number nearest to 1.1, that is 9227469 / 2^23. *)
Definition scale_1_1 : float := S754_finite false 9227469 (-23).

Definition env_of (scale : float) (w h : Z) : Env :=
  {| SDL_GetWindowDisplayScale := scale;
     SDL_GetWindowSizeInPixels := (w, h);
     SDL_GetSystemTheme := SDL_SYSTEM_THEME_LIGHT |}.

Definition layout_800x600 : Layout.t :=
  layout (updateLayout (env_of scale_1_0 800 600) app16).

(** ** Auxiliary notions for the facts about rounding *)

(** The canonical binary32 representation of a positive integer below
    [2^24]. *)
Definition canon (s : bool) (n : Z) : float :=
  S754_finite s (Z.to_pos (n * 2 ^ (23 - Z.log2 n))) (Z.log2 n - 23).

(** [r'] is [r] shifted right by [k] digits; nothing is lost when [r] is
    exact and a multiple of [2^k]. *)
Definition shr_ok (k : Z) (r r' : shr_record) : Prop :=
  0 <= shr_m r' /\
  shr_m r' = shr_m r / 2 ^ k /\
  (shr_r r = false -> shr_s r = false -> shr_m r mod 2 ^ k = 0 ->
   shr_r r' = false /\ shr_s r' = false).

(** What [binary_round_aux] returns for a mantissa with enough digits:
    sign [s], a mantissa below [2^24] and an exponent [E'] or [E' + 1]. *)
Definition rounded_shape (s : bool) (E' : Z) (x : float) : Prop :=
  match x with
  | S754_zero s' => s' = s
  | S754_finite s' m3 e3 =>
      s' = s /\ Zpos m3 < 2 ^ 24 /\ E' <= e3 <= E' + 1
      /\ bounded F32.prec F32.emax m3 e3 = true
  | S754_infinity _ => 104 <= E'
  | S754_nan => False
  end.

(** ** The claims of the specification that fail as they are stated *)

(** Nesting of the rectangles for every positive size and scale, for one
    answer of SDL. *)
Definition nested_claim (env : Env) (st : App) : Prop :=
  0 < fst (SDL_GetWindowSizeInPixels env) ->
  0 < snd (SDL_GetWindowSizeInPixels env) ->
  F32.ltb F32.zero (SDL_GetWindowDisplayScale env) = true ->
  nested_layout (layout (updateLayout env st)).


(** ** The branches of [hitTest] *)

(** The result of [hitTest] once its four conversions have produced
    [x], [y], [edgeTol] and [cornerTol]; see [hitTest_defined]. *)
Definition hitTest_branches (l : Layout.t) (area : SDL_Point.t)
  (x y e c : Z) : SDL_HitTestResult :=
  if within (F32.of_int x) (left_edge l) (F32.of_int e) then
    if above_top_corner l y c then SDL_HITTEST_RESIZE_TOPLEFT
    else if below_bottom_corner l y c then SDL_HITTEST_RESIZE_BOTTOMLEFT
    else SDL_HITTEST_RESIZE_LEFT
  else if within (F32.of_int x) (right_edge l) (F32.of_int e) then
    if above_top_corner l y c then SDL_HITTEST_RESIZE_TOPRIGHT
    else if below_bottom_corner l y c then SDL_HITTEST_RESIZE_BOTTOMRIGHT
    else SDL_HITTEST_RESIZE_RIGHT
  else if within (F32.of_int y) (top_edge l) (F32.of_int e)
  then SDL_HITTEST_RESIZE_TOP
  else if within (F32.of_int y) (bottom_edge l) (F32.of_int e)
  then SDL_HITTEST_RESIZE_BOTTOM
  else if SDL_PointInRectFloat (cursor l area) (Layout.titleBar l)
  then SDL_HITTEST_DRAGGABLE
  else SDL_HITTEST_NORMAL.

(** ** Exact values of binary32 numbers *)

(** Numerator and denominator of the exact value of a finite number. *)
Definition num (x : float) : Z :=
  match x with
  | S754_finite s m e => cond_Zopp s (Zpos m) * 2 ^ Z.max e 0
  | _ => 0
  end.

Definition den (x : float) : Z :=
  match x with
  | S754_finite _ _ e => 2 ^ Z.max (- e) 0
  | _ => 1
  end.

Definition is_finite (x : float) : bool :=
  match x with
  | S754_zero _ | S754_finite _ _ _ => true
  | _ => false
  end.

(** The integer ceiling of the exact product [c * scale], the product of
    real numbers. *)
Definition ceil_mul (c : Z) (scale : float) : Z :=
  - ((- (c * num scale)) / den scale).

(** titleBarRect.height = ceil(30 x scale) for a positive scale, for one
    answer of SDL: a claim of the specification that fails as it is
    stated. *)
Definition titleBar_height_claim (env : Env) (st : App) : Prop :=
  F32.ltb F32.zero (SDL_GetWindowDisplayScale env) = true ->
  F32.to_Z (SDL_FRect.h (Layout.titleBar (layout (updateLayout env st))))
  = Some (ceil_mul 30 (SDL_GetWindowDisplayScale env)).

(** ** The tests of [hitTest] over exact integers *)

(** [v] lies within [tol] of [edge]. *)
Definition in_band (v edge tol : Z) : bool :=
  (edge - tol <=? v) && (v <=? edge + tol).

(** The point [pos] lies in the rectangle with the exact coordinates
    [(x, y, w, h)], all four bounds included: an integer is at most a
    number when it is at most its floor, and at least a number when it is
    at least its ceiling. *)
Definition point_in_rect (pos : SDL_FPoint.t) (r : Z * Z * Z * Z) : bool :=
  let '(x, y, w, h) := r in
  (x <=? F32.Zfloor (SDL_FPoint.x pos))
  && (F32.Zceil (SDL_FPoint.x pos) <=? x + w)
  && (y <=? F32.Zfloor (SDL_FPoint.y pos))
  && (F32.Zceil (SDL_FPoint.y pos) <=? y + h).

(** The tests of [hitTest] read over the integers: [b] and [t] are the
    exact coordinates of the background and of the title bar, [x] and [y]
    the truncated cursor, [e] and [c] the tolerances. *)
Definition hitTest_exact (b t : Z * Z * Z * Z) (pos : SDL_FPoint.t)
  (x y e c : Z) : SDL_HitTestResult :=
  let '(bx, by_, bw, bh) := b in
  if in_band x bx e then
    if y <? by_ + c then SDL_HITTEST_RESIZE_TOPLEFT
    else if by_ + bh - c <=? y then SDL_HITTEST_RESIZE_BOTTOMLEFT
    else SDL_HITTEST_RESIZE_LEFT
  else if in_band x (bx + bw) e then
    if y <? by_ + c then SDL_HITTEST_RESIZE_TOPRIGHT
    else if by_ + bh - c <=? y then SDL_HITTEST_RESIZE_BOTTOMRIGHT
    else SDL_HITTEST_RESIZE_RIGHT
  else if in_band y by_ e then SDL_HITTEST_RESIZE_TOP
  else if in_band y (by_ + bh) e then SDL_HITTEST_RESIZE_BOTTOM
  else if point_in_rect pos t then SDL_HITTEST_DRAGGABLE
  else SDL_HITTEST_NORMAL.

(** The exact coordinates of the background and of the title bar that
    [updateLayout] computes in the exact range. *)
Definition background_exact (env : Env) (sh : Shadow.t) : Z * Z * Z * Z :=
  let '(w, h) := SDL_GetWindowSizeInPixels env in
  let left_w := SDL_Texture.w (Shadow.left sh) in
  let bottom_h := SDL_Texture.h (Shadow.bottom sh) in
  (left_w, bottom_h, w - 2 * left_w, h - 2 * bottom_h).

Definition titleBar_exact (env : Env) (sh : Shadow.t) : Z * Z * Z * Z :=
  let '(w, h) := SDL_GetWindowSizeInPixels env in
  let scale := SDL_GetWindowDisplayScale env in
  let left_w := SDL_Texture.w (Shadow.left sh) in
  let bottom_h := SDL_Texture.h (Shadow.bottom sh) in
  (left_w + border scale, bottom_h + border scale,
   w - 2 * left_w - 2 * border scale, titleHeight scale).

(** ** Events and frames *)

(** The events after which a frame is drawn: the cases of [handleEvent]
    that set [windowShouldBeRedrawn], directly or through [updateLayout]. *)
Definition sets_redraw (event : SDL_EventType) : bool :=
  match event with
  | SDL_EVENT_WINDOW_EXPOSED
  | SDL_EVENT_WINDOW_PIXEL_SIZE_CHANGED
  | SDL_EVENT_WINDOW_DISPLAY_SCALE_CHANGED
  | SDL_EVENT_SYSTEM_THEME_CHANGED => true
  | _ => false
  end.

Definition is_quit (event : SDL_EventType) : bool :=
  match event with
  | SDL_EVENT_QUIT => true
  | _ => false
  end.

(** The events that the loop handles: those up to the first quit. *)
Fixpoint handled (events : list (Env * SDL_EventType))
  : list (Env * SDL_EventType) :=
  match events with
  | [] => []
  | (env, event) :: rest =>
      if is_quit event then [(env, event)] else (env, event) :: handled rest
  end.

(** The events on which [handleEvent] calls [updateLayout], and the one on
    which it queries the system theme. *)
Definition is_layout_event (event : SDL_EventType) : bool :=
  match event with
  | SDL_EVENT_WINDOW_PIXEL_SIZE_CHANGED
  | SDL_EVENT_WINDOW_DISPLAY_SCALE_CHANGED => true
  | _ => false
  end.

Definition is_theme_event (event : SDL_EventType) : bool :=
  match event with
  | SDL_EVENT_SYSTEM_THEME_CHANGED => true
  | _ => false
  end.

(** The answers of SDL at the last event of a kind, if there is one. *)
Definition last_env (kind : SDL_EventType -> bool)
  (events : list (Env * SDL_EventType)) : option Env :=
  fold_left (fun found e => if kind (snd e) then Some (fst e) else found)
            events None.

(** The state after the loop has taken a turn for each event. *)
Definition after_events (events : list (Env * SDL_EventType)) (st : App)
  : App :=
  fold_left (fun st e => main_loop (fst e) (snd e) st) events st.

(** ** Rectangles drawn *)

(** The destination rectangle of a drawing call. *)
Definition dstrect_of (c : SDL_Call) : option SDL_FRect.t :=
  match c with
  | SDL_RenderTextureRotated _ r _ | SDL_RenderTexture _ r
  | SDL_RenderFillRect r => Some r
  | _ => None
  end.

(** The destination rectangles of the calls of a list. *)
Fixpoint dstrects (calls : list SDL_Call) : list SDL_FRect.t :=
  match calls with
  | [] => []
  | c :: rest =>
      match dstrect_of c with
      | Some r => r :: dstrects rest
      | None => dstrects rest
      end
  end.

(** Two rectangles with integral coordinates share an inner point. *)
Definition overlap (a b : SDL_FRect.t) : bool :=
  match rect_exact a, rect_exact b with
  | Some (ax, ay, aw, ah), Some (bx, by_, bw, bh) =>
      (ax <? bx + bw) && (bx <? ax + aw) && (ay <? by_ + bh) && (by_ <? ay + ah)
  | _, _ => true
  end.

(** The pixel with the upper left corner [(px, py)] lies in the
    rectangle. *)
Definition has_pixel (r : SDL_FRect.t) (px py : Z) : bool :=
  match rect_exact r with
  | Some (x, y, w, h) =>
      (x <=? px) && (px <? x + w) && (y <=? py) && (py <? y + h)
  | None => false
  end.

(** [R] holds between every element of the list and every later one. *)
Fixpoint pairwise {A : Type} (R : A -> A -> bool) (l : list A) : bool :=
  match l with
  | [] => true
  | a :: rest => forallb (fun b => R a b) rest && pairwise R rest
  end.

(** ** Calls of a run of [main] *)

(** The calls of a start-up in which every call succeeds. *)
Definition startup_calls : list SDL_Call :=
  [ SDL_Init; TTF_Init;
    SDL_CreateWindow "Demo Window" 800 600
      [SDL_WINDOW_HIGH_PIXEL_DENSITY; SDL_WINDOW_RESIZABLE;
       SDL_WINDOW_BORDERLESS; SDL_WINDOW_TRANSPARENT; SDL_WINDOW_INPUT_FOCUS];
    SDL_SetWindowMinimumSize 126 126;
    SDL_CreateRenderer;
    SDL_SetWindowHitTest;
    IMG_LoadTextureTyped_IO shadow_corner;
    IMG_LoadTextureTyped_IO shadow_bottom;
    IMG_LoadTextureTyped_IO shadow_left;
    SDL_SetTextureAlphaModFloat shadow_corner alpha_0_3;
    SDL_SetTextureAlphaModFloat shadow_bottom alpha_0_3;
    SDL_SetTextureAlphaModFloat shadow_left alpha_0_3 ].

(** Every call of the start-up succeeds. *)
Definition startup_ok (b : Startup) : bool :=
  SDL_Init_ok b && TTF_Init_ok b && SDL_CreateWindow_ok b
  && SDL_CreateRenderer_ok b && SDL_SetWindowHitTest_ok b.

(** The title of the message box for the first call that fails. *)
Definition failure_title (b : Startup) : string :=
  if negb (SDL_Init_ok b) then "Failed to initialize SDL3"
  else if negb (TTF_Init_ok b) then "Failed to initialize SDL3_ttf"
  else if negb (SDL_CreateWindow_ok b) then "Failed to create window"
  else if negb (SDL_CreateRenderer_ok b) then "Failed to create renderer"
  else "Failed to enable hit tests".

(** The releases that are due for what the start-up has acquired, the
    latest acquisition first. *)
Definition releases_due (b : Startup) : list SDL_Call :=
  (if SDL_Init_ok b && TTF_Init_ok b && SDL_CreateWindow_ok b
      && SDL_CreateRenderer_ok b then [SDL_DestroyRenderer] else [])
  ++ (if SDL_Init_ok b && TTF_Init_ok b && SDL_CreateWindow_ok b
      then [SDL_DestroyWindow] else [])
  ++ (if SDL_Init_ok b && TTF_Init_ok b then [TTF_Quit] else [])
  ++ (if SDL_Init_ok b then [SDL_Quit] else []).

Definition is_message_box (c : SDL_Call) : bool :=
  match c with
  | SDL_ShowSimpleMessageBox _ => true
  | _ => false
  end.

Definition is_release (c : SDL_Call) : bool :=
  match c with
  | SDL_DestroyRenderer | SDL_DestroyWindow | TTF_Quit | SDL_Quit => true
  | _ => false
  end.

Definition is_present (c : SDL_Call) : bool :=
  match c with
  | SDL_RenderPresent => true
  | _ => false
  end.

(** A call that needs the renderer. *)
Definition is_render (c : SDL_Call) : bool :=
  match c with
  | IMG_LoadTextureTyped_IO _ | SDL_SetRenderDrawColor _ | SDL_RenderClear
  | SDL_RenderTextureRotated _ _ _ | SDL_RenderTexture _ _
  | SDL_RenderFillRect _ | SDL_RenderPresent => true
  | _ => false
  end.

(** The discipline of the window and the renderer: starting from the pair
    (window exists, renderer exists), a call that needs the window or the
    renderer is made only while it exists, the renderer is destroyed before
    the window, and nothing is created or destroyed twice.  The result is
    the pair after the calls, or [None] when a call breaks the
    discipline. *)
Fixpoint track (b : Startup) (alive : bool * bool) (cs : list SDL_Call)
  : option (bool * bool) :=
  match cs with
  | [] => Some alive
  | c :: rest =>
      let '(w, r) := alive in
      match c with
      | SDL_CreateWindow _ _ _ _ =>
          if w then None else track b (SDL_CreateWindow_ok b, r) rest
      | SDL_SetWindowMinimumSize _ _ | SDL_SetWindowHitTest =>
          if w then track b alive rest else None
      | SDL_CreateRenderer =>
          if w && negb r then track b (w, SDL_CreateRenderer_ok b) rest
          else None
      | SDL_DestroyRenderer =>
          if r then track b (w, false) rest else None
      | SDL_DestroyWindow =>
          if w && negb r then track b (false, r) rest else None
      | _ =>
          if is_render c then (if r then track b alive rest else None)
          else track b alive rest
      end
  end.

(** ** Tactics *)

(** A conjunction of integer comparisons [_ <=? _]. *)
Ltac leb_true :=
  repeat (apply andb_true_iff; split); apply Z.leb_le; lia.

(** A closed equation decided by evaluation. *)
Ltac run := vm_compute; reflexivity.

(** A conjunction of integer comparisons and of negated conjunctions of
    strict ones. *)
Ltac bool_leaves :=
  repeat (apply andb_true_iff; split);
  try reflexivity;
  try (apply Z.leb_le; lia);
  try (apply negb_true_iff; rewrite !andb_false_iff, !Z.ltb_ge; lia).

(** * Facts about binary32 arithmetic

    The Standard Library gives the operations but no lemmas about them.
    This part shows that [of_int], [add], [sub] and [mul] are exact on
    integers below [2^24], that products are rounded to valid numbers whose
    exponent is bounded, and what [floorf], [ceilf] and [to_int] return on
    such numbers. *)

Module F32Facts.
Import F32.

Lemma digits2_pos_size (p : positive) : digits2_pos p = Pos.size p.
Proof. induction p; simpl; congruence. Qed.

Lemma digits2_log2 (p : positive) :
  Zpos (digits2_pos p) = Z.log2 (Zpos p) + 1.
Proof.
  rewrite digits2_pos_size.
  destruct p; simpl; try reflexivity; rewrite Pos2Z.inj_succ; lia.
Qed.

Lemma pos_iter_xO (d m : positive) :
  Zpos (Pos.iter xO m d) = Zpos m * 2 ^ Zpos d.
Proof.
  induction d using Pos.peano_ind.
  - simpl. lia.
  - rewrite Pos.iter_succ, Pos2Z.inj_xO, IHd, Pos2Z.inj_succ, Z.pow_succ_r by lia.
    ring.
Qed.

Lemma shl_align_fst (m : positive) (e e' : Z) :
  e' <= e -> Zpos (fst (shl_align m e e')) = Zpos m * 2 ^ (e - e').
Proof.
  intros H. unfold shl_align.
  destruct (e' - e) as [|d|d] eqn:E; cbn [fst snd].
  - replace (e - e') with 0 by lia. rewrite Z.pow_0_r. lia.
  - pose proof (Pos2Z.is_pos d). lia.
  - rewrite pos_iter_xO. f_equal. f_equal. lia.
Qed.

Lemma shl_align_snd (m : positive) (e e' : Z) :
  e' <= e -> snd (shl_align m e e') = e'.
Proof.
  intros H. unfold shl_align.
  destruct (e' - e) as [|d|d] eqn:E; cbn [fst snd]; lia.
Qed.

Lemma shr_1_ok (r : shr_record) : 0 <= shr_m r -> shr_ok 1 r (shr_1 r).
Proof.
  destruct r as [m rb sb]; simpl. intros Hm. unfold shr_ok.
  change (2 ^ 1) with 2.
  destruct m as [|p|p]; [| |lia].
  - cbn. split; [lia|split; [reflexivity|]]. intros -> -> _. split; reflexivity.
  - destruct p as [p|p|]; cbn [shr_m shr_r shr_s].
    + split; [lia|split].
      * rewrite Pos2Z.inj_xI, Z.mul_comm, Z.div_add_l by lia. reflexivity.
      * intros _ _ H. exfalso.
        rewrite Pos2Z.inj_xI, Z.mul_comm, Z.add_comm, Z.mod_add in H by lia.
        discriminate.
    + split; [lia|split].
      * rewrite Pos2Z.inj_xO, Z.mul_comm, Z.div_mul by lia. reflexivity.
      * intros -> -> _. split; reflexivity.
    + split; [lia|split]; [reflexivity|]. intros _ _ H. discriminate.
Qed.

Lemma shr_ok_trans (a b : Z) (r r' r'' : shr_record) :
  0 <= a -> 0 <= b -> 0 <= shr_m r ->
  shr_ok a r r' -> shr_ok b r' r'' -> shr_ok (a + b) r r''.
Proof.
  intros Ha Hb Hm (P1 & E1 & X1) (P2 & E2 & X2).
  assert (Hpa : 0 < 2 ^ a) by (apply Z.pow_pos_nonneg; lia).
  assert (Hpb : 0 < 2 ^ b) by (apply Z.pow_pos_nonneg; lia).
  split; [assumption|split].
  - rewrite E2, E1, Z.pow_add_r, Z.div_div by lia. reflexivity.
  - intros Hr Hs Hmod.
    rewrite Z.pow_add_r in Hmod by lia.
    rewrite Z.rem_mul_r in Hmod by lia.
    assert (B1 := Z.mod_pos_bound (shr_m r) (2 ^ a) Hpa).
    assert (B2 := Z.mod_pos_bound (shr_m r / 2 ^ a) (2 ^ b) Hpb).
    assert (shr_m r mod 2 ^ a = 0) by nia.
    assert (shr_m r / 2 ^ a mod 2 ^ b = 0) by nia.
    destruct (X1 Hr Hs) as [R1 S1]; [assumption|].
    apply X2; congruence.
Qed.

Lemma iter_shr_1_ok (p : positive) :
  forall r, 0 <= shr_m r -> shr_ok (Zpos p) r (iter_pos shr_1 p r).
Proof.
  induction p as [p IH|p IH|]; intros r Hm; simpl iter_pos.
  - assert (S1 := shr_1_ok r Hm).
    assert (P1 : 0 <= shr_m (shr_1 r)) by apply S1.
    assert (S2 := IH _ P1).
    assert (P2 : 0 <= shr_m (iter_pos shr_1 p (shr_1 r))) by apply S2.
    assert (S3 := IH _ P2).
    replace (Z.pos p~1) with (1 + Z.pos p + Z.pos p) by lia.
    eapply shr_ok_trans; try lia; [|exact S3].
    eapply shr_ok_trans; try lia; eassumption.
  - assert (S2 := IH _ Hm).
    assert (P2 : 0 <= shr_m (iter_pos shr_1 p r)) by apply S2.
    assert (S3 := IH _ P2).
    replace (Z.pos p~0) with (Z.pos p + Z.pos p) by lia.
    eapply shr_ok_trans; try lia; eassumption.
  - apply shr_1_ok; assumption.
Qed.

Lemma fexp_small (d : Z) : -125 <= d -> fexp prec emax d = d - 24.
Proof. unfold fexp, emin, prec, emax. lia. Qed.

Lemma shr_fexp_exact (m : positive) (e n : Z) :
  0 < n < 2 ^ 24 -> e <= Z.log2 n - 23 -> Zpos m = n * 2 ^ (- e) ->
  shr_fexp prec emax (Zpos m) e loc_Exact
  = ({| shr_m := n * 2 ^ (23 - Z.log2 n); shr_r := false; shr_s := false |},
     Z.log2 n - 23).
Proof.
  intros Hn He Hm.
  assert (L0 : 0 <= Z.log2 n) by apply Z.log2_nonneg.
  assert (L1 : Z.log2 n < 24) by (apply Z.log2_lt_pow2; lia).
  unfold shr_fexp. cbn [Zdigits2]. rewrite digits2_log2, Hm.
  rewrite Z.log2_mul_pow2 by lia.
  rewrite fexp_small by lia.
  cbn [shr_record_of_loc]. unfold shr.
  destruct (- e + Z.log2 n + 1 + e - 24 - e) as [|k|k] eqn:K.
  - f_equal; [|lia]. f_equal. f_equal. f_equal. lia.
  - pose (r := {| shr_m := n * 2 ^ (- e); shr_r := false; shr_s := false |}).
    fold r.
    assert (P0 : 0 < 2 ^ (- e)) by (apply Z.pow_pos_nonneg; lia).
    destruct (iter_shr_1_ok k r) as (P & E & X); [unfold r; cbn [shr_m]; nia|].
    destruct X as [Xr Xs]; try reflexivity.
    { unfold r; cbn [shr_m]. replace (- e) with ((- e - Zpos k) + Zpos k) by lia.
      rewrite Z.pow_add_r, Z.mul_assoc by lia. apply Z.mod_mul.
      apply Z.pow_nonzero; lia. }
    f_equal; [|lia].
    destruct (iter_pos shr_1 k r) as [m' r' s']; cbn [shr_m shr_r shr_s] in *.
    subst r' s'. f_equal. rewrite E. unfold r; cbn [shr_m].
    replace (- e) with ((23 - Z.log2 n) + Zpos k) by lia.
    rewrite Z.pow_add_r, Z.mul_assoc by lia. apply Z.div_mul.
    apply Z.pow_nonzero; lia.
  - pose proof (Pos2Z.neg_is_neg k). lia.
Qed.

Lemma round_aux_exact (s : bool) (m : positive) (e n : Z) :
  0 < n < 2 ^ 24 -> e <= Z.log2 n - 23 -> Zpos m = n * 2 ^ (- e) ->
  binary_round_aux prec emax s (Zpos m) e loc_Exact = canon s n.
Proof.
  intros Hn He Hm.
  assert (L0 : 0 <= Z.log2 n) by apply Z.log2_nonneg.
  assert (L1 : Z.log2 n < 24) by (apply Z.log2_lt_pow2; lia).
  unfold binary_round_aux.
  rewrite (shr_fexp_exact m e n Hn He Hm).
  cbn [shr_m loc_of_shr_record round_nearest_even].
  assert (Hp : 0 < n * 2 ^ (23 - Z.log2 n)).
  { apply Z.mul_pos_pos; [lia|]. apply Z.pow_pos_nonneg; lia. }
  destruct (n * 2 ^ (23 - Z.log2 n)) as [|m'|m'] eqn:M; try lia.
  rewrite (shr_fexp_exact m' (Z.log2 n - 23) n Hn).
  - cbn [shr_m]. rewrite M.
    replace (Z.log2 n - 23 <=? emax - prec) with true
      by (symmetry; apply Z.leb_le; unfold emax, prec; lia).
    unfold canon. rewrite M. reflexivity.
  - lia.
  - rewrite <- M. f_equal. f_equal. lia.
Qed.

Lemma round_exact (s : bool) (m : positive) (e n : Z) :
  0 < n < 2 ^ 24 -> e <= 0 -> Zpos m = n * 2 ^ (- e) ->
  binary_round prec emax s m e = canon s n.
Proof.
  intros Hn He Hm.
  assert (L0 : 0 <= Z.log2 n) by apply Z.log2_nonneg.
  unfold binary_round.
  rewrite digits2_log2, Hm, Z.log2_mul_pow2 by lia.
  rewrite fexp_small by lia.
  destruct (Z_le_gt_dec e (- e + Z.log2 n + 1 + e - 24)) as [C|C].
  - unfold shl_align.
    destruct (- e + Z.log2 n + 1 + e - 24 - e) as [|k|k] eqn:K;
      try (pose proof (Pos2Z.neg_is_neg k); lia);
      apply round_aux_exact; assumption || lia.
  - pose proof (shl_align_fst m e (- e + Z.log2 n + 1 + e - 24) ltac:(lia)) as F.
    pose proof (shl_align_snd m e (- e + Z.log2 n + 1 + e - 24) ltac:(lia)) as S.
    destruct (shl_align m e (- e + Z.log2 n + 1 + e - 24)) as [mz ez].
    cbn [fst snd] in F, S. subst ez.
    apply round_aux_exact; try lia.
    rewrite F, Hm, <- Z.mul_assoc, <- Z.pow_add_r by lia.
    f_equal. f_equal. lia.
Qed.

Lemma of_int_pos (n : Z) : 0 < n < 2 ^ 24 -> of_int n = canon false n.
Proof.
  intros Hn. unfold of_int, binary_normalize.
  destruct n as [|p|p]; try lia.
  apply round_exact; simpl; lia.
Qed.

Lemma of_int_neg (n : Z) : 0 < n < 2 ^ 24 -> of_int (- n) = canon true n.
Proof.
  intros Hn. unfold of_int, binary_normalize.
  destruct n as [|p|p]; try lia. cbn [Z.opp].
  apply round_exact; simpl; lia.
Qed.

(** [binary_normalize] of an exact multiple *)
Lemma normalize_exact (z e n : Z) :
  Z.abs n < 2 ^ 24 -> e <= 0 -> z = n * 2 ^ (- e) ->
  binary_normalize prec emax z e false = of_int n.
Proof.
  intros Hn He Hz.
  assert (P : 0 < 2 ^ (- e)) by (apply Z.pow_pos_nonneg; lia).
  destruct (Z.lt_trichotomy n 0) as [N|[N|N]].
  - replace n with (- (- n)) by lia. rewrite of_int_neg by lia.
    destruct z as [|p|p]; try nia.
    cbn [binary_normalize]. apply round_exact; lia.
  - subst n. simpl in Hz. subst z. reflexivity.
  - rewrite of_int_pos by lia.
    destruct z as [|p|p]; try nia.
    cbn [binary_normalize]. apply round_exact; lia.
Qed.

Lemma canon_mantissa (n : Z) :
  0 < n < 2 ^ 24 ->
  Zpos (Z.to_pos (n * 2 ^ (23 - Z.log2 n))) = n * 2 ^ (- (Z.log2 n - 23))
  /\ Z.log2 n - 23 <= 0.
Proof.
  intros Hn.
  assert (L0 : 0 <= Z.log2 n) by apply Z.log2_nonneg.
  assert (L1 : Z.log2 n < 24) by (apply Z.log2_lt_pow2; lia).
  assert (P : 0 < 2 ^ (23 - Z.log2 n)) by (apply Z.pow_pos_nonneg; lia).
  split; [|lia].
  rewrite Z2Pos.id by nia. f_equal. f_equal. lia.
Qed.

Lemma of_int_canon (a : Z) :
  a <> 0 -> Z.abs a < 2 ^ 24 -> of_int a = canon (a <? 0) (Z.abs a).
Proof.
  intros Ha Hb. destruct (Z.ltb_spec a 0).
  - replace a with (- (Z.abs a)) at 1 by lia. apply of_int_neg. lia.
  - replace a with (Z.abs a) at 1 by lia. apply of_int_pos. lia.
Qed.

Lemma cond_Zopp_abs (a : Z) : cond_Zopp (a <? 0) (Z.abs a) = a.
Proof. unfold cond_Zopp. destruct (Z.ltb_spec a 0); lia. Qed.

Lemma cond_Zopp_mul (s : bool) (a b : Z) :
  cond_Zopp s (a * b) = cond_Zopp s a * b.
Proof. destruct s; simpl; ring. Qed.

Lemma aligned (a ez : Z) :
  a <> 0 -> Z.abs a < 2 ^ 24 -> ez <= Z.log2 (Z.abs a) - 23 ->
  cond_Zopp (a <? 0)
    (Zpos (fst (shl_align (Z.to_pos (Z.abs a * 2 ^ (23 - Z.log2 (Z.abs a))))
                          (Z.log2 (Z.abs a) - 23) ez)))
  = a * 2 ^ (- ez).
Proof.
  intros Ha Hb He.
  destruct (canon_mantissa (Z.abs a)) as [M E]; [lia|].
  rewrite shl_align_fst by lia. rewrite M.
  rewrite <- Z.mul_assoc, <- Z.pow_add_r by lia.
  rewrite cond_Zopp_mul, cond_Zopp_abs. f_equal. f_equal. lia.
Qed.

Lemma add_of_int (a b : Z) :
  Z.abs a < 2 ^ 24 -> Z.abs b < 2 ^ 24 -> Z.abs (a + b) < 2 ^ 24 ->
  add (of_int a) (of_int b) = of_int (a + b).
Proof.
  intros Ha Hb Hab.
  destruct (Z.eq_dec a 0) as [->|Na]; destruct (Z.eq_dec b 0) as [->|Nb].
  - reflexivity.
  - rewrite Z.add_0_l, (of_int_canon b) by assumption. reflexivity.
  - rewrite Z.add_0_r, (of_int_canon a) by assumption. reflexivity.
  - rewrite (of_int_canon a), (of_int_canon b) by assumption.
    unfold add, canon. cbn [SFadd].
    destruct (canon_mantissa (Z.abs a)) as [_ Ea]; [lia|].
    destruct (canon_mantissa (Z.abs b)) as [_ Eb]; [lia|].
    rewrite !aligned by lia.
    apply normalize_exact; lia.
Qed.

Lemma sub_of_int (a b : Z) :
  Z.abs a < 2 ^ 24 -> Z.abs b < 2 ^ 24 -> Z.abs (a - b) < 2 ^ 24 ->
  sub (of_int a) (of_int b) = of_int (a - b).
Proof.
  intros Ha Hb Hab.
  destruct (Z.eq_dec a 0) as [->|Na]; destruct (Z.eq_dec b 0) as [->|Nb].
  - reflexivity.
  - rewrite (of_int_canon b), (of_int_canon (0 - b)) by lia.
    unfold canon. cbn [of_int binary_normalize sub SFsub].
    replace (Z.abs (0 - b)) with (Z.abs b) by lia.
    f_equal. destruct (Z.ltb_spec b 0), (Z.ltb_spec (0 - b) 0); reflexivity || lia.
  - rewrite Z.sub_0_r, (of_int_canon a) by assumption. reflexivity.
  - rewrite (of_int_canon a), (of_int_canon b) by assumption.
    unfold sub, canon. cbn [SFsub].
    destruct (canon_mantissa (Z.abs a)) as [_ Ea]; [lia|].
    destruct (canon_mantissa (Z.abs b)) as [_ Eb]; [lia|].
    rewrite !aligned by lia.
    apply normalize_exact; lia.
Qed.

Lemma mul_of_int (a b : Z) :
  0 <= a < 2 ^ 24 -> 0 <= b < 2 ^ 24 -> a * b < 2 ^ 24 ->
  mul (of_int a) (of_int b) = of_int (a * b).
Proof.
  intros Ha Hb Hab.
  destruct (Z.eq_dec a 0) as [->|Na]; destruct (Z.eq_dec b 0) as [->|Nb].
  - reflexivity.
  - rewrite Z.mul_0_l, (of_int_canon b) by lia.
    replace (b <? 0) with false by (symmetry; apply Z.ltb_ge; lia). reflexivity.
  - rewrite Z.mul_0_r, (of_int_canon a) by lia.
    replace (a <? 0) with false by (symmetry; apply Z.ltb_ge; lia). reflexivity.
  - assert (0 < a * b) by nia.
    assert (a <= a * b) by nia.
    assert (b <= a * b) by nia.
    rewrite (of_int_pos a), (of_int_pos b), (of_int_pos (a * b)) by lia.
    unfold mul, canon. cbn [SFmul xorb].
    destruct (canon_mantissa a) as [Ma Ea]; [lia|].
    destruct (canon_mantissa b) as [Mb Eb]; [lia|].
    pose proof (Z.log2_mul_below a b ltac:(lia) ltac:(lia)).
    apply round_aux_exact; try lia.
    rewrite Pos2Z.inj_mul, Ma, Mb.
    replace (- (Z.log2 a - 23 + (Z.log2 b - 23)))
      with (- (Z.log2 a - 23) + - (Z.log2 b - 23)) by lia.
    rewrite Z.pow_add_r by lia. ring.
Qed.

Lemma opp_of_int (a : Z) :
  a <> 0 -> Z.abs a < 2 ^ 24 -> opp (of_int a) = of_int (- a).
Proof.
  intros Na Ha. rewrite (of_int_canon a), (of_int_canon (- a)) by lia.
  unfold canon, opp. cbn [SFopp]. rewrite Z.abs_opp. f_equal.
  destruct (Z.ltb_spec a 0), (Z.ltb_spec (- a) 0); reflexivity || lia.
Qed.

Lemma to_Z_of_int (a : Z) : Z.abs a < 2 ^ 24 -> to_Z (of_int a) = Some a.
Proof.
  intros Ha. destruct (Z.eq_dec a 0) as [->|Na]; [reflexivity|].
  rewrite of_int_canon by assumption. unfold canon, to_Z.
  destruct (canon_mantissa (Z.abs a)) as [M E]; [lia|].
  assert (P : 0 < 2 ^ (- (Z.log2 (Z.abs a) - 23)))
    by (apply Z.pow_pos_nonneg; lia).
  rewrite M.
  destruct (Z.leb_spec 0 (Z.log2 (Z.abs a) - 23)) as [C|C].
  - replace (Z.log2 (Z.abs a) - 23) with 0 by lia.
    simpl Z.opp. rewrite !Z.pow_0_r, !Z.mul_1_r, cond_Zopp_abs. reflexivity.
  - rewrite Z.mod_mul by lia. simpl Z.eqb. cbv iota.
    rewrite Z.div_mul by lia. rewrite cond_Zopp_abs. reflexivity.
Qed.

Lemma fexp_eq (d : Z) : fexp prec emax d = Z.max (d - 24) (-149).
Proof. reflexivity. Qed.

Lemma shr_m_of_loc (m : Z) (l : location) : shr_m (shr_record_of_loc m l) = m.
Proof. destruct l as [|[| |]]; reflexivity. Qed.

Lemma div_pow2_bounds (m d k : Z) :
  0 <= k -> k <= d -> 2 ^ d <= m < 2 ^ (d + 1) ->
  2 ^ (d - k) <= m / 2 ^ k < 2 ^ (d + 1 - k).
Proof.
  intros Hk Hd [Lo Hi].
  assert (P : 0 < 2 ^ k) by (apply Z.pow_pos_nonneg; lia).
  split.
  - apply Z.div_le_lower_bound; [lia|].
    rewrite <- Z.pow_add_r by lia. replace (k + (d - k)) with d by lia. lia.
  - apply Z.div_lt_upper_bound; [lia|].
    rewrite <- Z.pow_add_r by lia. replace (k + (d + 1 - k)) with (d + 1) by lia.
    lia.
Qed.

Lemma div_pow2_small (m d k : Z) :
  0 <= d -> d <= k -> 0 <= m < 2 ^ d -> m / 2 ^ k = 0.
Proof.
  intros Hd Hk Hm. apply Z.div_small. split; [lia|].
  assert (2 ^ d <= 2 ^ k) by (apply Z.pow_le_mono_r; lia). lia.
Qed.

(** First shift of [binary_round_aux]: the mantissa is brought below
    [2^24] at exponent [fexp (digits m + e)]. *)
Lemma shr_fexp_first (m : positive) (e : Z) (l : location) :
  let E' := fexp prec emax (Z.log2 (Zpos m) + 1 + e) in
  e <= E' ->
  exists r, shr_fexp prec emax (Zpos m) e l = (r, E')
            /\ 0 <= shr_m r < 2 ^ 24
            /\ (-149 < E' -> 2 ^ 23 <= shr_m r).
Proof.
  intros E' He.
  assert (L0 : 0 <= Z.log2 (Zpos m)) by apply Z.log2_nonneg.
  destruct (Z.log2_spec (Zpos m)) as [Lo Hi]; [lia|].
  rewrite <- Z.add_1_r in Hi.
  unfold shr_fexp. cbn [Zdigits2]. rewrite digits2_log2. fold E'.
  assert (HE : E' = Z.max (Z.log2 (Zpos m) + 1 + e - 24) (-149)) by reflexivity.
  unfold shr. destruct (E' - e) as [|k|k] eqn:K.
  - exists (shr_record_of_loc (Zpos m) l). rewrite shr_m_of_loc.
    split; [f_equal; lia|]. split.
    + split; [lia|].
      assert (2 ^ (Z.log2 (Zpos m) + 1) <= 2 ^ 24)
        by (apply Z.pow_le_mono_r; lia). lia.
    + intros C.
      assert (2 ^ 23 <= 2 ^ Z.log2 (Zpos m)) by (apply Z.pow_le_mono_r; lia).
      lia.
  - destruct (iter_shr_1_ok k (shr_record_of_loc (Zpos m) l)) as (P & E & _).
    { rewrite shr_m_of_loc. lia. }
    rewrite shr_m_of_loc in E.
    exists (iter_pos shr_1 k (shr_record_of_loc (Zpos m) l)).
    split; [f_equal; lia|]. rewrite E. split.
    + split; [rewrite <- E; assumption|].
      destruct (Z_le_gt_dec (Zpos k) (Z.log2 (Zpos m))) as [C|C].
      * destruct (div_pow2_bounds (Zpos m) (Z.log2 (Zpos m)) (Zpos k)) as [_ B];
          try lia.
        assert (2 ^ (Z.log2 (Zpos m) + 1 - Zpos k) <= 2 ^ 24)
          by (apply Z.pow_le_mono_r; lia). lia.
      * rewrite (div_pow2_small (Zpos m) (Z.log2 (Zpos m) + 1) (Zpos k)); lia.
    + intros C.
      destruct (div_pow2_bounds (Zpos m) (Z.log2 (Zpos m)) (Zpos k)) as [B _];
        try lia.
      replace (Z.log2 (Zpos m) - Zpos k) with 23 in B by lia. assumption.
  - pose proof (Pos2Z.neg_is_neg k). lia.
Qed.

Lemma round_nearest_even_bounds (m : Z) (l : location) :
  m <= round_nearest_even m l <= m + 1.
Proof.
  destruct l as [|[| |]]; simpl; try lia. destruct (Z.even m); lia.
Qed.

(** Second shift: a mantissa of at most [2^24] is renormalised. *)
Lemma shr_fexp_second (m2 E' : Z) :
  0 < m2 <= 2 ^ 24 -> -149 <= E' -> (-149 < E' -> 2 ^ 23 <= m2) ->
  exists m3 e3,
    shr_fexp prec emax m2 E' loc_Exact
    = ({| shr_m := Zpos m3; shr_r := false; shr_s := false |}, e3)
    /\ Zpos m3 < 2 ^ 24
    /\ E' <= e3 <= E' + 1
    /\ canonical_mantissa prec emax m3 e3 = true.
Proof.
  intros Hm HE Hn.
  destruct m2 as [|p|p]; try lia.
  assert (L0 : 0 <= Z.log2 (Zpos p)) by apply Z.log2_nonneg.
  destruct (Z.log2_spec (Zpos p)) as [Lo Hi]; [lia|].
  rewrite <- Z.add_1_r in Hi.
  unfold shr_fexp. cbn [Zdigits2 shr_record_of_loc]. rewrite digits2_log2.
  rewrite fexp_eq.
  destruct (Z.eq_dec (Zpos p) (2 ^ 24)) as [C|C].
  - (* the rounding carried into a 25th digit *)
    assert (p = 16777216%positive) by lia. subst p.
    exists 8388608%positive, (E' + 1).
    change (Z.log2 16777216) with 24.
    replace (Z.max (24 + 1 + E' - 24) (-149) - E') with 1 by lia.
    split; [reflexivity|]. split; [reflexivity|]. split; [lia|].
    unfold canonical_mantissa. apply Z.eqb_eq. rewrite fexp_eq.
    change (Zpos (digits2_pos 8388608)) with 24. lia.
  - assert (L1 : Z.log2 (Zpos p) < 24) by (apply Z.log2_lt_pow2; lia).
    exists p, E'.
    assert (L2 : -149 < E' -> 23 <= Z.log2 (Zpos p)).
    { intros X. apply Z.log2_le_pow2; [lia|]. apply Hn. assumption. }
    unfold shr.
    destruct (Z.max (Z.log2 (Zpos p) + 1 + E' - 24) (-149) - E') as [|k|k] eqn:K.
    + split; [reflexivity|]. split; [lia|]. split; [lia|].
      unfold canonical_mantissa. apply Z.eqb_eq. rewrite fexp_eq, digits2_log2.
      lia.
    + pose proof (Pos2Z.is_pos k). lia.
    + split; [reflexivity|]. split; [lia|]. split; [lia|].
      unfold canonical_mantissa. apply Z.eqb_eq. rewrite fexp_eq, digits2_log2.
      lia.
Qed.

Lemma round_aux_shape (s : bool) (m : positive) (e : Z) (l : location) :
  let E' := fexp prec emax (Z.log2 (Zpos m) + 1 + e) in
  e <= E' ->
  rounded_shape s E' (binary_round_aux prec emax s (Zpos m) e l).
Proof.
  intros E' He.
  destruct (shr_fexp_first m e l He) as (r & S1 & B1 & N1). fold E' in S1, N1.
  unfold binary_round_aux. rewrite S1.
  pose proof (round_nearest_even_bounds (shr_m r) (loc_of_shr_record r)) as RB.
  set (m2 := round_nearest_even (shr_m r) (loc_of_shr_record r)) in *.
  assert (HE : -149 <= E') by (unfold E'; rewrite fexp_eq; lia).
  destruct (Z.eq_dec m2 0) as [Z0|NZ].
  - rewrite Z0. unfold shr_fexp. cbn [Zdigits2 shr_record_of_loc].
    rewrite fexp_eq. unfold shr.
    destruct (Z.max (0 + E' - 24) (-149) - E') as [|k|k] eqn:K;
      try (pose proof (Pos2Z.is_pos k); lia); reflexivity.
  - destruct (shr_fexp_second m2 E') as (m3 & e3 & S2 & B3 & E3 & C3);
      try lia.
    rewrite S2. cbn [shr_m].
    destruct (Z.leb_spec e3 (emax - prec)) as [C|C]; unfold emax, prec in C.
    + cbn [rounded_shape]. split; [reflexivity|].
      split; [assumption|]. split; [assumption|].
      unfold bounded. rewrite C3. apply Z.leb_le. assumption.
    + cbn [rounded_shape]. lia.
Qed.

Lemma bounded_inv (m : positive) (e : Z) :
  bounded prec emax m e = true ->
  Zpos m < 2 ^ 24 /\ -149 <= e <= 104 /\ (-149 < e -> 2 ^ 23 <= Zpos m).
Proof.
  unfold bounded, canonical_mantissa. intros H.
  apply andb_true_iff in H. destruct H as [C B].
  apply Z.eqb_eq in C. apply Z.leb_le in B. unfold emax, prec in B.
  rewrite fexp_eq, digits2_log2 in C.
  destruct (Z.log2_spec (Zpos m)) as [Lo Hi]; [lia|].
  rewrite <- Z.add_1_r in Hi.
  assert (L0 : 0 <= Z.log2 (Zpos m)) by apply Z.log2_nonneg.
  split; [|split; [lia|]].
  - assert (2 ^ (Z.log2 (Zpos m) + 1) <= 2 ^ 24)
      by (apply Z.pow_le_mono_r; lia). lia.
  - intros X.
    assert (2 ^ 23 <= 2 ^ Z.log2 (Zpos m)) by (apply Z.pow_le_mono_r; lia).
    lia.
Qed.

Lemma floorf_pos_small (m : positive) (e B : Z) :
  e < 0 -> 0 <= B < 2 ^ 24 -> Zpos m <= B * 2 ^ (- e) ->
  floorf (S754_finite false m e) = of_int (Zfloor (S754_finite false m e))
  /\ 0 <= Zfloor (S754_finite false m e) <= B.
Proof.
  intros He HB Hm. unfold floorf, Zfloor.
  replace (0 <=? e) with false by (symmetry; apply Z.leb_gt; lia).
  rewrite Z.shiftr_div_pow2 by lia. cbn [cond_Zopp].
  assert (P : 0 < 2 ^ (- e)) by (apply Z.pow_pos_nonneg; lia).
  split; [reflexivity|]. split.
  - apply Z.div_pos; lia.
  - apply Z.div_le_upper_bound; lia.
Qed.

Lemma ceilf_pos_small (m : positive) (e B : Z) :
  e < 0 -> 0 <= B < 2 ^ 24 -> Zpos m <= B * 2 ^ (- e) ->
  ceilf (S754_finite false m e) = of_int (Zceil (S754_finite false m e))
  /\ 1 <= Zceil (S754_finite false m e) <= B.
Proof.
  intros He HB Hm. unfold ceilf, Zceil, opp. cbn [SFopp negb floorf Zfloor].
  replace (0 <=? e) with false by (symmetry; apply Z.leb_gt; lia).
  rewrite Z.shiftr_div_pow2 by lia. cbn [cond_Zopp].
  assert (P : 0 < 2 ^ (- e)) by (apply Z.pow_pos_nonneg; lia).
  assert (U : Z.neg m / 2 ^ (- e) <= -1).
  { assert (Z.neg m / 2 ^ (- e) < 0); [|lia].
    apply Z.div_lt_upper_bound; lia. }
  assert (L : - B <= Z.neg m / 2 ^ (- e)).
  { apply Z.div_le_lower_bound; lia. }
  split; [|lia].
  apply opp_of_int; lia.
Qed.

Lemma leb_finite_pos (m m' : positive) (e e' : Z) :
  leb (S754_finite false m e) (S754_finite false m' e') = true ->
  e < e' \/ (e = e' /\ Zpos m <= Zpos m').
Proof.
  unfold leb, SFleb, SFcompare.
  destruct (Z.compare_spec e e') as [C|C|C]; try discriminate.
  - fold (Pos.compare m m').
    destruct (Pos.compare_spec m m') as [X|X|X]; try discriminate;
      intros _; right; split; trivial; lia.
  - intros _. left. exact C.
Qed.

(** A valid positive scale of at most 4096. *)
Lemma scale_ok_inv (scale : float) :
  scale_ok scale ->
  exists m e, scale = S754_finite false m e
              /\ bounded prec emax m e = true
              /\ e <= -11 /\ Zpos m <= 2 ^ (- e + 12).
Proof.
  intros (V & P & U).
  destruct scale as [s|s| |s m e]; try discriminate.
  - destruct s; discriminate.
  - destruct s; [discriminate|].
    exists m, e. split; [reflexivity|]. split; [exact V|].
    destruct (bounded_inv m e V) as (Hm & He & Hn).
    replace (of_int 4096) with (S754_finite false 8388608 (-11)) in U
      by (vm_compute; reflexivity).
    destruct (leb_finite_pos _ _ _ _ U) as [C|[-> C]].
    + split; [lia|].
      assert (2 ^ 24 <= 2 ^ (- e + 12)) by (apply Z.pow_le_mono_r; lia). lia.
    + split; [lia|]. change (2 ^ (- -11 + 12)) with 8388608. exact C.
Qed.

(** Product of a small non-zero integer with a valid positive number. *)
Lemma mul_of_int_shape (c : Z) (m : positive) (e : Z) :
  c <> 0 -> Z.abs c < 2 ^ 24 -> bounded prec emax m e = true ->
  exists E',
    rounded_shape (c <? 0) E' (mul (of_int c) (S754_finite false m e))
    /\ E' <= Z.max (Z.log2 (Z.abs c) + 1 + e) (-149).
Proof.
  intros Nc Hc Hb.
  destruct (bounded_inv m e Hb) as (Hm & He & Hn).
  set (a := Z.abs c) in *.
  assert (Ha : 0 < a < 2 ^ 24) by (unfold a; lia).
  destruct (canon_mantissa a Ha) as [Mc Ec].
  assert (L0 : 0 <= Z.log2 a) by apply Z.log2_nonneg.
  assert (L1 : Z.log2 a < 24) by (apply Z.log2_lt_pow2; lia).
  assert (Lc : Z.log2 (Zpos (Z.to_pos (a * 2 ^ (23 - Z.log2 a)))) = 23).
  { rewrite Mc. rewrite Z.log2_mul_pow2 by lia. lia. }
  assert (Lm0 : 0 <= Z.log2 (Zpos m)) by apply Z.log2_nonneg.
  assert (Lm1 : Z.log2 (Zpos m) < 24) by (apply Z.log2_lt_pow2; lia).
  pose proof (Z.log2_mul_below (Zpos (Z.to_pos (a * 2 ^ (23 - Z.log2 a))))
                (Zpos m) ltac:(lia) ltac:(lia)) as Lb.
  pose proof (Z.log2_mul_above (Zpos (Z.to_pos (a * 2 ^ (23 - Z.log2 a))))
                (Zpos m) ltac:(lia) ltac:(lia)) as La.
  rewrite <- Pos2Z.inj_mul in Lb, La. rewrite Lc in Lb, La.
  rewrite of_int_canon by assumption. fold a. unfold canon, mul.
  cbn [SFmul]. rewrite xorb_false_r.
  eexists. split.
  - apply round_aux_shape. rewrite fexp_eq. lia.
  - rewrite fexp_eq. lia.
Qed.

Lemma to_int_of_int (n : Z) : Z.abs n < 2 ^ 24 -> to_int (of_int n) = Some n.
Proof.
  intros Hn. destruct (Z.eq_dec n 0) as [->|Nn]; [reflexivity|].
  rewrite of_int_canon by assumption. unfold canon, to_int, trunc.
  destruct (canon_mantissa (Z.abs n)) as [M E]; [lia|].
  rewrite M, <- Z.shiftr_opp_r, Z.shiftr_div_pow2 by lia.
  rewrite Z.div_mul by (apply Z.pow_nonzero; lia).
  rewrite cond_Zopp_abs.
  replace ((INT_MIN <=? n) && (n <=? INT_MAX)) with true; [reflexivity|].
  symmetry. apply andb_true_iff. unfold INT_MIN, INT_MAX.
  split; apply Z.leb_le; lia.
Qed.

Lemma to_int_small_exp (s : bool) (m : positive) (e : Z) :
  Zpos m < 2 ^ 24 -> e <= 7 ->
  exists z, to_int (S754_finite s m e) = Some z.
Proof.
  intros Hm He. unfold to_int, trunc.
  assert (B : 0 <= Z.shiftl (Zpos m) e < 2 ^ 31).
  { destruct (Z_le_gt_dec 0 e) as [C|C].
    - rewrite Z.shiftl_mul_pow2 by lia.
      assert (0 < 2 ^ e <= 2 ^ 7)
        by (split; [apply Z.pow_pos_nonneg|apply Z.pow_le_mono_r]; lia).
      nia.
    - rewrite <- Z.shiftr_opp_r, Z.shiftr_div_pow2 by lia.
      assert (P : 0 < 2 ^ (- e)) by (apply Z.pow_pos_nonneg; lia).
      split; [apply Z.div_pos; lia|].
      apply Z.div_lt_upper_bound; [lia|]. nia. }
  eexists.
  replace ((INT_MIN <=? cond_Zopp s (Z.shiftl (Zpos m) e))
           && (cond_Zopp s (Z.shiftl (Zpos m) e) <=? INT_MAX)) with true;
    [reflexivity|].
  symmetry. apply andb_true_iff. unfold INT_MIN, INT_MAX.
  split; apply Z.leb_le; destruct s; cbn [cond_Zopp]; lia.
Qed.

Lemma floorf_scale (scale : float) :
  scale_ok scale ->
  floorf scale = of_int (Zfloor scale) /\ 0 <= Zfloor scale <= 4096.
Proof.
  intros H. destruct (scale_ok_inv scale H) as (m & e & -> & Hb & He & Hm).
  apply floorf_pos_small; try lia.
  replace (- e + 12) with (12 + - e) in Hm by lia.
  rewrite Z.pow_add_r in Hm by lia. exact Hm.
Qed.

(** [ceilf (c * scale)] for a small positive integer constant [c]. *)
Lemma ceilf_mul_scale (c k : Z) (scale : float) :
  0 <= k <= 9 -> 0 < c < 2 ^ k -> scale_ok scale ->
  ceilf (mul (of_int c) scale) = of_int (Zceil (mul (of_int c) scale))
  /\ 0 <= Zceil (mul (of_int c) scale) <= 2 ^ (14 + k).
Proof.
  intros Hk Hc H.
  destruct (scale_ok_inv scale H) as (m & e & -> & Hb & He & Hm).
  assert (2 ^ k <= 2 ^ 9) by (apply Z.pow_le_mono_r; lia).
  assert (Lc : Z.log2 c < k) by (apply Z.log2_lt_pow2; lia).
  destruct (mul_of_int_shape c m e ltac:(lia) ltac:(lia) Hb) as (E' & Sh & HE).
  rewrite Z.abs_eq in HE by lia.
  replace (c <? 0) with false in Sh by (symmetry; apply Z.ltb_ge; lia).
  assert (P : 0 < 2 ^ (14 + k)) by (apply Z.pow_pos_nonneg; lia).
  destruct (mul (of_int c) (S754_finite false m e)) as [s|s| |s m3 e3];
    cbn [rounded_shape] in Sh.
  - subst s. split; [reflexivity|]. cbn. lia.
  - lia.
  - contradiction.
  - destruct Sh as (-> & Hm3 & He3 & _).
    destruct (ceilf_pos_small m3 e3 (2 ^ (14 + k))) as [C B]; try lia.
    + split; [lia|]. apply Z.pow_lt_mono_r; lia.
    + rewrite <- Z.pow_add_r by lia.
      assert (2 ^ 24 <= 2 ^ (14 + k + - e3)) by (apply Z.pow_le_mono_r; lia).
      lia.
    + split; [exact C|lia].
Qed.

(** The product [n * scale] of a cursor coordinate converts to [int]. *)
Lemma to_int_mul_scale (n : Z) (scale : float) :
  Z.abs n < 2 ^ 17 -> scale_ok scale ->
  exists z, to_int (mul (of_int n) scale) = Some z.
Proof.
  intros Hn H.
  destruct (scale_ok_inv scale H) as (m & e & -> & Hb & He & Hm).
  destruct (Z.eq_dec n 0) as [->|Nn]; [exists 0; reflexivity|].
  assert (Ln : Z.log2 (Z.abs n) < 17) by (apply Z.log2_lt_pow2; lia).
  destruct (mul_of_int_shape n m e ltac:(lia) ltac:(lia) Hb) as (E' & Sh & HE).
  destruct (mul (of_int n) (S754_finite false m e)) as [s|s| |s m3 e3];
    cbn [rounded_shape] in Sh.
  - exists 0. reflexivity.
  - lia.
  - contradiction.
  - destruct Sh as (_ & Hm3 & He3 & _).
    apply to_int_small_exp; lia.
Qed.

Lemma mul_compare_pos (a b p : Z) : 0 < p -> (a * p ?= b * p) = (a ?= b).
Proof.
  intros Hp. destruct (Z.compare_spec a b) as [C|C|C].
  - subst. apply Z.compare_refl.
  - apply Z.compare_lt_iff. nia.
  - apply Z.compare_gt_iff. nia.
Qed.

Lemma compare_canon_pos (a b : Z) :
  0 < a < 2 ^ 24 -> 0 < b < 2 ^ 24 ->
  SFcompare (canon false a) (canon false b) = Some (a ?= b)
  /\ SFcompare (canon true a) (canon true b) = Some (b ?= a).
Proof.
  intros Ha Hb.
  destruct (canon_mantissa a Ha) as [Ma Ea].
  destruct (canon_mantissa b Hb) as [Mb Eb].
  unfold canon. cbn [SFcompare].
  set (ma := Z.to_pos (a * 2 ^ (23 - Z.log2 a))) in *.
  set (mb := Z.to_pos (b * 2 ^ (23 - Z.log2 b))) in *.
  change (Pos.compare_cont Eq ma mb) with (Pos.compare ma mb).
  change (Pos.compare ma mb) with (Z.compare (Zpos ma) (Zpos mb)).
  rewrite Ma, Mb.
  destruct (Z.compare_spec (Z.log2 a - 23) (Z.log2 b - 23)) as [C|C|C].
  - replace (Z.log2 b) with (Z.log2 a) by lia.
    rewrite mul_compare_pos by (apply Z.pow_pos_nonneg; lia).
    split; [reflexivity|]. rewrite (Z.compare_antisym a b). reflexivity.
  - assert (a < b) by (apply Z.log2_lt_cancel; lia).
    split; f_equal; symmetry; [apply Z.compare_lt_iff|apply Z.compare_gt_iff];
      lia.
  - assert (b < a) by (apply Z.log2_lt_cancel; lia).
    split; f_equal; symmetry; [apply Z.compare_gt_iff|apply Z.compare_lt_iff];
      lia.
Qed.

Lemma compare_of_int (a b : Z) :
  Z.abs a < 2 ^ 24 -> Z.abs b < 2 ^ 24 ->
  SFcompare (of_int a) (of_int b) = Some (a ?= b).
Proof.
  intros Ha Hb.
  destruct (Z.lt_trichotomy a 0) as [Sa|[->|Sa]];
    destruct (Z.lt_trichotomy b 0) as [Sb|[->|Sb]];
    rewrite ?(of_int_canon a), ?(of_int_canon b) by lia;
    repeat match goal with
           | |- context [?x <? 0] =>
               first [replace (x <? 0) with true
                        by (symmetry; apply Z.ltb_lt; lia)
                     |replace (x <? 0) with false
                        by (symmetry; apply Z.ltb_ge; lia)]
           end.
  - rewrite (proj2 (compare_canon_pos (Z.abs a) (Z.abs b)
                      ltac:(lia) ltac:(lia))).
    f_equal. rewrite !Z.abs_neq by lia. apply Z.compare_opp.
  - change (of_int 0) with (S754_zero false). unfold canon.
    cbn [SFcompare]. f_equal. symmetry. apply Z.compare_lt_iff. lia.
  - change (of_int 0) with (S754_zero false). unfold canon.
    cbn [SFcompare]. f_equal. symmetry. apply Z.compare_lt_iff. lia.
  - change (of_int 0) with (S754_zero false). unfold canon.
    cbn [SFcompare]. f_equal. symmetry. apply Z.compare_gt_iff. lia.
  - reflexivity.
  - change (of_int 0) with (S754_zero false). unfold canon.
    cbn [SFcompare]. f_equal. symmetry. apply Z.compare_lt_iff. lia.
  - change (of_int 0) with (S754_zero false). unfold canon.
    cbn [SFcompare]. f_equal. symmetry. apply Z.compare_gt_iff. lia.
  - change (of_int 0) with (S754_zero false). unfold canon.
    cbn [SFcompare]. f_equal. symmetry. apply Z.compare_gt_iff. lia.
  - rewrite (proj1 (compare_canon_pos (Z.abs a) (Z.abs b)
                      ltac:(lia) ltac:(lia))).
    rewrite !Z.abs_eq by lia. reflexivity.
Qed.

Lemma leb_of_int (a b : Z) :
  Z.abs a < 2 ^ 24 -> Z.abs b < 2 ^ 24 ->
  leb (of_int a) (of_int b) = (a <=? b).
Proof.
  intros Ha Hb. unfold leb, SFleb. rewrite compare_of_int by assumption.
  unfold Z.leb. destruct (a ?= b); reflexivity.
Qed.

Lemma ltb_of_int (a b : Z) :
  Z.abs a < 2 ^ 24 -> Z.abs b < 2 ^ 24 ->
  ltb (of_int a) (of_int b) = (a <? b).
Proof.
  intros Ha Hb. unfold ltb, SFltb. rewrite compare_of_int by assumption.
  unfold Z.ltb. destruct (a ?= b); reflexivity.
Qed.

(** The band test on integers below [2^23]. *)
Lemma within_of_int (v edge tol : Z) :
  Z.abs v < 2 ^ 23 -> Z.abs edge < 2 ^ 23 -> Z.abs tol < 2 ^ 23 ->
  within (of_int v) (of_int edge) (of_int tol)
  = (edge - tol <=? v) && (v <=? edge + tol).
Proof.
  intros Hv He Ht.
  assert (2 ^ 24 = 2 * 2 ^ 23) by reflexivity.
  unfold within, geb.
  rewrite sub_of_int, add_of_int by lia.
  rewrite !leb_of_int by lia. reflexivity.
Qed.

(** [ceilf] of a zero or of a valid finite number is the integer ceiling. *)
Lemma ceilf_exact (x : float) :
  valid x = true ->
  match x with
  | S754_zero _ | S754_finite _ _ _ => to_Z (ceilf x) = Some (Zceil x)
  | _ => ceilf x = x
  end.
Proof.
  intros V. destruct x as [s|s| |s m e]; try reflexivity.
  - destruct s; reflexivity.
  - destruct (bounded_inv m e V) as (Hm & He & Hn).
    unfold ceilf, Zceil, opp. cbn [SFopp floorf Zfloor].
    assert (N : forall k, cond_Zopp (negb s) k = - cond_Zopp s k)
      by (destruct s; intros; cbn; lia).
    destruct (Z.leb_spec 0 e) as [C|C].
    + cbn [SFopp to_Z]. rewrite negb_involutive.
      replace (0 <=? e) with true by (symmetry; apply Z.leb_le; lia).
      f_equal. rewrite N. destruct s; cbn [cond_Zopp]; lia.
    + rewrite Z.shiftr_div_pow2 by lia.
      assert (P : 0 < 2 ^ (- e)) by (apply Z.pow_pos_nonneg; lia).
      assert (P1 : 2 <= 2 ^ (- e)).
      { change 2 with (2 ^ 1) at 1. apply Z.pow_le_mono_r; lia. }
      set (q := cond_Zopp (negb s) (Zpos m) / 2 ^ (- e)).
      assert (B : - 2 ^ 23 <= q <= 2 ^ 23).
      { unfold q. split.
        - apply Z.div_le_lower_bound; [lia|].
          destruct s; cbn [cond_Zopp negb]; nia.
        - apply Z.div_le_upper_bound; [lia|].
          destruct s; cbn [cond_Zopp negb]; nia. }
      destruct (Z.eq_dec q 0) as [->|Nq]; [reflexivity|].
      fold (opp (of_int q)). rewrite opp_of_int by lia.
      apply to_Z_of_int. lia.
Qed.

(** The product of 30, or any small positive integer, with a positive
    valid number is a valid number. *)
Lemma valid_mul_of_int (c : Z) (x : float) :
  0 < c < 2 ^ 24 -> valid x = true -> ltb zero x = true ->
  valid (mul (of_int c) x) = true.
Proof.
  intros Hc V P.
  destruct x as [s|s| |s m e].
  - destruct s; discriminate.
  - rewrite of_int_pos by assumption. reflexivity.
  - discriminate.
  - destruct s; [discriminate|].
    destruct (mul_of_int_shape c m e ltac:(lia) ltac:(lia) V) as (E' & Sh & _).
    destruct (mul (of_int c) (S754_finite false m e)) as [s|s| |s m3 e3];
      cbn [rounded_shape] in Sh; try reflexivity; try contradiction.
    apply Sh.
Qed.

(** ** Comparison with integers, truncation and powers of two *)

Lemma pow2_split (a b k : Z) :
  k <= a -> a < b -> 2 ^ (b - k) = 2 ^ (b - a) * 2 ^ (a - k) /\ 2 <= 2 ^ (b - a)
  /\ 0 < 2 ^ (a - k).
Proof.
  intros Hk Hab. split; [|split].
  - rewrite <- Z.pow_add_r by lia. f_equal. lia.
  - change 2 with (2 ^ 1) at 1. apply Z.pow_le_mono_r; lia.
  - apply Z.pow_pos_nonneg; lia.
Qed.

Lemma compare_pos_finite (m1 m2 : positive) (e1 e2 k : Z) :
  bounded prec emax m1 e1 = true -> bounded prec emax m2 e2 = true ->
  k <= e1 -> k <= e2 ->
  match Z.compare e1 e2 with
  | Eq => Pos.compare_cont Eq m1 m2
  | Lt => Lt
  | Gt => Gt
  end = (Zpos m1 * 2 ^ (e1 - k) ?= Zpos m2 * 2 ^ (e2 - k)).
Proof.
  intros B1 B2 K1 K2.
  destruct (bounded_inv m1 e1 B1) as (M1 & E1 & N1).
  destruct (bounded_inv m2 e2 B2) as (M2 & E2 & N2).
  destruct (Z.compare_spec e1 e2) as [C|C|C].
  - subst e2. change (Pos.compare_cont Eq m1 m2) with (Zpos m1 ?= Zpos m2).
    symmetry. apply mul_compare_pos. apply Z.pow_pos_nonneg; lia.
  - destruct (pow2_split e1 e2 k K1 C) as (S & T & P).
    symmetry. apply Z.compare_lt_iff. rewrite S.
    specialize (N2 ltac:(lia)). nia.
  - destruct (pow2_split e2 e1 k K2 C) as (S & T & P).
    symmetry. apply Z.compare_gt_iff. rewrite S.
    specialize (N1 ltac:(lia)). nia.
Qed.

(** [SFcompare] orders valid finite numbers by their exact values, here
    both multiplied by [2^(-k)]. *)
Lemma compare_finite (s1 s2 : bool) (m1 m2 : positive) (e1 e2 k : Z) :
  bounded prec emax m1 e1 = true -> bounded prec emax m2 e2 = true ->
  k <= e1 -> k <= e2 ->
  SFcompare (S754_finite s1 m1 e1) (S754_finite s2 m2 e2)
  = Some (cond_Zopp s1 (Zpos m1) * 2 ^ (e1 - k)
          ?= cond_Zopp s2 (Zpos m2) * 2 ^ (e2 - k)).
Proof.
  intros B1 B2 K1 K2.
  assert (P1 : 0 < 2 ^ (e1 - k)) by (apply Z.pow_pos_nonneg; lia).
  assert (P2 : 0 < 2 ^ (e2 - k)) by (apply Z.pow_pos_nonneg; lia).
  cbn [SFcompare]. f_equal.
  destruct s1, s2; cbn [cond_Zopp].
  - pose proof (compare_pos_finite m1 m2 e1 e2 k B1 B2 K1 K2) as H.
    change (Z.neg m1) with (- Zpos m1). change (Z.neg m2) with (- Zpos m2).
    rewrite !Z.mul_opp_l, Z.compare_opp.
    rewrite (Z.compare_antisym (Zpos m1 * 2 ^ (e1 - k))), <- H.
    destruct (e1 ?= e2); reflexivity.
  - symmetry. apply Z.compare_lt_iff.
    pose proof (Pos2Z.neg_is_neg m1). pose proof (Pos2Z.is_pos m2). nia.
  - symmetry. apply Z.compare_gt_iff.
    pose proof (Pos2Z.neg_is_neg m2). pose proof (Pos2Z.is_pos m1). nia.
  - apply compare_pos_finite; assumption.
Qed.

Lemma den_pos (x : float) : 0 < den x.
Proof. destruct x; cbn [den]; try lia; apply Z.pow_pos_nonneg; lia. Qed.

Lemma Zfloor_num_den (x : float) : Zfloor x = num x / den x.
Proof.
  destruct x as [s|s| |s m e]; try reflexivity. unfold Zfloor, num, den.
  destruct (Z.leb_spec 0 e).
  - rewrite Z.max_l, Z.max_r by lia. rewrite Z.pow_0_r, Z.div_1_r. reflexivity.
  - rewrite Z.max_r, Z.max_l by lia. rewrite Z.pow_0_r, Z.mul_1_r. reflexivity.
Qed.

Lemma Zceil_num_den (x : float) : Zceil x = - ((- num x) / den x).
Proof.
  unfold Zceil. rewrite Zfloor_num_den. f_equal.
  destruct x as [s|s| |s m e]; try reflexivity. unfold opp, num, den.
  cbn [SFopp]. f_equal. destruct s; cbn [negb cond_Zopp]; lia.
Qed.

Lemma canon_bounded (s : bool) (n : Z) :
  0 < n < 2 ^ 24 ->
  bounded prec emax (Z.to_pos (n * 2 ^ (23 - Z.log2 n))) (Z.log2 n - 23) = true.
Proof.
  intros Hn. destruct (canon_mantissa n Hn) as [M E].
  assert (L0 : 0 <= Z.log2 n) by apply Z.log2_nonneg.
  unfold bounded, canonical_mantissa. apply andb_true_iff. split.
  - apply Z.eqb_eq. rewrite fexp_eq, digits2_log2, M.
    rewrite Z.log2_mul_pow2 by lia. lia.
  - apply Z.leb_le. unfold emax, prec. lia.
Qed.

(** Comparison of an integer with a valid finite number. *)
Lemma compare_int_float (n : Z) (p : float) :
  Z.abs n < 2 ^ 24 -> valid p = true -> is_finite p = true ->
  SFcompare (of_int n) p = Some (n * den p ?= num p).
Proof.
  intros Hn V F.
  destruct p as [s|s| |s m e]; try discriminate.
  - (* p is a zero *)
    cbn [num den]. rewrite Z.mul_1_r.
    destruct (Z.eq_dec n 0) as [->|Nn]; [reflexivity|].
    rewrite of_int_canon by assumption. unfold canon. cbn [SFcompare].
    f_equal. destruct (Z.ltb_spec n 0); symmetry;
      [apply Z.compare_lt_iff|apply Z.compare_gt_iff]; lia.
  - destruct (bounded_inv m e V) as (Hm & He & _).
    assert (Pm : 0 < 2 ^ Z.max e 0) by (apply Z.pow_pos_nonneg; lia).
    assert (Pd : 0 < 2 ^ Z.max (- e) 0) by (apply Z.pow_pos_nonneg; lia).
    destruct (Z.eq_dec n 0) as [->|Nn].
    + change (of_int 0) with (S754_zero false). cbn [SFcompare num den].
      f_equal. rewrite Z.mul_0_l.
      destruct s; cbn [cond_Zopp]; symmetry;
        [apply Z.compare_gt_iff|apply Z.compare_lt_iff]; nia.
    + rewrite of_int_canon by assumption. unfold canon.
      destruct (canon_mantissa (Z.abs n) ltac:(lia)) as [M E].
      set (en := Z.log2 (Z.abs n) - 23) in *.
      rewrite (compare_finite _ _ _ _ _ _ (Z.min en e)
                 (canon_bounded false (Z.abs n) ltac:(lia)) V
                 ltac:(lia) ltac:(lia)).
      f_equal. rewrite M. cbn [num den].
      rewrite cond_Zopp_mul, cond_Zopp_abs.
      set (c := cond_Zopp s (Z.pos m)).
      assert (L : Z.log2 (Z.abs n) - 23 = en) by reflexivity.
      rewrite ?L. clearbody en.
      destruct (Z.leb_spec 0 e) as [C|C].
      * rewrite (Z.max_l e 0), (Z.max_r (- e) 0) by lia.
        rewrite Z.pow_0_r, Z.mul_1_r.
        replace (Z.min en e) with en by lia.
        rewrite Z.sub_diag, Z.pow_0_r, Z.mul_1_r.
        replace (e - en) with (e + - en) by lia.
        rewrite Z.pow_add_r, Z.mul_assoc by lia.
        apply mul_compare_pos. apply Z.pow_pos_nonneg; lia.
      * rewrite (Z.max_r e 0), (Z.max_l (- e) 0) by lia.
        rewrite Z.pow_0_r, Z.mul_1_r.
        rewrite <- Z.mul_assoc, <- Z.pow_add_r by lia.
        replace (- en + (en - Z.min en e)) with (- e + (e - Z.min en e)) by lia.
        rewrite Z.pow_add_r, Z.mul_assoc by lia.
        apply mul_compare_pos. apply Z.pow_pos_nonneg; lia.
Qed.

Lemma compare_float_int (n : Z) (p : float) :
  Z.abs n < 2 ^ 24 -> valid p = true -> is_finite p = true ->
  SFcompare p (of_int n) = Some (num p ?= n * den p).
Proof.
  intros Hn V F.
  pose proof (compare_int_float n p Hn V F) as H.
  assert (A : forall x y c, SFcompare x y = Some c ->
                            SFcompare y x = Some (CompOpp c)).
  { clear. intros x y c.
    destruct x as [s1|s1| |s1 m1 e1], y as [s2|s2| |s2 m2 e2];
      cbn [SFcompare]; try discriminate;
      try (destruct s1, s2; intros [= <-]; reflexivity);
      try (destruct s1; intros [= <-]; reflexivity);
      try (destruct s2; intros [= <-]; reflexivity).
    destruct s1, s2; intros [= <-]; try reflexivity.
    - rewrite (Z.compare_antisym e1 e2).
      destruct (e1 ?= e2); cbn [CompOpp]; try reflexivity.
      change (Pos.compare_cont Eq m1 m2) with (Pos.compare m1 m2).
      change (Pos.compare_cont Eq m2 m1) with (Pos.compare m2 m1).
      rewrite (Pos.compare_antisym m1 m2). reflexivity.
    - rewrite (Z.compare_antisym e1 e2).
      destruct (e1 ?= e2); cbn [CompOpp]; try reflexivity.
      change (Pos.compare_cont Eq m1 m2) with (Pos.compare m1 m2).
      change (Pos.compare_cont Eq m2 m1) with (Pos.compare m2 m1).
      rewrite (Pos.compare_antisym m1 m2). reflexivity. }
  rewrite (A _ _ _ H). f_equal. symmetry. apply Z.compare_antisym.
Qed.

Lemma leb_int_float (n : Z) (p : float) :
  Z.abs n < 2 ^ 24 -> valid p = true -> is_finite p = true ->
  leb (of_int n) p = (n <=? Zfloor p)
  /\ leb p (of_int n) = (Zceil p <=? n)
  /\ ltb (of_int n) p = (n <? Zceil p)
  /\ ltb p (of_int n) = (Zfloor p <? n).
Proof.
  intros Hn V F.
  pose proof (den_pos p) as D.
  unfold leb, ltb, SFleb, SFltb.
  rewrite (compare_int_float n p Hn V F), (compare_float_int n p Hn V F).
  rewrite Zfloor_num_den, Zceil_num_den.
  pose proof (Z.div_mod (num p) (den p) ltac:(lia)) as E1.
  pose proof (Z.mod_pos_bound (num p) (den p) D) as B1.
  pose proof (Z.div_mod (- num p) (den p) ltac:(lia)) as E2.
  pose proof (Z.mod_pos_bound (- num p) (den p) D) as B2.
  repeat split.
  - destruct (Z.compare_spec (n * den p) (num p));
      symmetry; [apply Z.leb_le|apply Z.leb_le|apply Z.leb_gt]; nia.
  - destruct (Z.compare_spec (num p) (n * den p));
      symmetry; [apply Z.leb_le|apply Z.leb_le|apply Z.leb_gt]; nia.
  - destruct (Z.compare_spec (n * den p) (num p));
      symmetry; [apply Z.ltb_ge|apply Z.ltb_lt|apply Z.ltb_ge]; nia.
  - destruct (Z.compare_spec (num p) (n * den p));
      symmetry; [apply Z.ltb_ge|apply Z.ltb_lt|apply Z.ltb_ge]; nia.
Qed.

(** The product of an integer below [2^24] and a scale is a valid finite
    number. *)
Lemma mul_scale_finite (n : Z) (scale : float) :
  Z.abs n < 2 ^ 24 -> scale_ok scale ->
  valid (mul (of_int n) scale) = true
  /\ is_finite (mul (of_int n) scale) = true.
Proof.
  intros Hn H.
  destruct (scale_ok_inv scale H) as (m & e & -> & Hb & He & Hm).
  destruct (Z.eq_dec n 0) as [->|Nn]; [split; reflexivity|].
  assert (Ln : Z.log2 (Z.abs n) < 24) by (apply Z.log2_lt_pow2; lia).
  destruct (mul_of_int_shape n m e Nn Hn Hb) as (E' & Sh & HE).
  destruct (mul (of_int n) (S754_finite false m e)) as [s|s| |s m3 e3];
    cbn [rounded_shape] in Sh.
  - split; reflexivity.
  - lia.
  - contradiction.
  - destruct Sh as (_ & _ & _ & B). split; [exact B|reflexivity].
Qed.

(** Truncation lies between floor and ceiling, which differ by at most 1. *)
Lemma to_int_floor_ceil (p : float) (z : Z) :
  to_int p = Some z ->
  Zfloor p <= z <= Zceil p /\ Zceil p <= Zfloor p + 1
  /\ (0 < z -> z = Zfloor p) /\ (z < 0 -> z = Zceil p).
Proof.
  unfold to_int.
  destruct (trunc p) as [t|] eqn:T; [|discriminate].
  destruct ((INT_MIN <=? t) && (t <=? INT_MAX)); [|discriminate].
  intros [= <-].
  destruct p as [s|s| |s m e]; try discriminate.
  - injection T as <-. cbn. lia.
  - cbn [trunc] in T. injection T as <-.
    unfold Zceil, opp, Zfloor. cbn [SFopp].
    assert (N : cond_Zopp (negb s) (Zpos m) = - cond_Zopp s (Zpos m))
      by (destruct s; reflexivity).
    rewrite N.
    destruct (Z.leb_spec 0 e) as [C|C].
    + rewrite Z.shiftl_mul_pow2 by lia.
      rewrite cond_Zopp_mul. lia.
    + rewrite Z.shiftl_div_pow2 by lia.
      assert (P : 0 < 2 ^ (- e)) by (apply Z.pow_pos_nonneg; lia).
      pose proof (Z.div_mod (Zpos m) (2 ^ (- e)) ltac:(lia)) as D1.
      pose proof (Z.mod_pos_bound (Zpos m) (2 ^ (- e)) P) as B1.
      pose proof (Z.div_mod (- Zpos m) (2 ^ (- e)) ltac:(lia)) as D2.
      pose proof (Z.mod_pos_bound (- Zpos m) (2 ^ (- e)) P) as B2.
      assert (Q : 0 <= Zpos m / 2 ^ (- e)) by (apply Z.div_pos; lia).
      destruct s; cbn [cond_Zopp] in *.
      * change (Z.neg m) with (- Zpos m).
        rewrite Z.opp_involutive.
        repeat split; try nia; intros; nia.
      * change (- Z.pos m) with (- Zpos m).
        repeat split; try nia; intros; nia.
Qed.

(** A mantissa of 24 digits followed by [k] zeros is shifted back exactly. *)
Lemma shr_fexp_shift (M m : positive) (E k : Z) :
  2 ^ 23 <= Zpos m < 2 ^ 24 -> 0 <= k -> Zpos M = Zpos m * 2 ^ k ->
  -149 <= E + k ->
  shr_fexp prec emax (Zpos M) E loc_Exact
  = ({| shr_m := Zpos m; shr_r := false; shr_s := false |}, E + k).
Proof.
  intros Hm Hk HM HE.
  assert (L : Z.log2 (Zpos m) = 23) by (apply Z.log2_unique; lia).
  unfold shr_fexp. cbn [Zdigits2]. rewrite digits2_log2, HM.
  rewrite Z.log2_mul_pow2 by lia. rewrite L, fexp_eq.
  cbn [shr_record_of_loc]. unfold shr.
  replace (Z.max (k + 23 + 1 + E - 24) (-149) - E) with k by lia.
  destruct k as [|p|p].
  - rewrite Z.pow_0_r, Z.mul_1_r, Z.add_0_r. reflexivity.
  - pose (r := {| shr_m := Zpos m * 2 ^ Zpos p; shr_r := false; shr_s := false |}).
    fold r.
    assert (P0 : 0 < 2 ^ Zpos p) by (apply Z.pow_pos_nonneg; lia).
    destruct (iter_shr_1_ok p r) as (P & Ex & X); [unfold r; cbn [shr_m]; nia|].
    destruct X as [Xr Xs]; try reflexivity.
    { unfold r; cbn [shr_m]. apply Z.mod_mul. lia. }
    f_equal.
    destruct (iter_pos shr_1 p r) as [m' r' s']; cbn [shr_m shr_r shr_s] in *.
    subst r' s'. f_equal. rewrite Ex. unfold r; cbn [shr_m].
    apply Z.div_mul. lia.
  - pose proof (Pos2Z.neg_is_neg p). lia.
Qed.

(** Multiplying a normal number by a power of two is exact. *)
Lemma mul_pow2_normal (k : Z) (m : positive) (e : Z) :
  0 <= k <= 23 -> 2 ^ 23 <= Zpos m ->
  bounded prec emax m e = true -> e + k <= 104 ->
  mul (of_int (2 ^ k)) (S754_finite false m e) = S754_finite false m (e + k).
Proof.
  intros Hk Hn Hb He.
  destruct (bounded_inv m e Hb) as (Hm & Hr & _).
  assert (P : 0 < 2 ^ k < 2 ^ 24).
  { split; [apply Z.pow_pos_nonneg; lia|apply Z.pow_lt_mono_r; lia]. }
  rewrite of_int_pos by exact P. unfold canon.
  rewrite Z.log2_pow2 by lia.
  rewrite <- Z.pow_add_r by lia.
  replace (k + (23 - k)) with 23 by lia.
  unfold mul. cbn [SFmul xorb]. unfold binary_round_aux.
  rewrite (shr_fexp_shift _ m (k - 23 + e) 23) by
    (try lia; rewrite Pos2Z.inj_mul, Z2Pos.id by lia; ring).
  cbn [shr_m loc_of_shr_record round_nearest_even].
  rewrite (shr_fexp_shift m m (k - 23 + e + 23) 0) by
    (try lia; rewrite Z.pow_0_r; ring).
  cbn [shr_m].
  replace (k - 23 + e + 23 + 0 <=? emax - prec) with true
    by (symmetry; apply Z.leb_le; unfold emax, prec; lia).
  f_equal. lia.
Qed.

(** A scale of at least 1 is a normal number. *)
Lemma scale_ge_1_inv (scale : float) :
  scale_ok scale -> leb (of_int 1) scale = true ->
  exists m e, scale = S754_finite false m e
              /\ bounded prec emax m e = true
              /\ 2 ^ 23 <= Zpos m < 2 ^ 24 /\ -23 <= e <= -11.
Proof.
  intros H G.
  destruct (scale_ok_inv scale H) as (m & e & -> & Hb & He & Hm).
  destruct (bounded_inv m e Hb) as (B1 & B2 & B3).
  exists m, e. split; [reflexivity|]. split; [exact Hb|].
  change (of_int 1) with (S754_finite false 8388608 (-23)) in G.
  apply leb_finite_pos in G. change (Zpos 8388608) with (2 ^ 23) in G.
  destruct G as [G|[G1 G2]]; [|lia].
  specialize (B3 ltac:(lia)). lia.
Qed.

(** The tolerances of [hitTest] at a scale of at least 1: the products
    [2 * scale] and [8 * scale] are exact. *)
Lemma ceilf_pow2_scale (k : Z) (scale : float) :
  0 <= k <= 3 -> scale_ok scale -> leb (of_int 1) scale = true ->
  to_int (ceilf (mul (of_int (2 ^ k)) scale))
  = Some (- ((- (2 ^ k * num scale)) / den scale))
  /\ 2 ^ k * Zfloor scale <= - ((- (2 ^ k * num scale)) / den scale)
     <= 2 ^ k * Zfloor scale + 2 ^ k.
Proof.
  intros Hk H G.
  assert (P2 : 0 < 2 ^ k < 2 ^ 4).
  { split; [apply Z.pow_pos_nonneg; lia|apply Z.pow_lt_mono_r; lia]. }
  destruct (ceilf_mul_scale (2 ^ k) 4 scale ltac:(lia) ltac:(lia) H) as [C B].
  change (2 ^ (14 + 4)) with (2 ^ 18) in B.
  rewrite C, to_int_of_int by lia.
  destruct (scale_ge_1_inv scale H G) as (m & e & -> & Hb & Hm & He).
  rewrite mul_pow2_normal by first [assumption|lia].
  assert (E : Zceil (S754_finite false m (e + k))
              = - (- (2 ^ k * num (S754_finite false m e))
                   / den (S754_finite false m e))).
  { unfold Zceil, opp, Zfloor, num, den. cbn [SFopp negb cond_Zopp].
    replace (0 <=? e + k) with false by (symmetry; apply Z.leb_gt; lia).
    rewrite (Z.max_r e 0), (Z.max_l (- e) 0) by lia.
    rewrite Z.pow_0_r, Z.mul_1_r. f_equal.
    replace (- e) with (k + - (e + k)) by lia.
    rewrite Z.pow_add_r by lia.
    change (Z.neg m) with (- Zpos m).
    replace (- (2 ^ k * Zpos m)) with (2 ^ k * - Zpos m) by ring.
    rewrite Z.div_mul_cancel_l; [reflexivity| |lia].
    apply Z.pow_nonzero; lia. }
  rewrite E. split; [reflexivity|].
  rewrite Zfloor_num_den.
  pose proof (den_pos (S754_finite false m e)) as D.
  set (n := num (S754_finite false m e)) in *.
  set (d := den (S754_finite false m e)) in *.
  pose proof (Z.div_mod n d ltac:(lia)) as D1.
  pose proof (Z.mod_pos_bound n d D) as B1.
  pose proof (Z.div_mod (- (2 ^ k * n)) d ltac:(lia)) as D2.
  pose proof (Z.mod_pos_bound (- (2 ^ k * n)) d D) as B2.
  split; nia.
Qed.

(** ** The ceiling of a rounded product *)

(** First shift of [binary_round_aux] on an exact mantissa: the quotient,
    and no rounding when nothing is shifted out. *)
Lemma shr_fexp_first_value (m : positive) (e : Z) :
  let E' := fexp prec emax (Z.log2 (Zpos m) + 1 + e) in
  e <= E' ->
  exists r, shr_fexp prec emax (Zpos m) e loc_Exact = (r, E')
            /\ shr_m r = Zpos m / 2 ^ (E' - e)
            /\ (Zpos m mod 2 ^ (E' - e) = 0 -> loc_of_shr_record r = loc_Exact).
Proof.
  intros E' He.
  unfold shr_fexp. cbn [Zdigits2]. rewrite digits2_log2. fold E'.
  cbn [shr_record_of_loc]. unfold shr.
  destruct (E' - e) as [|k|k] eqn:K.
  - eexists. split; [f_equal; lia|]. cbn [shr_m].
    rewrite Z.pow_0_r, Z.div_1_r. split; reflexivity.
  - pose (r0 := {| shr_m := Zpos m; shr_r := false; shr_s := false |}).
    fold r0.
    destruct (iter_shr_1_ok k r0) as (P & E & X); [cbn; lia|].
    exists (iter_pos shr_1 k r0). split; [f_equal; lia|].
    split; [exact E|]. intros Hmod.
    destruct (X eq_refl eq_refl Hmod) as [Xr Xs].
    destruct (iter_pos shr_1 k r0) as [m' r' s']. cbn [shr_r shr_s] in *.
    subst r' s'. reflexivity.
  - pose proof (Pos2Z.neg_is_neg k). lia.
Qed.

(** Second shift: the value of the renormalised mantissa. *)
Lemma shr_fexp_second_value (m2 E' : Z) :
  0 < m2 <= 2 ^ 24 -> -149 <= E' -> (-149 < E' -> 2 ^ 23 <= m2) ->
  exists m3 e3,
    shr_fexp prec emax m2 E' loc_Exact
    = ({| shr_m := Zpos m3; shr_r := false; shr_s := false |}, e3)
    /\ E' <= e3 <= E' + 1
    /\ Zpos m3 * 2 ^ (e3 - E') = m2
    /\ canonical_mantissa prec emax m3 e3 = true.
Proof.
  intros Hm HE Hn.
  destruct m2 as [|p|p]; try lia.
  assert (L0 : 0 <= Z.log2 (Zpos p)) by apply Z.log2_nonneg.
  destruct (Z.log2_spec (Zpos p)) as [Lo Hi]; [lia|].
  rewrite <- Z.add_1_r in Hi.
  unfold shr_fexp. cbn [Zdigits2 shr_record_of_loc]. rewrite digits2_log2.
  rewrite fexp_eq.
  destruct (Z.eq_dec (Zpos p) (2 ^ 24)) as [C|C].
  - assert (p = 16777216%positive) by lia. subst p.
    exists 8388608%positive, (E' + 1).
    change (Z.log2 16777216) with 24.
    replace (Z.max (24 + 1 + E' - 24) (-149) - E') with 1 by lia.
    split; [reflexivity|]. split; [lia|].
    split; [replace (E' + 1 - E') with 1 by lia; reflexivity|].
    unfold canonical_mantissa. apply Z.eqb_eq. rewrite fexp_eq.
    change (Zpos (digits2_pos 8388608)) with 24. lia.
  - assert (L1 : Z.log2 (Zpos p) < 24) by (apply Z.log2_lt_pow2; lia).
    exists p, E'.
    assert (L2 : -149 < E' -> 23 <= Z.log2 (Zpos p)).
    { intros X. apply Z.log2_le_pow2; [lia|]. apply Hn. assumption. }
    rewrite Z.sub_diag, Z.pow_0_r, Z.mul_1_r.
    unfold shr.
    destruct (Z.max (Z.log2 (Zpos p) + 1 + E' - 24) (-149) - E') as [|k|k] eqn:K.
    + split; [reflexivity|]. split; [lia|]. split; [reflexivity|].
      unfold canonical_mantissa. apply Z.eqb_eq. rewrite fexp_eq, digits2_log2.
      lia.
    + pose proof (Pos2Z.is_pos k). lia.
    + split; [reflexivity|]. split; [lia|]. split; [reflexivity|].
      unfold canonical_mantissa. apply Z.eqb_eq. rewrite fexp_eq, digits2_log2.
      lia.
Qed.

(** The value that [binary_round_aux] returns for an exact mantissa: with
    [q] the quotient of the mantissa by [2^(E' - e)], the result is
    [q * 2^E'] or [(q + 1) * 2^E'], and it is [q * 2^E'] when the division
    leaves no remainder. *)
Lemma round_aux_value (s : bool) (m : positive) (e : Z) :
  let E' := fexp prec emax (Z.log2 (Zpos m) + 1 + e) in
  e <= E' -> E' <= 103 ->
  exists m2,
    Zpos m / 2 ^ (E' - e) <= m2 <= Zpos m / 2 ^ (E' - e) + 1
    /\ (Zpos m mod 2 ^ (E' - e) = 0 -> m2 = Zpos m / 2 ^ (E' - e))
    /\ match binary_round_aux prec emax s (Zpos m) e loc_Exact with
       | S754_zero _ => m2 = 0
       | S754_finite s' m3 e3 =>
           s' = s /\ E' <= e3 <= E' + 1 /\ Zpos m3 * 2 ^ (e3 - E') = m2
       | _ => False
       end.
Proof.
  intros E' He Hu.
  destruct (shr_fexp_first m e loc_Exact He) as (r & S1 & B1 & N1).
  destruct (shr_fexp_first_value m e He) as (r' & S1' & V1 & X1).
  fold E' in S1, N1, S1', V1, X1.
  rewrite S1 in S1'. injection S1' as <-.
  unfold binary_round_aux. rewrite S1.
  pose proof (round_nearest_even_bounds (shr_m r) (loc_of_shr_record r)) as RB.
  exists (round_nearest_even (shr_m r) (loc_of_shr_record r)).
  set (m2 := round_nearest_even (shr_m r) (loc_of_shr_record r)) in *.
  rewrite <- V1. split; [exact RB|]. split.
  - intros Hmod. unfold m2. rewrite (X1 Hmod). reflexivity.
  - assert (HE : -149 <= E') by (unfold E'; rewrite fexp_eq; lia).
    destruct (Z.eq_dec m2 0) as [Z0|NZ].
    + rewrite Z0. unfold shr_fexp. cbn [Zdigits2 shr_record_of_loc].
      rewrite fexp_eq. unfold shr.
      destruct (Z.max (0 + E' - 24) (-149) - E') as [|k|k] eqn:K;
        try (pose proof (Pos2Z.is_pos k); lia); reflexivity.
    + destruct (shr_fexp_second_value m2 E') as (m3 & e3 & S2 & E3 & V3 & C3);
        try lia.
      rewrite S2. cbn [shr_m].
      replace (e3 <=? emax - prec) with true
        by (symmetry; apply Z.leb_le; unfold emax, prec; lia).
      split; [reflexivity|]. split; assumption.
Qed.

(** Ceilings of a number, of its two neighbours on a grid and of the grid
    point that the number is rounded to. *)
Lemma ceil_of_rounded (M K P m2 : Z) :
  0 < K -> 0 < P -> 0 <= M ->
  M / K <= m2 <= M / K + 1 -> (M mod K = 0 -> m2 = M / K) ->
  - ((- M) / (K * P)) - 1 <= - ((- m2) / P) <= - ((- M) / (K * P))
  /\ (M mod K = 0 -> - ((- m2) / P) = - ((- M) / (K * P))).
Proof.
  intros HK HP HM B X.
  assert (HQ : 0 < K * P) by nia.
  pose proof (Z.div_mod M K ltac:(lia)) as D1.
  pose proof (Z.mod_pos_bound M K HK) as B1.
  pose proof (Z.div_mod (- M) (K * P) ltac:(lia)) as D2.
  pose proof (Z.mod_pos_bound (- M) (K * P) HQ) as B2.
  pose proof (Z.div_mod (- m2) P ltac:(lia)) as D3.
  pose proof (Z.mod_pos_bound (- m2) P HP) as B3.
  set (q := M / K) in *. set (rq := M mod K) in *.
  set (a := - M / (K * P)) in *. set (ra := (- M) mod (K * P)) in *.
  set (b := - m2 / P) in *. set (rb := (- m2) mod P) in *.
  (* K P (n - 1) < M <= K P n  with  n = - a *)
  assert (U : m2 <= P * (- a)).
  { destruct (Z.eq_dec rq 0) as [Z0|NZ].
    - rewrite (X Z0). nia.
    - assert (q < P * (- a)) by nia. lia. }
  assert (L : P * (- a - 1) <= q) by nia.
  split.
  - split; nia.
  - intros Z0. rewrite (X Z0) in *. nia.
Qed.

(** The ceiling of the binary32 product [c * scale] against the ceiling of
    the exact product: the rounding of the product can lower the ceiling
    by one and cannot raise it; there is no rounding when the product of
    the mantissas is a multiple of [2^24]. *)
Lemma mul_scale_ceil (c : Z) (scale : float) :
  0 < c < 2 ^ 9 -> scale_ok scale ->
  ceil_mul c scale - 1 <= Zceil (mul (of_int c) scale) <= ceil_mul c scale
  /\ ((c * 2 ^ (23 - Z.log2 c) * num scale) mod 2 ^ 24 = 0 ->
      Zceil (mul (of_int c) scale) = ceil_mul c scale).
Proof.
  intros Hc H.
  destruct (scale_ok_inv scale H) as (ms & es & -> & Hb & He & Hm).
  destruct (bounded_inv ms es Hb) as (Hms & Hes & _).
  assert (L0 : 0 <= Z.log2 c) by apply Z.log2_nonneg.
  assert (L1 : Z.log2 c < 9) by (apply Z.log2_lt_pow2; lia).
  destruct (Z.log2_spec c ltac:(lia)) as [Lo Hi].
  assert (2 ^ 9 < 2 ^ 24) by (apply Z.pow_lt_mono_r; lia).
  destruct (canon_mantissa c ltac:(lia)) as [Mc _].
  replace (- (Z.log2 c - 23)) with (23 - Z.log2 c) in Mc by lia.
  rewrite of_int_pos by lia. unfold canon, mul. cbn [SFmul xorb].
  set (mc := Z.to_pos (c * 2 ^ (23 - Z.log2 c))) in *.
  set (e := Z.log2 c - 23 + es).
  set (j := 23 - Z.log2 c) in *.
  assert (Pj : 0 < 2 ^ j) by (apply Z.pow_pos_nonneg; lia).
  assert (Pes : 0 < 2 ^ (- es)) by (apply Z.pow_pos_nonneg; lia).
  assert (EM : Zpos (mc * ms) = c * 2 ^ j * Zpos ms)
    by (rewrite Pos2Z.inj_mul, Mc; reflexivity).
  assert (Ee : 2 ^ (- e) = 2 ^ j * 2 ^ (- es)).
  { rewrite <- Z.pow_add_r by lia. f_equal. lia. }
  (* the size of the product of the mantissas *)
  assert (Mlo : 2 ^ 23 <= Zpos (mc * ms)).
  { rewrite EM.
    assert (2 ^ 23 <= c * 2 ^ j).
    { replace 23 with (Z.log2 c + j) by lia. rewrite Z.pow_add_r by lia. nia. }
    pose proof (Pos2Z.is_pos ms). nia. }
  assert (Mhi : Zpos (mc * ms) < 2 ^ (21 - e)).
  { rewrite EM.
    replace (21 - e) with (9 + (j + (- es + 12))) by lia.
    rewrite !Z.pow_add_r by lia.
    assert (0 < 2 ^ (- es + 12)) by (apply Z.pow_pos_nonneg; lia).
    rewrite Z.pow_add_r in Hm by lia. rewrite Z.pow_add_r in * by lia.
    pose proof (Pos2Z.is_pos ms). nia. }
  assert (M48 : Zpos (mc * ms) < 2 ^ 48).
  { rewrite EM.
    assert (c * 2 ^ j < 2 ^ 24).
    { replace 24 with (Z.log2 c + 1 + j) by lia.
      rewrite Z.pow_add_r by lia. rewrite <- Z.add_1_r in Hi. nia. }
    change (2 ^ 48) with (2 ^ 24 * 2 ^ 24).
    pose proof (Pos2Z.is_pos ms). nia. }
  assert (G1 : 23 <= Z.log2 (Zpos (mc * ms)))
    by (apply Z.log2_le_pow2; lia).
  assert (G2 : Z.log2 (Zpos (mc * ms)) < 21 - e)
    by (apply Z.log2_lt_pow2; lia).
  assert (G3 : Z.log2 (Zpos (mc * ms)) < 48)
    by (apply Z.log2_lt_pow2; lia).
  pose proof (round_aux_value false (mc * ms) e) as R. cbv zeta in R.
  rewrite fexp_eq in R.
  set (E' := Z.max (Z.log2 (Zpos (mc * ms)) + 1 + e - 24) (-149)) in *.
  assert (BE : e <= E' <= -3) by (unfold e in *; lia).
  assert (Bk : 0 <= E' - e <= 24) by (unfold e in *; lia).
  destruct (R ltac:(lia) ltac:(lia)) as (m2 & B2 & X2 & Res). clear R.
  assert (PK : 0 < 2 ^ (E' - e)) by (apply Z.pow_pos_nonneg; lia).
  assert (PP : 0 < 2 ^ (- E')) by (apply Z.pow_pos_nonneg; lia).
  destruct (ceil_of_rounded (Zpos (mc * ms)) (2 ^ (E' - e)) (2 ^ (- E')) m2
              PK PP ltac:(lia) B2 X2) as [CB CX].
  (* the exact ceiling *)
  assert (Cx : - (- Zpos (mc * ms) / (2 ^ (E' - e) * 2 ^ (- E')))
               = ceil_mul c (S754_finite false ms es)).
  { unfold ceil_mul, num, den. cbn [cond_Zopp].
    rewrite (Z.max_r es 0), (Z.max_l (- es) 0) by lia.
    rewrite Z.pow_0_r, Z.mul_1_r.
    rewrite <- Z.pow_add_r by lia.
    replace (E' - e + - E') with (- e) by lia.
    rewrite Ee, EM. f_equal.
    replace (- (c * 2 ^ j * Zpos ms)) with (2 ^ j * - (c * Zpos ms)) by ring.
    apply Z.div_mul_cancel_l; lia. }
  (* the ceiling of the rounded product *)
  assert (Cr : Zceil (binary_round_aux prec emax false (Zpos (mc * ms)) e
                        loc_Exact)
               = - (- m2 / 2 ^ (- E'))).
  { destruct (binary_round_aux prec emax false (Zpos (mc * ms)) e loc_Exact)
      as [s|s| |s m3 e3]; try contradiction.
    - subst m2. reflexivity.
    - destruct Res as (-> & E3 & V3).
      rewrite Zceil_num_den. unfold num, den. cbn [cond_Zopp].
      rewrite (Z.max_r e3 0), (Z.max_l (- e3) 0) by lia.
      rewrite Z.pow_0_r, Z.mul_1_r. f_equal.
      rewrite <- V3.
      replace (- E') with ((e3 - E') + - e3) by lia.
      rewrite Z.pow_add_r by lia.
      replace (- (Zpos m3 * 2 ^ (e3 - E'))) with (2 ^ (e3 - E') * - Zpos m3)
        by ring.
      symmetry. apply Z.div_mul_cancel_l.
      + apply Z.pow_nonzero; lia.
      + apply Z.pow_nonzero; lia. }
  fold e. rewrite Cr, <- Cx. split; [exact CB|].
  intros Hmod. apply CX.
  unfold num in Hmod. cbn [cond_Zopp] in Hmod.
  rewrite (Z.max_r es 0), Z.pow_0_r, Z.mul_1_r in Hmod by lia.
  fold j in Hmod. rewrite <- EM in Hmod.
  apply Z.mod_divide in Hmod; [|lia]. destruct Hmod as [t Ht].
  rewrite Ht.
  replace 24 with ((24 - (E' - e)) + (E' - e)) by lia.
  rewrite Z.pow_add_r, Z.mul_assoc by lia.
  apply Z.mod_mul. lia.
Qed.

End F32Facts.

Import F32Facts.

(** ** The model on known values *)

(** Above [2^24] the conversion from [int] rounds to the nearest
    representable number, ties to the even mantissa. *)
Example of_int_ties_to_even :
  F32.of_int 16777217 = F32.of_int 16777216
  /\ F32.of_int 16777219 = F32.of_int 16777220
  /\ F32.of_int F32.INT_MAX = F32.of_int (2 ^ 31).
Proof. repeat split; run. Qed.

Example floorf_ceilf_values :
  F32.floorf scale_1_5 = F32.of_int 1
  /\ F32.ceilf scale_1_5 = F32.of_int 2
  /\ F32.floorf (F32.opp scale_1_5) = F32.of_int (- 2)
  /\ F32.ceilf (F32.opp scale_1_5) = F32.of_int (- 1)
  /\ F32.ceilf (S754_finite true 8388608 (-24)) = S754_zero true
  /\ F32.floorf (S754_finite false 8388608 (-24)) = S754_zero false.
Proof. repeat split; run. Qed.

Example to_int_values :
  F32.to_int (F32.opp scale_1_5) = Some (- 1)
  /\ F32.to_int scale_1_5 = Some 1
  /\ F32.to_int (F32.of_int (- 2 ^ 31)) = Some F32.INT_MIN
  /\ F32.to_int (F32.of_int (2 ^ 31)) = None
  /\ F32.to_int (S754_infinity false) = None
  /\ F32.to_int S754_nan = None.
Proof. repeat split; run. Qed.

Example arithmetic_values :
  F32.mul (F32.of_int 30) scale_1_5 = F32.of_int 45
  /\ F32.add (F32.of_int 16777216) (F32.of_int 1) = F32.of_int 16777216
  /\ F32.sub (F32.of_int 33554436) (F32.of_int 2) = F32.of_int 33554432
  /\ F32.sub (F32.of_int 568) (F32.of_int 33) = F32.of_int 535.
Proof. repeat split; run. Qed.

(** * The layout engine *)

Lemma wrap_int_small (z : Z) : - 2 ^ 31 <= z < 2 ^ 31 -> wrap_int z = z.
Proof.
  intros H. unfold wrap_int. rewrite Z.mod_small; lia.
Qed.

(** ** What [updateLayout] and [handleEvent] leave alone *)

Lemma updateLayout_shadow (env : Env) (st : App) :
  shadow (updateLayout env st) = shadow st.
Proof.
  unfold updateLayout. destruct (SDL_GetWindowSizeInPixels env). reflexivity.
Qed.

Lemma updateLayout_dirty (env : Env) (st : App) :
  windowShouldBeRedrawn (updateLayout env st) = true.
Proof.
  unfold updateLayout. destruct (SDL_GetWindowSizeInPixels env). reflexivity.
Qed.

Lemma updateLayout_titleBar_h (env : Env) (st : App) :
  SDL_FRect.h (Layout.titleBar (layout (updateLayout env st)))
  = F32.ceilf (F32.mul (F32.of_int 30) (SDL_GetWindowDisplayScale env)).
Proof.
  unfold updateLayout. destruct (SDL_GetWindowSizeInPixels env). reflexivity.
Qed.

(** The new layout is a function of SDL's answers and the shadow textures. *)
Lemma updateLayout_layout_indep (env : Env) (st st' : App) :
  shadow st = shadow st' ->
  layout (updateLayout env st) = layout (updateLayout env st').
Proof.
  intros H. unfold updateLayout. rewrite H.
  destruct (SDL_GetWindowSizeInPixels env). reflexivity.
Qed.

Lemma handleEvent_shadow (env : Env) (event : SDL_EventType) (st : App) :
  shadow (handleEvent env event st) = shadow st.
Proof. destruct event; cbn; try apply updateLayout_shadow; reflexivity. Qed.

(** [handleEvent] keeps the layout or replaces it by that of [updateLayout]. *)
Lemma handleEvent_layout (env : Env) (event : SDL_EventType) (st : App) :
  layout (handleEvent env event st) = layout st
  \/ layout (handleEvent env event st) = layout (updateLayout env st).
Proof. destruct event; cbn; auto. Qed.

Lemma handleEvent_palettes (env : Env) (event : SDL_EventType) (st : App) :
  Theme.light (theme (handleEvent env event st)) = Theme.light (theme st)
  /\ Theme.dark (theme (handleEvent env event st)) = Theme.dark (theme st).
Proof.
  destruct event; cbn [handleEvent theme Theme.light Theme.dark];
    try (split; reflexivity);
    unfold updateLayout; destruct (SDL_GetWindowSizeInPixels env);
    split; reflexivity.
Qed.

(** Redrawing touches the dirty flag only. *)
Lemma draw_frame (st : App) :
  let st' := if windowShouldBeRedrawn st then redraw st else st in
  layout st' = layout st /\ shadow st' = shadow st /\ theme st' = theme st.
Proof. cbn zeta. destruct (windowShouldBeRedrawn st); repeat split. Qed.

Lemma reachable_shadow (ok : Env -> Prop) (sh : Shadow.t) (st : App) :
  reachable ok sh st -> shadow st = sh.
Proof.
  induction 1 as [env Hok|env event st Hok Hr IH Hx].
  - unfold main_init. cbn [shadow]. apply updateLayout_shadow.
  - unfold main_loop. rewrite handleEvent_shadow.
    rewrite (proj1 (proj2 (draw_frame st))). exact IH.
Qed.

(** ** The layout in the range where binary32 is exact *)

Section ExactRange.

Variables (env : Env) (st : App).

Let scale := SDL_GetWindowDisplayScale env.
Let w := fst (SDL_GetWindowSizeInPixels env).
Let h := snd (SDL_GetWindowSizeInPixels env).
Let left_w := SDL_Texture.w (Shadow.left (shadow st)).
Let bottom_h := SDL_Texture.h (Shadow.bottom (shadow st)).

Hypothesis Hok : env_ok (shadow st) env.

Lemma border_bounds : 0 <= border scale <= 4096.
Proof. exact (proj2 (floorf_scale scale (proj1 Hok))). Qed.

Lemma titleHeight_bounds : 0 <= titleHeight scale <= 2 ^ 19.
Proof.
  exact (proj2 (ceilf_mul_scale 30 5 scale ltac:(lia) ltac:(lia) (proj1 Hok))).
Qed.

Lemma floorf_scale_exact : F32.to_Z (F32.floorf scale) = Some (border scale).
Proof.
  destruct (floorf_scale scale (proj1 Hok)) as [E B].
  rewrite E. apply to_Z_of_int. unfold border. lia.
Qed.

(** Every field of the new layout is the conversion of the integer that the
    program means. *)
Lemma updateLayout_exact :
  layout (updateLayout env st)
  = Layout.mk
      (rectZ 0 0 w h)
      (rectZ left_w bottom_h (w - 2 * left_w) (h - 2 * bottom_h))
      (rectZ (left_w + border scale) (bottom_h + border scale)
             (w - 2 * left_w - 2 * border scale) (titleHeight scale))
      (rectZ (left_w + border scale)
             (bottom_h + border scale + titleHeight scale + border scale)
             (w - 2 * left_w - 2 * border scale)
             (h - 2 * bottom_h - 2 * border scale
              - (titleHeight scale + border scale)))
      scale.
Proof.
  pose proof border_bounds as Bf. pose proof titleHeight_bounds as Bt.
  destruct Hok as (Hs & Hw & Hh & Hl & Hb).
  destruct (floorf_scale _ Hs) as [Ff _].
  destruct (ceilf_mul_scale 30 5 _ ltac:(lia) ltac:(lia) Hs) as [Ft _].
  unfold border, titleHeight in *.
  subst scale w h left_w bottom_h. unfold updateLayout.
  destruct (SDL_GetWindowSizeInPixels env) as [w h]. cbn [fst snd] in *.
  cbn [layout SDL_FRect.x SDL_FRect.y SDL_FRect.w SDL_FRect.h].
  set (f := F32.Zfloor (SDL_GetWindowDisplayScale env)) in *.
  set (t := F32.Zceil (F32.mul (F32.of_int 30) (SDL_GetWindowDisplayScale env)))
    in *.
  rewrite Ff, Ft.
  rewrite !wrap_int_small by (rewrite ?wrap_int_small; lia).
  rewrite (mul_of_int 2 f) by lia.
  repeat first [rewrite add_of_int by lia | rewrite sub_of_int by lia].
  unfold rectZ. repeat f_equal; lia.
Qed.

Lemma client_height_exact :
  F32.to_Z (SDL_FRect.h (Layout.clientArea (layout (updateLayout env st))))
  = Some (h - 2 * bottom_h - titleHeight scale - 3 * border scale).
Proof.
  pose proof border_bounds as Bf. pose proof titleHeight_bounds as Bt.
  rewrite updateLayout_exact. cbn [Layout.clientArea rectZ SDL_FRect.h].
  destruct Hok as (Hs & Hw & Hh & Hl & Hb). subst scale w h left_w bottom_h.
  rewrite to_Z_of_int by lia. f_equal. lia.
Qed.

Lemma updateLayout_height_law :
  client_height_law (layout (updateLayout env st)) = true.
Proof.
  pose proof border_bounds as Bf. pose proof titleHeight_bounds as Bt.
  pose proof floorf_scale_exact as Ef.
  rewrite updateLayout_exact. unfold client_height_law.
  cbn [Layout.background Layout.titleBar Layout.clientArea Layout.scale
       rectZ SDL_FRect.h].
  destruct Hok as (Hs & Hw & Hh & Hl & Hb). subst scale w h left_w bottom_h.
  rewrite Ef. rewrite !to_Z_of_int by lia.
  apply Z.eqb_eq. lia.
Qed.

End ExactRange.

(** ** The integer floor and ceiling are the mathematical ones *)

Lemma Zfloor_spec (s : bool) (m : positive) (e : Z) :
  e < 0 ->
  F32.Zfloor (S754_finite s m e) * 2 ^ (- e)
    <= cond_Zopp s (Zpos m)
    < (F32.Zfloor (S754_finite s m e) + 1) * 2 ^ (- e).
Proof.
  intros He. unfold F32.Zfloor.
  replace (0 <=? e) with false by (symmetry; apply Z.leb_gt; lia).
  assert (P : 0 < 2 ^ (- e)) by (apply Z.pow_pos_nonneg; lia).
  pose proof (Z.div_mod (cond_Zopp s (Zpos m)) (2 ^ (- e)) ltac:(lia)) as D.
  pose proof (Z.mod_pos_bound (cond_Zopp s (Zpos m)) (2 ^ (- e)) P) as B.
  nia.
Qed.

Lemma Zceil_spec (s : bool) (m : positive) (e : Z) :
  e < 0 ->
  (F32.Zceil (S754_finite s m e) - 1) * 2 ^ (- e)
    < cond_Zopp s (Zpos m)
    <= F32.Zceil (S754_finite s m e) * 2 ^ (- e).
Proof.
  intros He. unfold F32.Zceil, F32.opp, F32.Zfloor. cbn [SFopp].
  replace (0 <=? e) with false by (symmetry; apply Z.leb_gt; lia).
  assert (P : 0 < 2 ^ (- e)) by (apply Z.pow_pos_nonneg; lia).
  assert (N : cond_Zopp (negb s) (Zpos m) = - cond_Zopp s (Zpos m))
    by (destruct s; reflexivity).
  rewrite N.
  pose proof (Z.div_mod (- cond_Zopp s (Zpos m)) (2 ^ (- e)) ltac:(lia)) as D.
  pose proof (Z.mod_pos_bound (- cond_Zopp s (Zpos m)) (2 ^ (- e)) P) as B.
  nia.
Qed.

(** * The hit classifier *)

Lemma hitTest_defined (l : Layout.t) (area : SDL_Point.t) (x y e c : Z) :
  F32.to_int (SDL_FPoint.x (cursor l area)) = Some x ->
  F32.to_int (SDL_FPoint.y (cursor l area)) = Some y ->
  edgeTol l = Some e -> cornerTol l = Some c ->
  hitTest l area = Some (hitTest_branches l area x y e c).
Proof.
  unfold hitTest, edgeTol, cornerTol, cursor. cbn [SDL_FPoint.x SDL_FPoint.y].
  intros -> -> -> ->. reflexivity.
Qed.

Lemma hitTest_inv (l : Layout.t) (area : SDL_Point.t) (r : SDL_HitTestResult) :
  hitTest l area = Some r ->
  exists x y e c,
    F32.to_int (SDL_FPoint.x (cursor l area)) = Some x
    /\ F32.to_int (SDL_FPoint.y (cursor l area)) = Some y
    /\ edgeTol l = Some e /\ cornerTol l = Some c
    /\ r = hitTest_branches l area x y e c.
Proof.
  intros H.
  destruct (F32.to_int (SDL_FPoint.x (cursor l area))) as [x|] eqn:Hx;
    [|unfold hitTest, cursor in *; cbn [SDL_FPoint.x] in *;
      rewrite Hx in H; discriminate].
  destruct (F32.to_int (SDL_FPoint.y (cursor l area))) as [y|] eqn:Hy;
    [|unfold hitTest, cursor in *; cbn [SDL_FPoint.x SDL_FPoint.y] in *;
      rewrite Hx, Hy in H; discriminate].
  destruct (edgeTol l) as [e|] eqn:He;
    [|unfold hitTest, cursor, edgeTol in *;
      cbn [SDL_FPoint.x SDL_FPoint.y] in *;
      rewrite Hx, Hy, He in H; discriminate].
  destruct (cornerTol l) as [c|] eqn:Hc;
    [|unfold hitTest, cursor, edgeTol, cornerTol in *;
      cbn [SDL_FPoint.x SDL_FPoint.y] in *;
      rewrite Hx, Hy, He, Hc in H; discriminate].
  rewrite (hitTest_defined l area x y e c Hx Hy He Hc) in H.
  injection H as <-. exists x, y, e, c. repeat split; reflexivity.
Qed.

Lemma hitTest_branches_zone (l : Layout.t) (area : SDL_Point.t) (x y e c : Z) :
  zone_of (hitTest_branches l area x y e c)
  = first_zone l (cursor l area) x y e.
Proof.
  unfold hitTest_branches, first_zone.
  repeat match goal with
         | |- context [if ?b then _ else _] => destruct b
         end; reflexivity.
Qed.

(** A scale and a cursor for which every conversion is defined. *)
Lemma hitTest_in_range (l : Layout.t) (area : SDL_Point.t) :
  scale_ok (Layout.scale l) ->
  Z.abs (SDL_Point.x area) < 2 ^ 17 -> Z.abs (SDL_Point.y area) < 2 ^ 17 ->
  exists r, hitTest l area = Some r.
Proof.
  intros Hs Hx Hy.
  destruct (to_int_mul_scale _ _ Hx Hs) as [x Ex].
  destruct (to_int_mul_scale _ _ Hy Hs) as [y Ey].
  destruct (ceilf_mul_scale 2 2 _ ltac:(lia) ltac:(lia) Hs) as [E2 B2].
  destruct (ceilf_mul_scale 8 4 _ ltac:(lia) ltac:(lia) Hs) as [E8 B8].
  change (2 ^ (14 + 2)) with (2 ^ 16) in B2.
  change (2 ^ (14 + 4)) with (2 ^ 18) in B8.
  eexists. eapply (hitTest_defined l area x y); [exact Ex|exact Ey| |].
  - unfold edgeTol. rewrite E2. apply to_int_of_int. lia.
  - unfold cornerTol. rewrite E8. apply to_int_of_int. lia.
Qed.

(** In a layout computed from inputs in the exact range the edge and corner
    tests are comparisons of integers. *)
Lemma band_tests_exact (env : Env) (st : App) (x y e c : Z) :
  env_ok (shadow st) env ->
  Z.abs x < 2 ^ 23 -> Z.abs y < 2 ^ 23 -> 0 <= e < 2 ^ 22 -> 0 <= c < 2 ^ 22 ->
  let l := layout (updateLayout env st) in
  let w := fst (SDL_GetWindowSizeInPixels env) in
  let h := snd (SDL_GetWindowSizeInPixels env) in
  let left_w := SDL_Texture.w (Shadow.left (shadow st)) in
  let bottom_h := SDL_Texture.h (Shadow.bottom (shadow st)) in
  within (F32.of_int x) (left_edge l) (F32.of_int e)
  = (left_w - e <=? x) && (x <=? left_w + e)
  /\ within (F32.of_int x) (right_edge l) (F32.of_int e)
     = (w - left_w - e <=? x) && (x <=? w - left_w + e)
  /\ within (F32.of_int y) (top_edge l) (F32.of_int e)
     = (bottom_h - e <=? y) && (y <=? bottom_h + e)
  /\ within (F32.of_int y) (bottom_edge l) (F32.of_int e)
     = (h - bottom_h - e <=? y) && (y <=? h - bottom_h + e)
  /\ above_top_corner l y c = (y <? bottom_h + c)
  /\ below_bottom_corner l y c = (h - bottom_h - c <=? y).
Proof.
  intros Hok Hx Hy He Hc. cbn zeta.
  rewrite (updateLayout_exact env st Hok).
  destruct Hok as (Hs & Hw & Hh & Hl & Hb).
  unfold left_edge, right_edge, top_edge, bottom_edge, above_top_corner,
    below_bottom_corner, top_edge, bottom_edge, F32.geb.
  cbn [Layout.background rectZ SDL_FRect.x SDL_FRect.y SDL_FRect.w
       SDL_FRect.h].
  repeat rewrite add_of_int by lia.
  repeat rewrite within_of_int by lia.
  repeat rewrite sub_of_int by lia.
  rewrite ltb_of_int by lia.
  change SFleb with F32.leb. rewrite leb_of_int by lia.
  repeat match goal with |- _ /\ _ => split end; try reflexivity.
  all: match goal with
       | |- (?a <=? _) && (_ <=? ?b) = (?a' <=? _) && (_ <=? ?b') =>
           replace a with a' by lia; replace b with b' by lia; reflexivity
       | |- (?a <=? _) = (?a' <=? _) =>
           replace a with a' by lia; reflexivity
       end.
Qed.

(** * The claims *)

(** ** C1 *)

(** C1 (as amended).  For every window size of at most [2^22] pixels, shadow
    margins of at most [2^20] and every well-formed scale with
    [0 < scale <= 4096], if the background is at least [2 * floor(scale)]
    wide and at least [ceil(30 * scale) + 3 * floor(scale)] high, then the
    layout of [updateLayout] is nested: the background lies within the
    window, the title bar and the client area lie within the background,
    the client area has the x and the width of the title bar, and
    clientRect.y = titleBarRect.y + titleBarRect.height + floor(scale). *)
Theorem updateLayout_nested (env : Env) (st : App) :
  env_ok (shadow st) env ->
  2 * border (SDL_GetWindowDisplayScale env)
    <= fst (SDL_GetWindowSizeInPixels env)
       - 2 * SDL_Texture.w (Shadow.left (shadow st)) ->
  titleHeight (SDL_GetWindowDisplayScale env)
  + 3 * border (SDL_GetWindowDisplayScale env)
    <= snd (SDL_GetWindowSizeInPixels env)
       - 2 * SDL_Texture.h (Shadow.bottom (shadow st)) ->
  nested_layout (layout (updateLayout env st)).
Proof.
  intros Hok Hw Hh.
  pose proof (border_bounds env st Hok) as Bf.
  pose proof (titleHeight_bounds env st Hok) as Bt.
  pose proof (floorf_scale_exact env st Hok) as Ef.
  rewrite (updateLayout_exact env st Hok).
  destruct Hok as (Hs & Bw & Bh & Blw & Bbh).
  unfold nested_layout, contained, client_below_title, rect_exact.
  cbn [Layout.window Layout.background Layout.titleBar Layout.clientArea
       Layout.scale rectZ SDL_FRect.x SDL_FRect.y SDL_FRect.w SDL_FRect.h].
  rewrite Ef. rewrite !to_Z_of_int by lia.
  repeat split; try reflexivity; try leb_true.
  apply Z.eqb_eq. lia.
Qed.

Lemma updateLayout_nested_witness :
  env_ok (shadow app16) (env_of scale_1_0 800 600)
  /\ nested_layout (layout (updateLayout (env_of scale_1_0 800 600) app16)).
Proof.
  assert (H : env_ok (shadow app16) (env_of scale_1_0 800 600)).
  { repeat split; try run; cbn; lia. }
  split; [exact H|].
  apply (updateLayout_nested (env_of scale_1_0 800 600) app16 H).
  - vm_compute. discriminate.
  - vm_compute. discriminate.
Defined.

(** C1 fails as stated: in a window of 800 x 60 pixels at scale 1 with
    shadow margins of 16, the background is 28 pixels high; the title bar,
    30 pixels high, ends below it, and the client area has the height -5. *)
Lemma nested_claim_fails_800x60 :
  let l := layout (updateLayout (env_of scale_1_0 800 60) app16) in
  rect_exact (Layout.background l) = Some (16, 16, 768, 28)
  /\ rect_exact (Layout.titleBar l) = Some (17, 17, 766, 30)
  /\ rect_exact (Layout.clientArea l) = Some (17, 48, 766, -5)
  /\ ~ nested_claim (env_of scale_1_0 800 60) app16.
Proof.
  cbn zeta. repeat match goal with |- (_ = _) /\ _ => split; [run|] end.
  intros H.
  destruct H as (_ & T & _); try run.
  vm_compute in T. discriminate T.
Qed.

(** The bound on the sizes is needed as well: a width of 2^29 + 32 is
    rounded to 2^29 when it is stored in windowRect, the width 2^29 of the
    background is exact, and the background, which starts at x = 16, ends
    to the right of the window. *)
Lemma nested_needs_exact_range :
  let l := layout (updateLayout (env_of scale_1_0 (2 ^ 29 + 32) 600) app16) in
  rect_exact (Layout.window l) = Some (0, 0, 2 ^ 29, 600)
  /\ rect_exact (Layout.background l) = Some (16, 16, 2 ^ 29, 568)
  /\ contained (Layout.background l) (Layout.window l) = false.
Proof. cbn zeta. repeat split; run. Qed.

(** ** C2 *)




(** ** C3 *)

(** C3 (as amended).  After every [updateLayout] whose inputs are in the
    exact range (sizes of at most [2^22], margins of at most [2^20],
    [0 < scale <= 4096]), clientRect.height = backgroundRect.height
    - titleBarRect.height - 3 * floor(scale); the equation holds in every
    state that the program reaches under such inputs, because
    [handleEvent] either keeps the layout or installs that of
    [updateLayout]. *)
Theorem client_height_invariant :
  (forall env st,
      env_ok (shadow st) env ->
      client_height_law (layout (updateLayout env st)) = true)
  /\ (forall sh st,
         reachable (env_ok sh) sh st -> client_height_law (layout st) = true)
  /\ (forall env event st,
         layout (handleEvent env event st) = layout st
         \/ layout (handleEvent env event st) = layout (updateLayout env st)).
Proof.
  split; [exact updateLayout_height_law|]. split; [|exact handleEvent_layout].
  intros sh st Hr.
  induction Hr as [env Hok|env event st Hok Hr IH Hx].
  - unfold main_init. cbn [layout].
    apply updateLayout_height_law. exact Hok.
  - unfold main_loop. destruct (draw_frame st) as (Dl & Ds & _).
    match goal with
    | |- context [handleEvent env event ?s] =>
        destruct (handleEvent_layout env event s) as [E|E]; rewrite E
    end.
    + rewrite Dl. exact IH.
    + apply updateLayout_height_law.
      rewrite Ds, (reachable_shadow _ _ _ Hr). exact Hok.
Qed.

Lemma client_height_invariant_witness :
  env_ok shadow16 (env_of scale_1_0 800 600)
  /\ env_ok shadow16 (env_of scale_1_5 800 600)
  /\ client_height_law
       (layout (main_loop (env_of scale_1_5 800 600)
                          SDL_EVENT_WINDOW_DISPLAY_SCALE_CHANGED
                          (main_init (env_of scale_1_0 800 600) shadow16)))
     = true.
Proof.
  assert (H1 : env_ok shadow16 (env_of scale_1_0 800 600)).
  { repeat split; try run; cbn; lia. }
  assert (H2 : env_ok shadow16 (env_of scale_1_5 800 600)).
  { repeat split; try run; cbn; lia. }
  split; [exact H1|]. split; [exact H2|].
  apply (proj1 (proj2 client_height_invariant) shadow16).
  apply reach_loop; [exact H2| |reflexivity]. apply reach_init. exact H1.
Defined.

(** C3 fails as stated: for a window 33554468 pixels high at scale 1 with
    margins of 16 the background is 33554436 high, the title bar 30 and the
    border 1, but the two rounded subtractions leave 33554400 for the
    client area, not 33554403; the binary32 evaluation of
    (background.h - titleBar.h) - 3 * floor(scale) differs from it too. *)
Lemma client_height_law_fails_tall :
  let l := layout (updateLayout (env_of scale_1_0 800 33554468) app16) in
  F32.to_Z (SDL_FRect.h (Layout.background l)) = Some 33554436
  /\ F32.to_Z (SDL_FRect.h (Layout.titleBar l)) = Some 30
  /\ F32.to_Z (F32.floorf (Layout.scale l)) = Some 1
  /\ F32.to_Z (SDL_FRect.h (Layout.clientArea l)) = Some 33554400
  /\ F32.to_Z (F32.sub (F32.sub (SDL_FRect.h (Layout.background l))
                                (SDL_FRect.h (Layout.titleBar l)))
                       (F32.mul (F32.of_int 3) (F32.floorf (Layout.scale l))))
     = Some 33554404
  /\ client_height_law l = false.
Proof. cbn zeta. repeat split; run. Qed.

(** ** C4 *)

(** C4 (as amended).  [hitTest] is a function of the layout and the cursor
    alone.  It is defined wherever the scaled coordinates and the two
    tolerances convert to [int], in particular for every well-formed scale
    with [0 < scale <= 4096] and every cursor with [|x|, |y| < 2^17];
    there it returns exactly one region, and the class of that region is
    the first test passed in the order left band, right band, top band,
    bottom band, title bar, none. *)
Theorem hitTest_classifies :
  (forall l area,
      scale_ok (Layout.scale l) ->
      Z.abs (SDL_Point.x area) < 2 ^ 17 ->
      Z.abs (SDL_Point.y area) < 2 ^ 17 ->
      exists r, hitTest l area = Some r
                /\ forall r', hitTest l area = Some r' -> r' = r)
  /\ (forall l area r,
         hitTest l area = Some r ->
         exists x y e,
           F32.to_int (SDL_FPoint.x (cursor l area)) = Some x
           /\ F32.to_int (SDL_FPoint.y (cursor l area)) = Some y
           /\ edgeTol l = Some e
           /\ zone_of r = first_zone l (cursor l area) x y e).
Proof.
  split.
  - intros l area Hs Hx Hy.
    destruct (hitTest_in_range l area Hs Hx Hy) as [r Hr].
    exists r. split; [exact Hr|]. intros r' Hr'. congruence.
  - intros l area r H.
    destruct (hitTest_inv l area r H) as (x & y & e & c & Hx & Hy & He & Hc & ->).
    exists x, y, e. repeat split; try assumption.
    apply hitTest_branches_zone.
Qed.

Lemma hitTest_classifies_witness :
  scale_ok (Layout.scale layout_800x600)
  /\ exists r, hitTest layout_800x600 (SDL_Point.mk 400 30) = Some r
               /\ forall r', hitTest layout_800x600 (SDL_Point.mk 400 30)
                             = Some r' -> r' = r.
Proof.
  assert (H : scale_ok (Layout.scale layout_800x600)).
  { repeat split; run. }
  split; [exact H|].
  apply (proj1 hitTest_classifies layout_800x600 (SDL_Point.mk 400 30) H).
  - cbn. lia.
  - cbn. lia.
Defined.

(** C4 fails as stated: at scale 1 the cursor x = INT_MAX is converted to
    the [float] 2147483648, which no [int] holds, so the conversion
    [int x = pos.x] has no defined result and [hitTest] returns no
    region. *)
Lemma hitTest_undefined_at_INT_MAX :
  F32.mul (F32.of_int F32.INT_MAX) (Layout.scale layout_800x600)
  = F32.of_int (2 ^ 31)
  /\ hitTest layout_800x600 (SDL_Point.mk F32.INT_MAX 0) = None.
Proof. split; run. Qed.

(** ** C5 *)

(** C5 (as amended).  [updateLayout] sets titleBarRect.height to the
    integer ceiling of the binary32 product 30 * scale that the program
    computes (and to +infinity when that product overflows).  For every
    scale with [0 < scale <= 4096] this is ceil(30 x scale) or one less,
    and it is ceil(30 x scale) whenever the last four bits of the
    mantissa of the scale are zero, as they are for 1.0, 1.25, 1.5 and
    2.0.  When the scale changes from 1.0 to 1.5 at a fixed size, the
    height changes from 30 to 45, which are the ceilings of the exact
    products, the redraw flag is set and, for sizes in the exact range,
    the height of the client area shrinks by 15. *)
Theorem titleBar_height_scaled
  (scale : float) (w h : Z) (thm : SDL_SystemTheme) (st : App) :
  let th s := SDL_FRect.h (Layout.titleBar (layout s)) in
  let ch s := SDL_FRect.h (Layout.clientArea (layout s)) in
  let st10 := updateLayout (mkEnv scale_1_0 (w, h) thm) st in
  let st15 := main_loop (mkEnv scale_1_5 (w, h) thm)
                        SDL_EVENT_WINDOW_DISPLAY_SCALE_CHANGED st10 in
  (F32.valid scale = true -> F32.ltb F32.zero scale = true ->
   match F32.mul (F32.of_int 30) scale with
   | S754_zero _ | S754_finite _ _ _ =>
       F32.to_Z (th (updateLayout (mkEnv scale (w, h) thm) st))
       = Some (titleHeight scale)
   | _ =>
       th (updateLayout (mkEnv scale (w, h) thm) st)
       = F32.mul (F32.of_int 30) scale
   end)
  /\ (scale_ok scale ->
      F32.to_Z (th (updateLayout (mkEnv scale (w, h) thm) st))
      = Some (titleHeight scale)
      /\ ceil_mul 30 scale - 1 <= titleHeight scale <= ceil_mul 30 scale
      /\ (num scale mod 16 = 0 -> titleHeight scale = ceil_mul 30 scale))
  /\ th st10 = F32.of_int 30
  /\ th st15 = F32.of_int 45
  /\ ceil_mul 30 scale_1_0 = 30
  /\ ceil_mul 30 scale_1_5 = 45
  /\ windowShouldBeRedrawn st15 = true
  /\ (env_ok (shadow st) (mkEnv scale_1_0 (w, h) thm) ->
      exists c, F32.to_Z (ch st10) = Some c
                /\ F32.to_Z (ch st15) = Some (c - 15)).
Proof.
  cbn zeta. unfold main_loop. cbn [handleEvent].
  rewrite !updateLayout_titleBar_h, updateLayout_dirty.
  cbn [SDL_GetWindowDisplayScale].
  split; [|split; [|split; [|split; [|split; [|split; [|split]]]]]].
  - intros V P.
    pose proof (ceilf_exact _ (valid_mul_of_int 30 scale ltac:(lia) V P)) as C.
    unfold titleHeight.
    destruct (F32.mul (F32.of_int 30) scale); exact C.
  - intros Hs.
    destruct (ceilf_mul_scale 30 5 scale ltac:(lia) ltac:(lia) Hs) as [C B].
    destruct (mul_scale_ceil 30 scale ltac:(lia) Hs) as [CB CX].
    change (2 ^ (14 + 5)) with (2 ^ 19) in B.
    unfold titleHeight. rewrite C.
    split; [apply to_Z_of_int; lia|]. split; [exact CB|].
    intros Hn. apply CX. change (Z.log2 30) with 4.
    apply Z.mod_divide in Hn; [|lia]. destruct Hn as [t Ht]. rewrite Ht.
    replace (30 * 2 ^ (23 - 4) * (t * 16)) with (15 * t * 2 ^ 24)
      by (change (2 ^ (23 - 4)) with 524288; change (2 ^ 24) with 16777216;
          ring).
    apply Z.mod_mul. lia.
  - run.
  - run.
  - run.
  - run.
  - reflexivity.
  - intros Hok.
    assert (Hok' : env_ok (shadow st) (mkEnv scale_1_5 (w, h) thm)).
    { destruct Hok as (_ & R). split; [|exact R]. repeat split; run. }
    eexists. split.
    + apply client_height_exact. exact Hok.
    + match goal with
      | |- context [updateLayout ?e ?s] =>
          rewrite (updateLayout_layout_indep e s st)
            by (rewrite (proj1 (proj2 (draw_frame _)));
                apply updateLayout_shadow)
      end.
      rewrite (client_height_exact _ st Hok').
      cbn [SDL_GetWindowDisplayScale SDL_GetWindowSizeInPixels snd].
      replace (titleHeight scale_1_5) with 45 by run.
      replace (titleHeight scale_1_0) with 30 by run.
      replace (border scale_1_5) with 1 by run.
      replace (border scale_1_0) with 1 by run.
      f_equal. lia.
Qed.

Lemma titleBar_height_scaled_witness :
  scale_ok scale_2_0
  /\ num scale_2_0 mod 16 = 0
  /\ env_ok (shadow app16) (mkEnv scale_1_0 (800, 600) SDL_SYSTEM_THEME_DARK)
  /\ F32.to_Z (SDL_FRect.h (Layout.titleBar
       (layout (updateLayout (mkEnv scale_2_0 (800, 600) SDL_SYSTEM_THEME_DARK)
                             app16))))
     = Some (titleHeight scale_2_0)
  /\ titleHeight scale_2_0 = ceil_mul 30 scale_2_0
  /\ exists c,
      F32.to_Z (SDL_FRect.h (Layout.clientArea (layout
        (updateLayout (mkEnv scale_1_0 (800, 600) SDL_SYSTEM_THEME_DARK)
                      app16))))
      = Some c
      /\ F32.to_Z (SDL_FRect.h (Layout.clientArea (layout
           (main_loop (mkEnv scale_1_5 (800, 600) SDL_SYSTEM_THEME_DARK)
              SDL_EVENT_WINDOW_DISPLAY_SCALE_CHANGED
              (updateLayout (mkEnv scale_1_0 (800, 600) SDL_SYSTEM_THEME_DARK)
                            app16)))))
         = Some (c - 15).
Proof.
  assert (S : scale_ok scale_2_0) by (repeat split; run).
  assert (N : num scale_2_0 mod 16 = 0) by run.
  assert (H' : env_ok (shadow app16)
                 (mkEnv scale_1_0 (800, 600) SDL_SYSTEM_THEME_DARK)).
  { repeat split; try run; cbn; lia. }
  split; [exact S|]. split; [exact N|]. split; [exact H'|].
  pose proof (titleBar_height_scaled scale_2_0 800 600
                SDL_SYSTEM_THEME_DARK app16) as T.
  cbn zeta in T. destruct T as (_ & T2 & _ & _ & _ & _ & _ & T8).
  destruct (T2 S) as (A1 & _ & A3).
  split; [exact A1|]. split; [exact (A3 N)|exact (T8 H')].
Defined.

(** C5 fails as stated: at the binary32 number nearest to 1.1, that is
    9227469 / 2^23, the product 30 x scale is a little more than 33, so
    that ceil(30 x scale) = 34; the program rounds the product to 33
    exactly and the title bar is 33 high. *)
Lemma titleBar_height_claim_fails_1_1 :
  F32.ltb F32.zero scale_1_1 = true
  /\ 33 * den scale_1_1 < 30 * num scale_1_1
  /\ ceil_mul 30 scale_1_1 = 34
  /\ F32.mul (F32.of_int 30) scale_1_1 = F32.of_int 33
  /\ F32.to_Z (SDL_FRect.h (Layout.titleBar
       (layout (updateLayout (env_of scale_1_1 800 600) app16))))
     = Some 33
  /\ ~ titleBar_height_claim (env_of scale_1_1 800 600) app16.
Proof.
  assert (P : F32.ltb F32.zero scale_1_1 = true) by run.
  assert (E : F32.to_Z (SDL_FRect.h (Layout.titleBar
                (layout (updateLayout (env_of scale_1_1 800 600) app16))))
              = Some 33) by run.
  split; [exact P|]. split; [run|]. split; [run|]. split; [run|].
  split; [exact E|].
  intros C. specialize (C P). rewrite E in C.
  replace (ceil_mul 30 (SDL_GetWindowDisplayScale (env_of scale_1_1 800 600)))
    with 34 in C by run.
  discriminate C.
Qed.

(** The product under the ceiling is the rounded one.  At the binary32
    number nearest to 1.1 the product 30 * scale rounds to 33 exactly and
    the title bar is 33 high, although 30 * 9227469 / 2^23 is a little
    more than 33. *)
Lemma titleHeight_scale_1_1 :
  F32.mul (F32.of_int 30) scale_1_1 = F32.of_int 33
  /\ titleHeight scale_1_1 = 33
  /\ 33 * 2 ^ 23 < 30 * 9227469.
Proof. repeat split; run. Qed.

(** ** C6 *)

(** C6.  Two calls of [updateLayout] with the same scale, size in pixels and
    shadow textures produce the same layout, whatever the rest of the state
    is, field for field identical; and a second call with the same inputs
    changes nothing. *)
Theorem updateLayout_idempotent
  (scale : float) (w h : Z) (sh : Shadow.t)
  (thm thm' : SDL_SystemTheme) (l l' : Layout.t) (t t' : Theme.t)
  (a a' r r' : bool) :
  let env := mkEnv scale (w, h) thm in
  let env' := mkEnv scale (w, h) thm' in
  let st := mkApp l sh t a r in
  let st' := mkApp l' sh t' a' r' in
  layout (updateLayout env st) = layout (updateLayout env' st')
  /\ updateLayout env (updateLayout env st) = updateLayout env st.
Proof. split; reflexivity. Qed.

(** ** C7 *)

(** C7.  At scale 1.0 in a window of 800 x 600 pixels with shadow margins of
    16, the background is (16, 16, 768, 568), the tolerances are 2 and 8,
    the left band is exactly [14, 18], the cursor (8, 8) passes none of the
    four band tests and is not in the title bar, and [hitTest] returns
    Normal. *)
Theorem hitTest_8_8_normal :
  let l := layout_800x600 in
  let area := SDL_Point.mk 8 8 in
  rect_exact (Layout.window l) = Some (0, 0, 800, 600)
  /\ rect_exact (Layout.background l) = Some (16, 16, 768, 568)
  /\ F32.to_int (SDL_FPoint.x (cursor l area)) = Some 8
  /\ F32.to_int (SDL_FPoint.y (cursor l area)) = Some 8
  /\ edgeTol l = Some 2 /\ cornerTol l = Some 8
  /\ (forall x, Z.abs x < 2 ^ 23 ->
        within (F32.of_int x) (left_edge l) (F32.of_int 2) = true
        <-> 14 <= x <= 18)
  /\ within (F32.of_int 8) (left_edge l) (F32.of_int 2) = false
  /\ within (F32.of_int 8) (right_edge l) (F32.of_int 2) = false
  /\ within (F32.of_int 8) (top_edge l) (F32.of_int 2) = false
  /\ within (F32.of_int 8) (bottom_edge l) (F32.of_int 2) = false
  /\ SDL_PointInRectFloat (cursor l area) (Layout.titleBar l) = false
  /\ hitTest l area = Some SDL_HITTEST_NORMAL.
Proof.
  cbn zeta.
  repeat match goal with |- (_ = _) /\ _ => split; [run|] end.
  split; [|repeat split; run].
  intros x Hx.
  replace (left_edge layout_800x600) with (F32.of_int 16) by run.
  rewrite within_of_int by lia.
  rewrite andb_true_iff, !Z.leb_le. lia.
Qed.

(** ** C8 *)

(** C8.  Every call of [updateLayout] sets [windowShouldBeRedrawn]; it does
    so too when the flag had been cleared by a redraw and the call
    computes the layout that is already there. *)
Theorem updateLayout_marks_dirty (env : Env) (st : App) :
  windowShouldBeRedrawn (updateLayout env st) = true
  /\ (let st' := redraw (updateLayout env st) in
      windowShouldBeRedrawn st' = false
      /\ layout (updateLayout env st') = layout st'
      /\ windowShouldBeRedrawn (updateLayout env st') = true).
Proof.
  cbn zeta. rewrite !updateLayout_dirty. repeat split.
  unfold updateLayout. destruct (SDL_GetWindowSizeInPixels env). reflexivity.
Qed.

(** ** C9 *)

(** C9.  An event whose type is none of quit, window-exposed,
    pixel-size-changed, display-scale-changed and system-theme-changed
    leaves the whole state as it is. *)
Theorem handleEvent_other_unchanged
  (env : Env) (event : SDL_EventType) (st : App) :
  event <> SDL_EVENT_QUIT ->
  event <> SDL_EVENT_WINDOW_EXPOSED ->
  event <> SDL_EVENT_WINDOW_PIXEL_SIZE_CHANGED ->
  event <> SDL_EVENT_WINDOW_DISPLAY_SCALE_CHANGED ->
  event <> SDL_EVENT_SYSTEM_THEME_CHANGED ->
  handleEvent env event st = st.
Proof.
  intros H1 H2 H3 H4 H5. destruct event; try congruence. reflexivity.
Qed.

Lemma handleEvent_other_unchanged_witness :
  handleEvent (env_of scale_2_0 1024 768) (SDL_EVENT_other 1024) app16 = app16.
Proof.
  apply (handleEvent_other_unchanged (env_of scale_2_0 1024 768)
           (SDL_EVENT_other 1024) app16); discriminate.
Defined.

(** ** C10 *)

(** C10.  In every state that the program reaches, whatever SDL answers,
    [theme.light] and [theme.dark] are the constants of the initialiser;
    no event changes either of them. *)
Theorem palettes_constant :
  (forall sh st,
      reachable (fun _ => True) sh st ->
      Theme.light (theme st) = theme_light
      /\ Theme.dark (theme st) = theme_dark)
  /\ (forall env event st,
         Theme.light (theme (handleEvent env event st))
         = Theme.light (theme st)
         /\ Theme.dark (theme (handleEvent env event st))
            = Theme.dark (theme st)).
Proof.
  split; [|exact handleEvent_palettes].
  intros sh st Hr. induction Hr as [env _|env event st _ Hr IH _].
  - unfold main_init, updateLayout.
    destruct (SDL_GetWindowSizeInPixels env). split; reflexivity.
  - unfold main_loop.
    match goal with
    | |- context [handleEvent env event ?s] =>
        destruct (handleEvent_palettes env event s) as [L D]
    end.
    rewrite L, D, (proj2 (proj2 (draw_frame st))). exact IH.
Qed.

Lemma palettes_constant_witness :
  Theme.light (theme (main_loop (env_of scale_1_0 800 600)
                        SDL_EVENT_SYSTEM_THEME_CHANGED
                        (main_init (env_of scale_1_0 800 600) shadow16)))
  = theme_light
  /\ Theme.dark (theme (main_loop (env_of scale_1_0 800 600)
                          SDL_EVENT_SYSTEM_THEME_CHANGED
                          (main_init (env_of scale_1_0 800 600) shadow16)))
     = theme_dark.
Proof.
  apply (proj1 palettes_constant shadow16).
  apply reach_loop; [exact I| |reflexivity]. apply reach_init. exact I.
Defined.

(** * Further properties of the layout engine *)

(** The exact coordinates of a rectangle of integers below [2^24]. *)
Lemma rect_exact_rectZ (x y w h : Z) :
  Z.abs x < 2 ^ 24 -> Z.abs y < 2 ^ 24 -> Z.abs w < 2 ^ 24 ->
  Z.abs h < 2 ^ 24 ->
  rect_exact (rectZ x y w h) = Some (x, y, w, h).
Proof.
  intros Hx Hy Hw Hh. unfold rect_exact, rectZ.
  cbn [SDL_FRect.x SDL_FRect.y SDL_FRect.w SDL_FRect.h].
  rewrite !to_Z_of_int by assumption. reflexivity.
Qed.

(** The exact rectangles of the layout. *)
Lemma updateLayout_rects (env : Env) (st : App) :
  env_ok (shadow st) env ->
  let l := layout (updateLayout env st) in
  rect_exact (Layout.background l) = Some (background_exact env (shadow st))
  /\ rect_exact (Layout.titleBar l) = Some (titleBar_exact env (shadow st)).
Proof.
  intros Hok. cbn zeta.
  pose proof (border_bounds env st Hok) as Bf.
  pose proof (titleHeight_bounds env st Hok) as Bt.
  rewrite (updateLayout_exact env st Hok).
  destruct Hok as (Hs & Hw & Hh & Hl & Hb).
  unfold background_exact, titleBar_exact, rect_exact, rectZ.
  destruct (SDL_GetWindowSizeInPixels env) as [w h]. cbn [fst snd] in *.
  cbn [Layout.background Layout.titleBar SDL_FRect.x SDL_FRect.y SDL_FRect.w
       SDL_FRect.h].
  rewrite !to_Z_of_int by lia. split; reflexivity.
Qed.

(** The window rectangle of the new layout. *)
Lemma updateLayout_window (env : Env) (st : App) :
  env_ok (shadow st) env ->
  Layout.window (layout (updateLayout env st))
  = rectZ 0 0 (fst (SDL_GetWindowSizeInPixels env))
          (snd (SDL_GetWindowSizeInPixels env)).
Proof.
  intros Hok. rewrite (updateLayout_exact env st Hok). reflexivity.
Qed.

(** [updateLayout] does not touch [appShouldExit]. *)
Lemma updateLayout_exit (env : Env) (st : App) :
  appShouldExit (updateLayout env st) = appShouldExit st.
Proof.
  unfold updateLayout. destruct (SDL_GetWindowSizeInPixels env). reflexivity.
Qed.

(** The layout of a reachable state is the result of one [updateLayout]. *)
Lemma reachable_layout (ok : Env -> Prop) (sh : Shadow.t) (st : App) :
  reachable ok sh st ->
  exists env, ok env
              /\ forall st', shadow st' = sh ->
                             layout st = layout (updateLayout env st').
Proof.
  induction 1 as [env Hok|env event st Hok Hr IH Hx].
  - exists env. split; [exact Hok|]. intros st' Hs.
    unfold main_init. cbn [layout].
    apply updateLayout_layout_indep. symmetry. exact Hs.
  - unfold main_loop. destruct (draw_frame st) as (Dl & Ds & _).
    match goal with
    | |- context [handleEvent env event ?s] =>
        destruct (handleEvent_layout env event s) as [E|E]
    end.
    + destruct IH as (env0 & Hok0 & IH). exists env0. split; [exact Hok0|].
      intros st' Hs. rewrite E, Dl. apply IH. exact Hs.
    + exists env. split; [exact Hok|]. intros st' Hs. rewrite E.
      apply updateLayout_layout_indep.
      rewrite Ds, (reachable_shadow _ _ _ Hr). symmetry. exact Hs.
Qed.

(** The palettes of a reachable state are the constants. *)
Lemma reachable_palettes (ok : Env -> Prop) (sh : Shadow.t) (st : App) :
  reachable ok sh st ->
  Theme.light (theme st) = theme_light /\ Theme.dark (theme st) = theme_dark.
Proof.
  induction 1 as [env _|env event st _ Hr IH _].
  - unfold main_init, updateLayout.
    destruct (SDL_GetWindowSizeInPixels env). split; reflexivity.
  - unfold main_loop.
    match goal with
    | |- context [handleEvent env event ?s] =>
        destruct (handleEvent_palettes env event s) as [L D]
    end.
    rewrite L, D, (proj2 (proj2 (draw_frame st))). exact IH.
Qed.

(** X1.  In the exact range the border that [updateLayout] leaves around
    the title bar and the client area is [floor(scale)] wide on every
    side: the title bar is inset by it from the left, top and right edges
    of the background, the client area from its left, right and bottom
    edges, and the gap between title bar and client area is as wide.  The
    equations hold also for windows too small for the client area to have
    a positive height. *)
Theorem updateLayout_uniform_border (env : Env) (st : App) :
  env_ok (shadow st) env ->
  exists bx by_ bw bh tx ty tw th cx cy cw ch,
    rect_exact (Layout.background (layout (updateLayout env st)))
    = Some (bx, by_, bw, bh)
    /\ rect_exact (Layout.titleBar (layout (updateLayout env st)))
       = Some (tx, ty, tw, th)
    /\ rect_exact (Layout.clientArea (layout (updateLayout env st)))
       = Some (cx, cy, cw, ch)
    /\ tx - bx = border (SDL_GetWindowDisplayScale env)
    /\ ty - by_ = border (SDL_GetWindowDisplayScale env)
    /\ (bx + bw) - (tx + tw) = border (SDL_GetWindowDisplayScale env)
    /\ cy - (ty + th) = border (SDL_GetWindowDisplayScale env)
    /\ cx - bx = border (SDL_GetWindowDisplayScale env)
    /\ (bx + bw) - (cx + cw) = border (SDL_GetWindowDisplayScale env)
    /\ (by_ + bh) - (cy + ch) = border (SDL_GetWindowDisplayScale env).
Proof.
  intros Hok.
  pose proof (border_bounds env st Hok) as Bf.
  pose proof (titleHeight_bounds env st Hok) as Bt.
  rewrite (updateLayout_exact env st Hok).
  destruct Hok as (Hs & Hw & Hh & Hl & Hb).
  cbn [Layout.background Layout.titleBar Layout.clientArea].
  do 12 eexists.
  rewrite !rect_exact_rectZ by lia.
  split; [reflexivity|]. split; [reflexivity|]. split; [reflexivity|].
  repeat split; lia.
Qed.

Lemma updateLayout_uniform_border_witness :
  exists bx by_ bw bh tx ty tw th cx cy cw ch,
    rect_exact (Layout.background
                  (layout (updateLayout (env_of scale_1_5 800 60) app16)))
    = Some (bx, by_, bw, bh)
    /\ rect_exact (Layout.titleBar
                     (layout (updateLayout (env_of scale_1_5 800 60) app16)))
       = Some (tx, ty, tw, th)
    /\ rect_exact (Layout.clientArea
                     (layout (updateLayout (env_of scale_1_5 800 60) app16)))
       = Some (cx, cy, cw, ch)
    /\ tx - bx = 1 /\ ty - by_ = 1 /\ (bx + bw) - (tx + tw) = 1
    /\ cy - (ty + th) = 1 /\ cx - bx = 1 /\ (bx + bw) - (cx + cw) = 1
    /\ (by_ + bh) - (cy + ch) = 1.
Proof.
  apply (updateLayout_uniform_border (env_of scale_1_5 800 60) app16).
  repeat split; try run; cbn; lia.
Defined.

(** X2.  The layout is never updated in part: in every state that the
    program reaches, the whole layout (all four rectangles and the scale)
    is the result of one call of [updateLayout] on one answer of SDL, for
    the shadow textures loaded at the start; calling [updateLayout] again
    on that answer would leave the layout as it is. *)
Theorem layout_recomputed_wholesale (ok : Env -> Prop) (sh : Shadow.t)
  (st : App) :
  reachable ok sh st ->
  exists env,
    ok env
    /\ layout st = layout (updateLayout env st)
    /\ forall st', shadow st' = sh ->
                   layout st = layout (updateLayout env st').
Proof.
  intros Hr.
  destruct (reachable_layout ok sh st Hr) as (env & Hok & Hl).
  exists env. split; [exact Hok|]. split; [|exact Hl].
  apply Hl. exact (reachable_shadow ok sh st Hr).
Qed.

Lemma layout_recomputed_wholesale_witness :
  exists env,
    env_ok shadow16 env
    /\ layout (main_loop (env_of scale_1_0 800 600) SDL_EVENT_WINDOW_EXPOSED
                 (main_loop (env_of scale_1_5 800 600)
                    SDL_EVENT_WINDOW_DISPLAY_SCALE_CHANGED
                    (main_init (env_of scale_1_0 800 600) shadow16)))
       = layout (updateLayout env
                   (main_loop (env_of scale_1_0 800 600)
                      SDL_EVENT_WINDOW_EXPOSED
                      (main_loop (env_of scale_1_5 800 600)
                         SDL_EVENT_WINDOW_DISPLAY_SCALE_CHANGED
                         (main_init (env_of scale_1_0 800 600) shadow16))))
    /\ forall st', shadow st' = shadow16 ->
         layout (main_loop (env_of scale_1_0 800 600) SDL_EVENT_WINDOW_EXPOSED
                   (main_loop (env_of scale_1_5 800 600)
                      SDL_EVENT_WINDOW_DISPLAY_SCALE_CHANGED
                      (main_init (env_of scale_1_0 800 600) shadow16)))
         = layout (updateLayout env st').
Proof.
  assert (H1 : env_ok shadow16 (env_of scale_1_0 800 600))
    by (repeat split; try run; cbn; lia).
  assert (H2 : env_ok shadow16 (env_of scale_1_5 800 600))
    by (repeat split; try run; cbn; lia).
  apply (layout_recomputed_wholesale (env_ok shadow16) shadow16).
  apply reach_loop; [exact H1| |reflexivity].
  apply reach_loop; [exact H2| |reflexivity].
  apply reach_init. exact H1.
Defined.

(** * The hit classifier over exact numbers *)

(** The tolerances at a scale in the exact range. *)
Lemma tolerances_bounds (l : Layout.t) (e c : Z) :
  scale_ok (Layout.scale l) ->
  edgeTol l = Some e -> cornerTol l = Some c ->
  0 <= e <= 2 ^ 16 /\ 0 <= c <= 2 ^ 18.
Proof.
  intros Hs He Hc.
  destruct (ceilf_mul_scale 2 2 _ ltac:(lia) ltac:(lia) Hs) as [E2 B2].
  destruct (ceilf_mul_scale 8 4 _ ltac:(lia) ltac:(lia) Hs) as [E8 B8].
  change (2 ^ (14 + 2)) with (2 ^ 16) in B2.
  change (2 ^ (14 + 4)) with (2 ^ 18) in B8.
  unfold edgeTol in He. unfold cornerTol in Hc.
  rewrite E2, to_int_of_int in He by lia.
  rewrite E8, to_int_of_int in Hc by lia.
  injection He as <-. injection Hc as <-. split; assumption.
Qed.

(** The title-bar test on the scaled cursor is the test on exact numbers. *)
Lemma PointInRect_exact (pos : SDL_FPoint.t) (x y w h : Z) :
  F32.valid (SDL_FPoint.x pos) = true -> is_finite (SDL_FPoint.x pos) = true ->
  F32.valid (SDL_FPoint.y pos) = true -> is_finite (SDL_FPoint.y pos) = true ->
  Z.abs x < 2 ^ 23 -> Z.abs y < 2 ^ 23 -> Z.abs w < 2 ^ 23 -> Z.abs h < 2 ^ 23 ->
  SDL_PointInRectFloat pos (rectZ x y w h) = point_in_rect pos (x, y, w, h).
Proof.
  intros Vx Fx Vy Fy Hx Hy Hw Hh.
  assert (2 ^ 24 = 2 * 2 ^ 23) by reflexivity.
  unfold SDL_PointInRectFloat, point_in_rect, rectZ, F32.geb.
  cbn [SDL_FRect.x SDL_FRect.y SDL_FRect.w SDL_FRect.h].
  rewrite !add_of_int by lia.
  change SFleb with F32.leb.
  destruct (leb_int_float x (SDL_FPoint.x pos) ltac:(lia) Vx Fx) as (A1 & _).
  destruct (leb_int_float (x + w) (SDL_FPoint.x pos) ltac:(lia) Vx Fx)
    as (_ & A2 & _).
  destruct (leb_int_float y (SDL_FPoint.y pos) ltac:(lia) Vy Fy) as (A3 & _).
  destruct (leb_int_float (y + h) (SDL_FPoint.y pos) ltac:(lia) Vy Fy)
    as (_ & A4 & _).
  rewrite A1, A2, A3, A4. reflexivity.
Qed.

(** In a layout computed in the exact range [hitTest] decides as the
    tests over the integers do. *)
Lemma hitTest_exact_range (env : Env) (st : App) (area : SDL_Point.t)
  (x y e c : Z) :
  env_ok (shadow st) env ->
  Z.abs (SDL_Point.x area) < 2 ^ 24 -> Z.abs (SDL_Point.y area) < 2 ^ 24 ->
  let l := layout (updateLayout env st) in
  F32.to_int (SDL_FPoint.x (cursor l area)) = Some x ->
  F32.to_int (SDL_FPoint.y (cursor l area)) = Some y ->
  edgeTol l = Some e -> cornerTol l = Some c ->
  Z.abs x < 2 ^ 23 -> Z.abs y < 2 ^ 23 ->
  hitTest l area
  = Some (hitTest_exact (background_exact env (shadow st))
                        (titleBar_exact env (shadow st))
                        (cursor l area) x y e c).
Proof.
  intros Hok Hax Hay l Ex Ey Ee Ec Hx Hy.
  assert (Hs : scale_ok (Layout.scale l)).
  { unfold l. rewrite (updateLayout_exact env st Hok). exact (proj1 Hok). }
  destruct (tolerances_bounds l e c Hs Ee Ec) as [Be Bc].
  rewrite (hitTest_defined l area x y e c Ex Ey Ee Ec).
  f_equal. unfold hitTest_branches.
  destruct (band_tests_exact env st x y e c Hok Hx Hy ltac:(lia) ltac:(lia))
    as (T1 & T2 & T3 & T4 & T5 & T6).
  fold l in T1, T2, T3, T4, T5, T6.
  rewrite T1, T2, T3, T4, T5, T6.
  pose proof (border_bounds env st Hok) as Bf.
  pose proof (titleHeight_bounds env st Hok) as Bt.
  assert (Et : SDL_PointInRectFloat (cursor l area) (Layout.titleBar l)
               = point_in_rect (cursor l area) (titleBar_exact env (shadow st))).
  { destruct (mul_scale_finite (SDL_Point.x area) _ Hax Hs) as [Vx Fx].
    destruct (mul_scale_finite (SDL_Point.y area) _ Hay Hs) as [Vy Fy].
    unfold l at 2. rewrite (updateLayout_exact env st Hok).
    cbn [Layout.titleBar].
    destruct Hok as (_ & Hw & Hh & Hl & Hb).
    unfold titleBar_exact.
    destruct (SDL_GetWindowSizeInPixels env) as [w h]. cbn [fst snd] in *.
    apply PointInRect_exact; try assumption; lia. }
  rewrite Et.
  unfold hitTest_exact, background_exact, in_band.
  destruct (SDL_GetWindowSizeInPixels env) as [w h]. cbn [fst snd].
  set (left_w := SDL_Texture.w (Shadow.left (shadow st))).
  set (bottom_h := SDL_Texture.h (Shadow.bottom (shadow st))).
  replace (left_w + (w - 2 * left_w)) with (w - left_w) by lia.
  replace (bottom_h + (h - 2 * bottom_h)) with (h - bottom_h) by lia.
  reflexivity.
Qed.

(** The scaled cursor in a layout of [updateLayout]. *)
Lemma cursor_floor_ceil (env : Env) (st : App) (area : SDL_Point.t) (x y : Z) :
  env_ok (shadow st) env ->
  let pos := cursor (layout (updateLayout env st)) area in
  F32.to_int (SDL_FPoint.x pos) = Some x -> F32.to_int (SDL_FPoint.y pos) = Some y ->
  (F32.Zfloor (SDL_FPoint.x pos) <= x <= F32.Zceil (SDL_FPoint.x pos)
   /\ F32.Zceil (SDL_FPoint.x pos) <= F32.Zfloor (SDL_FPoint.x pos) + 1)
  /\ (F32.Zfloor (SDL_FPoint.y pos) <= y <= F32.Zceil (SDL_FPoint.y pos)
      /\ F32.Zceil (SDL_FPoint.y pos) <= F32.Zfloor (SDL_FPoint.y pos) + 1).
Proof.
  intros Hok pos Ex Ey.
  destruct (to_int_floor_ceil _ _ Ex) as (A1 & A2 & _).
  destruct (to_int_floor_ceil _ _ Ey) as (B1 & B2 & _).
  repeat split; lia.
Qed.

(** The corner tolerance is defined at every scale in the range. *)
Lemma cornerTol_defined (l : Layout.t) :
  scale_ok (Layout.scale l) -> exists c, cornerTol l = Some c.
Proof.
  intros Hs.
  destruct (ceilf_mul_scale 8 4 _ ltac:(lia) ltac:(lia) Hs) as [E8 B8].
  change (2 ^ (14 + 4)) with (2 ^ 18) in B8.
  eexists. unfold cornerTol. rewrite E8. apply to_int_of_int. lia.
Qed.

(** The two tolerances at a scale of at least 1. *)
Lemma tolerances_ge_1 (l : Layout.t) :
  scale_ok (Layout.scale l) -> F32.leb (F32.of_int 1) (Layout.scale l) = true ->
  exists e c,
    edgeTol l = Some e /\ cornerTol l = Some c
    /\ e = - ((- (2 * num (Layout.scale l))) / den (Layout.scale l))
    /\ c = - ((- (8 * num (Layout.scale l))) / den (Layout.scale l))
    /\ 1 <= border (Layout.scale l)
    /\ 2 * border (Layout.scale l) <= e <= 2 * border (Layout.scale l) + 2
    /\ 8 * border (Layout.scale l) <= c <= 8 * border (Layout.scale l) + 8
    /\ e <= c <= 4 * e.
Proof.
  intros Hs G.
  destruct (ceilf_pow2_scale 1 _ ltac:(lia) Hs G) as [E2 B2].
  destruct (ceilf_pow2_scale 3 _ ltac:(lia) Hs G) as [E8 B8].
  change (2 ^ 1) with 2 in *. change (2 ^ 3) with 8 in *.
  eexists. eexists. split; [exact E2|]. split; [exact E8|].
  split; [reflexivity|]. split; [reflexivity|].
  assert (F1 : 1 <= border (Layout.scale l)).
  { destruct (scale_ge_1_inv _ Hs G) as (m & e & -> & Hb & Hm & He).
    unfold border, F32.Zfloor. cbn [cond_Zopp].
    replace (0 <=? e) with false by (symmetry; apply Z.leb_gt; lia).
    apply Z.div_le_lower_bound; [apply Z.pow_pos_nonneg; lia|].
    assert (2 ^ (- e) <= 2 ^ 23) by (apply Z.pow_le_mono_r; lia). lia. }
  split; [exact F1|]. unfold border in *.
  split; [exact B2|]. split; [exact B8|].
  pose proof (den_pos (Layout.scale l)) as D.
  rewrite Zfloor_num_den in *.
  set (n := num (Layout.scale l)) in *.
  set (d := den (Layout.scale l)) in *.
  pose proof (Z.div_mod n d ltac:(lia)) as D0.
  pose proof (Z.mod_pos_bound n d D) as B0.
  pose proof (Z.div_mod (- (2 * n)) d ltac:(lia)) as D1.
  pose proof (Z.mod_pos_bound (- (2 * n)) d D) as B1.
  pose proof (Z.div_mod (- (8 * n)) d ltac:(lia)) as D2.
  pose proof (Z.mod_pos_bound (- (8 * n)) d D) as B3.
  split; nia.
Qed.

(** X3.  In a layout that [updateLayout] computes in the exact range,
    and for a cursor whose coordinates are below [2^24] and whose scaled
    coordinates are below [2^23] in absolute value, the [float]
    comparisons of [hitTest] lose nothing: its result
    is the one of the same tests over the integers, on the exact
    coordinates of the background and of the title bar; the title-bar test
    compares the exact, untruncated scaled cursor, with all four bounds
    included. *)
Theorem hitTest_decides_exactly (env : Env) (st : App) (area : SDL_Point.t)
  (x y e c : Z) :
  env_ok (shadow st) env ->
  Z.abs (SDL_Point.x area) < 2 ^ 24 -> Z.abs (SDL_Point.y area) < 2 ^ 24 ->
  F32.to_int (SDL_FPoint.x (cursor (layout (updateLayout env st)) area)) = Some x ->
  F32.to_int (SDL_FPoint.y (cursor (layout (updateLayout env st)) area)) = Some y ->
  edgeTol (layout (updateLayout env st)) = Some e ->
  cornerTol (layout (updateLayout env st)) = Some c ->
  Z.abs x < 2 ^ 23 -> Z.abs y < 2 ^ 23 ->
  rect_exact (Layout.background (layout (updateLayout env st)))
  = Some (background_exact env (shadow st))
  /\ rect_exact (Layout.titleBar (layout (updateLayout env st)))
     = Some (titleBar_exact env (shadow st))
  /\ hitTest (layout (updateLayout env st)) area
     = Some (hitTest_exact (background_exact env (shadow st))
                           (titleBar_exact env (shadow st))
                           (cursor (layout (updateLayout env st)) area)
                           x y e c).
Proof.
  intros Hok Hax Hay Ex Ey Ee Ec Hx Hy.
  destruct (updateLayout_rects env st Hok) as [R1 R2].
  split; [exact R1|]. split; [exact R2|].
  apply hitTest_exact_range; assumption.
Qed.

Lemma hitTest_decides_exactly_witness :
  hitTest (layout (updateLayout (env_of scale_1_5 800 600) app16))
          (SDL_Point.mk 100 30)
  = Some (hitTest_exact (16, 16, 768, 568) (17, 17, 766, 45)
            (cursor (layout (updateLayout (env_of scale_1_5 800 600) app16))
                    (SDL_Point.mk 100 30))
            150 45 3 12).
Proof.
  assert (H : env_ok (shadow app16) (env_of scale_1_5 800 600))
    by (repeat split; try run; cbn; lia).
  apply (hitTest_decides_exactly (env_of scale_1_5 800 600) app16
           (SDL_Point.mk 100 30) 150 45 3 12 H);
    try run; cbn; lia.
Defined.

(** X4.  At every scale from 1 to 4096 the products [2 * scale] and
    [8 * scale] are exact, so the tolerances of [hitTest] are the integer
    ceilings of twice and of eight times the scale; the edge tolerance is
    between 2 * floor(scale) and 2 * floor(scale) + 2, the corner
    tolerance between 8 * floor(scale) and 8 * floor(scale) + 8, and
    2 <= edgeTol <= cornerTol <= 4 * edgeTol. *)
Theorem tolerances_scaled (l : Layout.t) :
  scale_ok (Layout.scale l) -> F32.leb (F32.of_int 1) (Layout.scale l) = true ->
  exists e c,
    edgeTol l = Some e /\ cornerTol l = Some c
    /\ e = - ((- (2 * num (Layout.scale l))) / den (Layout.scale l))
    /\ c = - ((- (8 * num (Layout.scale l))) / den (Layout.scale l))
    /\ 2 * border (Layout.scale l) <= e <= 2 * border (Layout.scale l) + 2
    /\ 8 * border (Layout.scale l) <= c <= 8 * border (Layout.scale l) + 8
    /\ 2 <= e <= c /\ c <= 4 * e.
Proof.
  intros Hs G.
  destruct (tolerances_ge_1 l Hs G)
    as (e & c & E & C & Ve & Vc & F & Be & Bc & R).
  exists e, c. repeat split; try assumption; lia.
Qed.

Lemma tolerances_scaled_witness :
  exists e c,
    edgeTol (layout (updateLayout (env_of scale_1_5 800 600) app16)) = Some e
    /\ cornerTol (layout (updateLayout (env_of scale_1_5 800 600) app16))
       = Some c
    /\ e = - ((- (2 * 12582912)) / 2 ^ 23)
    /\ c = - ((- (8 * 12582912)) / 2 ^ 23)
    /\ 2 * 1 <= e <= 2 * 1 + 2 /\ 8 * 1 <= c <= 8 * 1 + 8
    /\ 2 <= e <= c /\ c <= 4 * e.
Proof.
  apply (tolerances_scaled
           (layout (updateLayout (env_of scale_1_5 800 600) app16))).
  - repeat split; run.
  - run.
Defined.

(** X5.  At a scale of at least 1, a cursor whose truncated coordinates
    lie strictly between the left and right bands and strictly between the
    top and bottom bands is classified by its height alone: Draggable when
    the scaled y is at most the lower edge of the title bar (the edge
    included), Normal below it.  So the title bar is draggable over its
    whole width, and the client area is Normal. *)
Theorem hitTest_between_bands (env : Env) (st : App) (area : SDL_Point.t)
  (x y e : Z) :
  env_ok (shadow st) env ->
  F32.leb (F32.of_int 1) (SDL_GetWindowDisplayScale env) = true ->
  Z.abs (SDL_Point.x area) < 2 ^ 24 -> Z.abs (SDL_Point.y area) < 2 ^ 24 ->
  F32.to_int (SDL_FPoint.x (cursor (layout (updateLayout env st)) area)) = Some x ->
  F32.to_int (SDL_FPoint.y (cursor (layout (updateLayout env st)) area)) = Some y ->
  edgeTol (layout (updateLayout env st)) = Some e ->
  let w := fst (SDL_GetWindowSizeInPixels env) in
  let h := snd (SDL_GetWindowSizeInPixels env) in
  let left_w := SDL_Texture.w (Shadow.left (shadow st)) in
  let bottom_h := SDL_Texture.h (Shadow.bottom (shadow st)) in
  let scale := SDL_GetWindowDisplayScale env in
  left_w + e < x < w - left_w - e ->
  bottom_h + e < y < h - bottom_h - e ->
  hitTest (layout (updateLayout env st)) area
  = Some (if F32.Zceil (SDL_FPoint.y (cursor (layout (updateLayout env st)) area))
             <=? bottom_h + border scale + titleHeight scale
          then SDL_HITTEST_DRAGGABLE else SDL_HITTEST_NORMAL).
Proof.
  intros Hok G Hax Hay Ex Ey Ee w h left_w bottom_h scale Hx Hy.
  assert (Hl : Layout.scale (layout (updateLayout env st)) = scale).
  { rewrite (updateLayout_exact env st Hok). reflexivity. }
  assert (Hs : scale_ok (Layout.scale (layout (updateLayout env st)))).
  { rewrite Hl. exact (proj1 Hok). }
  destruct (tolerances_ge_1 _ Hs ltac:(rewrite Hl; exact G))
    as (e' & c & Ee' & Ec & _ & _ & F1 & Be & Bc & R).
  rewrite Ee in Ee'. injection Ee' as <-. rewrite Hl in *.
  pose proof (border_bounds env st Hok) as Bf.
  destruct (cursor_floor_ceil env st area x y Hok Ex Ey)
    as ((X1 & X2) & (Y1 & Y2)).
  assert (Rx : Z.abs x < 2 ^ 23 /\ Z.abs y < 2 ^ 23).
  { destruct Hok as (_ & Hw & Hh & Hlw & Hbh).
    subst w h left_w bottom_h.
    assert (2 ^ 23 = 2 * 2 ^ 22) by reflexivity. lia. }
  rewrite (hitTest_exact_range env st area x y e c Hok Hax Hay Ex Ey Ee Ec
             (proj1 Rx) (proj2 Rx)).
  f_equal. unfold hitTest_exact, background_exact, titleBar_exact,
    point_in_rect, in_band.
  subst w h left_w bottom_h scale.
  destruct (SDL_GetWindowSizeInPixels env) as [w h]. cbn [fst snd] in *.
  set (left_w := SDL_Texture.w (Shadow.left (shadow st))) in *.
  set (bottom_h := SDL_Texture.h (Shadow.bottom (shadow st))) in *.
  set (f := border (SDL_GetWindowDisplayScale env)) in *.
  set (pos := cursor (layout (updateLayout env st)) area) in *.
  replace ((left_w - e <=? x) && (x <=? left_w + e)) with false
    by (symmetry; apply andb_false_iff; rewrite Z.leb_gt, Z.leb_gt; lia).
  replace ((left_w + (w - 2 * left_w) - e <=? x)
           && (x <=? left_w + (w - 2 * left_w) + e)) with false
    by (symmetry; apply andb_false_iff; rewrite Z.leb_gt, Z.leb_gt; lia).
  replace ((bottom_h - e <=? y) && (y <=? bottom_h + e)) with false
    by (symmetry; apply andb_false_iff; rewrite Z.leb_gt, Z.leb_gt; lia).
  replace ((bottom_h + (h - 2 * bottom_h) - e <=? y)
           && (y <=? bottom_h + (h - 2 * bottom_h) + e)) with false
    by (symmetry; apply andb_false_iff; rewrite Z.leb_gt, Z.leb_gt; lia).
  replace (left_w + f <=? F32.Zfloor (SDL_FPoint.x pos)) with true
    by (symmetry; apply Z.leb_le; lia).
  replace (F32.Zceil (SDL_FPoint.x pos) <=? left_w + f + (w - 2 * left_w - 2 * f))
    with true by (symmetry; apply Z.leb_le; lia).
  replace (bottom_h + f <=? F32.Zfloor (SDL_FPoint.y pos)) with true
    by (symmetry; apply Z.leb_le; lia).
  cbn [andb]. reflexivity.
Qed.

Lemma hitTest_between_bands_witness :
  hitTest (layout (updateLayout (env_of scale_1_5 800 600) app16))
          (SDL_Point.mk 100 30)
  = Some SDL_HITTEST_DRAGGABLE
  /\ hitTest (layout (updateLayout (env_of scale_1_5 800 600) app16))
             (SDL_Point.mk 100 42)
     = Some SDL_HITTEST_NORMAL.
Proof.
  assert (H : env_ok (shadow app16) (env_of scale_1_5 800 600))
    by (repeat split; try run; cbn; lia).
  split.
  - apply (hitTest_between_bands (env_of scale_1_5 800 600) app16
             (SDL_Point.mk 100 30) 150 45 3 H);
      try run; cbn; lia.
  - apply (hitTest_between_bands (env_of scale_1_5 800 600) app16
             (SDL_Point.mk 100 42) 150 63 3 H);
      try run; cbn; lia.
Defined.

(** X6.  In a window at least as wide as its two shadow margins, a cursor
    (coordinates below [2^24], scaled coordinates below [2^23] in absolute
    value) left of the left band or right of the right band is
    never Draggable and never a left, right or corner region: it is Top or
    Bottom when its y lies in the band of the top or bottom edge, which
    reach across the margins, and Normal otherwise. *)
Theorem hitTest_beside_bands (env : Env) (st : App) (area : SDL_Point.t)
  (x y e : Z) :
  env_ok (shadow st) env ->
  Z.abs (SDL_Point.x area) < 2 ^ 24 -> Z.abs (SDL_Point.y area) < 2 ^ 24 ->
  F32.to_int (SDL_FPoint.x (cursor (layout (updateLayout env st)) area)) = Some x ->
  F32.to_int (SDL_FPoint.y (cursor (layout (updateLayout env st)) area)) = Some y ->
  edgeTol (layout (updateLayout env st)) = Some e ->
  Z.abs x < 2 ^ 23 -> Z.abs y < 2 ^ 23 ->
  let w := fst (SDL_GetWindowSizeInPixels env) in
  let h := snd (SDL_GetWindowSizeInPixels env) in
  let left_w := SDL_Texture.w (Shadow.left (shadow st)) in
  let bottom_h := SDL_Texture.h (Shadow.bottom (shadow st)) in
  2 * left_w <= w ->
  x < left_w - e \/ w - left_w + e < x ->
  hitTest (layout (updateLayout env st)) area
  = Some (if in_band y bottom_h e then SDL_HITTEST_RESIZE_TOP
          else if in_band y (h - bottom_h) e then SDL_HITTEST_RESIZE_BOTTOM
          else SDL_HITTEST_NORMAL).
Proof.
  intros Hok Hax Hay Ex Ey Ee Hx Hy w h left_w bottom_h Hw Hout.
  assert (Hs : scale_ok (Layout.scale (layout (updateLayout env st)))).
  { rewrite (updateLayout_exact env st Hok). exact (proj1 Hok). }
  destruct (cornerTol_defined _ Hs) as [c Ec].
  destruct (tolerances_bounds _ e c Hs Ee Ec) as [Be Bc].
  pose proof (border_bounds env st Hok) as Bf.
  destruct (cursor_floor_ceil env st area x y Hok Ex Ey) as ((X1 & X2) & _).
  rewrite (hitTest_exact_range env st area x y e c Hok Hax Hay Ex Ey Ee Ec Hx Hy).
  f_equal. unfold hitTest_exact, background_exact, titleBar_exact,
    point_in_rect, in_band.
  subst w h left_w bottom_h.
  destruct (SDL_GetWindowSizeInPixels env) as [w h]. cbn [fst snd] in *.
  set (left_w := SDL_Texture.w (Shadow.left (shadow st))) in *.
  set (bottom_h := SDL_Texture.h (Shadow.bottom (shadow st))) in *.
  set (px := SDL_FPoint.x (cursor (layout (updateLayout env st)) area)) in *.
  replace ((left_w - e <=? x) && (x <=? left_w + e)) with false
    by (symmetry; apply andb_false_iff; rewrite Z.leb_gt, Z.leb_gt; lia).
  replace ((left_w + (w - 2 * left_w) - e <=? x)
           && (x <=? left_w + (w - 2 * left_w) + e)) with false
    by (symmetry; apply andb_false_iff; rewrite Z.leb_gt, Z.leb_gt; lia).
  replace ((left_w + border (SDL_GetWindowDisplayScale env) <=? F32.Zfloor px)
           && (F32.Zceil px <=? left_w + border (SDL_GetWindowDisplayScale env)
                            + (w - 2 * left_w
                               - 2 * border (SDL_GetWindowDisplayScale env))))
    with false
    by (symmetry; apply andb_false_iff; rewrite Z.leb_gt, Z.leb_gt; lia).
  cbn [andb].
  replace (bottom_h + (h - 2 * bottom_h)) with (h - bottom_h) by lia.
  reflexivity.
Qed.

Lemma hitTest_beside_bands_witness :
  hitTest (layout (updateLayout (env_of scale_1_5 800 600) app16))
          (SDL_Point.mk 4 200)
  = Some SDL_HITTEST_NORMAL.
Proof.
  assert (H : env_ok (shadow app16) (env_of scale_1_5 800 600))
    by (repeat split; try run; cbn; lia).
  apply (hitTest_beside_bands (env_of scale_1_5 800 600) app16
           (SDL_Point.mk 4 200) 6 300 3 H);
    try run; cbn; lia.
Defined.

(** * The update loop *)

(** One turn of the loop: the exit flag is raised by a quit event only and
    never lowered, and the redraw flag is left set exactly by the four
    events that change what is shown. *)
Lemma main_loop_flags (env : Env) (event : SDL_EventType) (st : App) :
  appShouldExit (main_loop env event st) = appShouldExit st || is_quit event
  /\ windowShouldBeRedrawn (main_loop env event st) = sets_redraw event.
Proof.
  unfold main_loop.
  destruct (windowShouldBeRedrawn st) eqn:R;
    destruct event; cbn [handleEvent is_quit sets_redraw redraw appShouldExit
                         windowShouldBeRedrawn];
    rewrite ?updateLayout_exit, ?updateLayout_dirty;
    cbn [redraw appShouldExit windowShouldBeRedrawn];
    rewrite ?orb_false_r, ?orb_true_r, ?R; split; reflexivity.
Qed.

(** One turn of the loop: the layout, the theme and the textures. *)
Lemma main_loop_state (env : Env) (event : SDL_EventType) (st : App) :
  layout (main_loop env event st)
  = (if is_layout_event event then layout (updateLayout env st) else layout st)
  /\ Theme.useLight (theme (main_loop env event st))
     = (if is_theme_event event then system_is_light env
        else Theme.useLight (theme st))
  /\ shadow (main_loop env event st) = shadow st.
Proof.
  unfold main_loop. destruct (draw_frame st) as (Dl & Ds & Dt).
  cbn zeta in Dl, Ds, Dt.
  set (st1 := if windowShouldBeRedrawn st then redraw st else st) in *.
  rewrite handleEvent_shadow, Ds.
  split; [|split; [|reflexivity]].
  - destruct event; cbn [handleEvent is_layout_event layout]; try exact Dl;
      apply updateLayout_layout_indep; exact Ds.
  - destruct event; cbn [handleEvent is_theme_event theme Theme.useLight];
      rewrite <- ?Dt; try reflexivity;
      unfold updateLayout; destruct (SDL_GetWindowSizeInPixels env);
      reflexivity.
Qed.

(** The flags when the loop is entered. *)
Lemma main_init_flags (env : Env) (sh : Shadow.t) :
  appShouldExit (main_init env sh) = false
  /\ windowShouldBeRedrawn (main_init env sh) = true.
Proof.
  unfold main_init. cbn [appShouldExit windowShouldBeRedrawn].
  rewrite updateLayout_exit, updateLayout_dirty. split; reflexivity.
Qed.

(** The last event of a kind, after one more event. *)
Lemma last_env_snoc (kind : SDL_EventType -> bool)
  (events : list (Env * SDL_EventType)) (e : Env * SDL_EventType) :
  last_env kind (events ++ [e])
  = if kind (snd e) then Some (fst e) else last_env kind events.
Proof. unfold last_env. rewrite fold_left_app. reflexivity. Qed.

(** Only the handled events matter. *)
Lemma update_loop_handled (events : list (Env * SDL_EventType)) :
  forall st, appShouldExit st = false ->
             update_loop (handled events) st = update_loop events st.
Proof.
  induction events as [|[env event] rest IH]; intros st Hx; [reflexivity|].
  cbn [handled].
  destruct (main_loop_flags env event st) as [Fx _]. rewrite Hx in Fx.
  cbn [orb] in Fx.
  destruct (is_quit event) eqn:Q.
  - cbn [update_loop]. rewrite Fx. reflexivity.
  - cbn [update_loop]. rewrite Fx. rewrite (IH _ Fx). reflexivity.
Qed.

(** The loop is left exactly when a quit event occurs. *)
Lemma update_loop_final (events : list (Env * SDL_EventType)) :
  forall st, appShouldExit st = false ->
  match snd (update_loop events st) with
  | Some st' => existsb (fun e => is_quit (snd e)) events = true
                /\ appShouldExit st' = true
  | None => existsb (fun e => is_quit (snd e)) events = false
  end.
Proof.
  induction events as [|[env event] rest IH]; intros st Hx; [reflexivity|].
  cbn [update_loop existsb snd].
  destruct (main_loop_flags env event st) as [Fx _]. rewrite Hx in Fx.
  cbn [orb] in Fx. rewrite Fx.
  destruct (is_quit event) eqn:Q; cbn [orb snd].
  - split; [reflexivity|]. rewrite Fx. reflexivity.
  - specialize (IH _ Fx).
    destruct (update_loop rest (main_loop env event st)) as [frames final].
    exact IH.
Qed.

(** The state in which the loop is left. *)
Lemma update_loop_after (events : list (Env * SDL_EventType)) :
  forall st st', appShouldExit st = false ->
                 snd (update_loop events st) = Some st' ->
                 st' = after_events (handled events) st.
Proof.
  induction events as [|[env event] rest IH]; intros st st' Hx; [discriminate|].
  cbn [update_loop handled].
  destruct (main_loop_flags env event st) as [Fx _]. rewrite Hx in Fx.
  cbn [orb] in Fx. rewrite Fx.
  destruct (is_quit event) eqn:Q.
  - cbn [snd]. intros [= <-]. reflexivity.
  - intros H. unfold after_events. cbn [fold_left fst snd].
    apply (IH _ _ Fx).
    destruct (update_loop rest (main_loop env event st)) as [frames final].
    exact H.
Qed.

(** The number of frames of a run. *)
Lemma update_loop_frames (events : list (Env * SDL_EventType)) :
  forall st, appShouldExit st = false ->
  List.length (fst (update_loop events st))
  = ((if windowShouldBeRedrawn st then 1 else 0)
     + List.length (filter (fun e => sets_redraw (snd e)) (handled events)))%nat.
Proof.
  induction events as [|[env event] rest IH]; intros st Hx.
  - cbn. destruct (windowShouldBeRedrawn st); reflexivity.
  - cbn [update_loop handled].
    destruct (main_loop_flags env event st) as [Fx Fr]. rewrite Hx in Fx.
    cbn [orb] in Fx. rewrite Fx.
    destruct (is_quit event) eqn:Q.
    + destruct event; try discriminate. cbn.
      destruct (windowShouldBeRedrawn st); reflexivity.
    + specialize (IH _ Fx). rewrite Fr in IH.
      destruct (update_loop rest (main_loop env event st)) as [frames final].
      cbn [fst] in *. rewrite length_app, IH.
      cbn [filter snd].
      destruct (sets_redraw event), (windowShouldBeRedrawn st); cbn; lia.
Qed.

(** The frames of a run are drawn in reachable states. *)
Lemma update_loop_reachable (ok : Env -> Prop) (sh : Shadow.t)
  (events : list (Env * SDL_EventType)) :
  Forall (fun e => ok (fst e)) events ->
  forall st, reachable ok sh st -> appShouldExit st = false ->
  Forall (reachable ok sh) (fst (update_loop events st))
  /\ forall st', snd (update_loop events st) = Some st' -> reachable ok sh st'.
Proof.
  induction 1 as [|[env event] rest Hok Hrest IH]; intros st Hr Hx.
  - cbn. split; [|discriminate].
    destruct (windowShouldBeRedrawn st); auto.
  - cbn [update_loop]. cbn [fst] in Hok.
    assert (Hr' : reachable ok sh (main_loop env event st))
      by (apply reach_loop; assumption).
    assert (Hf : Forall (reachable ok sh)
                   (if windowShouldBeRedrawn st then [st] else []))
      by (destruct (windowShouldBeRedrawn st); auto).
    destruct (appShouldExit (main_loop env event st)) eqn:Q.
    + cbn [fst snd]. split; [exact Hf|]. intros st' [= <-]. exact Hr'.
    + destruct (IH _ Hr' Q) as [F1 F2].
      destruct (update_loop rest (main_loop env event st)) as [frames final].
      cbn [fst snd] in *. split; [|exact F2].
      apply Forall_app. split; assumption.
Qed.

(** X7.  The update loop ends with the first quit event: the events that
    follow it have no effect on the frames drawn or on the final state, the
    loop is left exactly when a quit event is among the events, and it is
    left with [appShouldExit] set, in the state that the turns for the
    handled events produce. *)
Theorem update_loop_stops_at_quit (events : list (Env * SDL_EventType))
  (st : App) :
  appShouldExit st = false ->
  update_loop events st = update_loop (handled events) st
  /\ match snd (update_loop events st) with
     | Some st' => existsb (fun e => is_quit (snd e)) events = true
                   /\ appShouldExit st' = true
                   /\ st' = after_events (handled events) st
     | None => existsb (fun e => is_quit (snd e)) events = false
     end.
Proof.
  intros Hx. split.
  - symmetry. apply update_loop_handled. exact Hx.
  - pose proof (update_loop_final events st Hx) as F.
    pose proof (update_loop_after events st) as A.
    destruct (snd (update_loop events st)) as [st'|]; [|exact F].
    destruct F as [F1 F2]. split; [exact F1|]. split; [exact F2|].
    apply A; [exact Hx|reflexivity].
Qed.

Lemma update_loop_stops_at_quit_witness :
  update_loop [(env_of scale_1_5 800 600, SDL_EVENT_WINDOW_EXPOSED);
               (env_of scale_1_5 800 600, SDL_EVENT_QUIT);
               (env_of scale_2_0 1024 768, SDL_EVENT_WINDOW_PIXEL_SIZE_CHANGED)]
              (main_init (env_of scale_1_0 800 600) shadow16)
  = update_loop [(env_of scale_1_5 800 600, SDL_EVENT_WINDOW_EXPOSED);
                 (env_of scale_1_5 800 600, SDL_EVENT_QUIT)]
                (main_init (env_of scale_1_0 800 600) shadow16).
Proof.
  apply (update_loop_stops_at_quit
           [(env_of scale_1_5 800 600, SDL_EVENT_WINDOW_EXPOSED);
            (env_of scale_1_5 800 600, SDL_EVENT_QUIT);
            (env_of scale_2_0 1024 768, SDL_EVENT_WINDOW_PIXEL_SIZE_CHANGED)]
           (main_init (env_of scale_1_0 800 600) shadow16)).
  reflexivity.
Defined.

(** X8.  The number of frames that the loop draws is one for a redraw
    pending at its start, plus one for each handled event that is
    window-exposed, pixel-size-changed, display-scale-changed or
    system-theme-changed; quit and every other event cause no frame.
    After the start-up a redraw is pending, so the first frame is always
    drawn. *)
Theorem frames_drawn (events : list (Env * SDL_EventType)) :
  (forall st,
      appShouldExit st = false ->
      List.length (fst (update_loop events st))
      = ((if windowShouldBeRedrawn st then 1 else 0)
         + List.length (filter (fun e => sets_redraw (snd e))
                               (handled events)))%nat)
  /\ (forall env sh,
         List.length (fst (update_loop events (main_init env sh)))
         = S (List.length (filter (fun e => sets_redraw (snd e))
                                  (handled events)))).
Proof.
  split.
  - intros st Hx. apply update_loop_frames. exact Hx.
  - intros env sh. destruct (main_init_flags env sh) as [Fx Fr].
    rewrite (update_loop_frames events _ Fx), Fr. reflexivity.
Qed.

Lemma frames_drawn_witness :
  List.length
    (fst (update_loop
            [(env_of scale_1_5 800 600, SDL_EVENT_WINDOW_EXPOSED);
             (env_of scale_1_5 800 600, SDL_EVENT_other 1024);
             (env_of scale_1_5 800 600, SDL_EVENT_SYSTEM_THEME_CHANGED);
             (env_of scale_1_5 800 600, SDL_EVENT_QUIT);
             (env_of scale_1_5 800 600, SDL_EVENT_WINDOW_EXPOSED)]
            (redraw (main_init (env_of scale_1_0 800 600) shadow16))))
  = 2%nat.
Proof.
  apply (proj1 (frames_drawn
                  [(env_of scale_1_5 800 600, SDL_EVENT_WINDOW_EXPOSED);
                   (env_of scale_1_5 800 600, SDL_EVENT_other 1024);
                   (env_of scale_1_5 800 600, SDL_EVENT_SYSTEM_THEME_CHANGED);
                   (env_of scale_1_5 800 600, SDL_EVENT_QUIT);
                   (env_of scale_1_5 800 600, SDL_EVENT_WINDOW_EXPOSED)])
               (redraw (main_init (env_of scale_1_0 800 600) shadow16))).
  reflexivity.
Defined.

(** X9.  The state after any sequence of loop turns: the layout is the
    one that [updateLayout] computes from SDL's answers at the last
    pixel-size or display-scale event (the layout before, if there was
    none); [theme.useLight] is the answer to the query at the last
    system-theme event (unchanged, if there was none); the shadow textures
    are unchanged; [appShouldExit] is set exactly when it was set before or
    a quit event occurred; and [windowShouldBeRedrawn] is set exactly when
    the last event is one of the four that request a redraw. *)
Theorem state_after_events (events : list (Env * SDL_EventType)) (st : App) :
  layout (after_events events st)
  = match last_env is_layout_event events with
    | Some env => layout (updateLayout env st)
    | None => layout st
    end
  /\ Theme.useLight (theme (after_events events st))
     = match last_env is_theme_event events with
       | Some env => system_is_light env
       | None => Theme.useLight (theme st)
       end
  /\ shadow (after_events events st) = shadow st
  /\ appShouldExit (after_events events st)
     = appShouldExit st || existsb (fun e => is_quit (snd e)) events
  /\ windowShouldBeRedrawn (after_events events st)
     = match rev events with
       | e :: _ => sets_redraw (snd e)
       | [] => windowShouldBeRedrawn st
       end.
Proof.
  induction events as [|[env event] events IH] using rev_ind.
  - cbn. rewrite orb_false_r. repeat split.
  - destruct IH as (Il & It & Is & Ix & Ir).
    unfold after_events in *. rewrite fold_left_app. cbn [fold_left fst snd].
    set (st1 := fold_left (fun st e => main_loop (fst e) (snd e) st) events st)
      in *.
    destruct (main_loop_state env event st1) as (Ml & Mt & Ms).
    destruct (main_loop_flags env event st1) as (Mx & Mr).
    rewrite !last_env_snoc, rev_app_distr, existsb_app.
    cbn [fst snd rev app existsb].
    rewrite Ml, Mt, Ms, Mx, Mr, Ix, Is, orb_false_r, orb_assoc.
    split; [|split; [|repeat split]].
    + destruct (is_layout_event event); [|exact Il].
      apply updateLayout_layout_indep. exact Is.
    + destruct (is_theme_event event); [reflexivity|exact It].
Qed.

(** * Drawing *)

(** The eight destination rectangles of [drawShadow] for a window whose
    size is exact. *)
Lemma drawShadow_exact (l : Layout.t) (w h : Z) :
  Layout.window l = rectZ 0 0 w h -> 0 < w <= 2 ^ 22 -> 0 < h <= 2 ^ 22 ->
  drawShadow l
  = Some [ SDL_RenderTextureRotated shadow_corner (rectZ 0 0 55 55)
             (flip_or SDL_FLIP_HORIZONTAL SDL_FLIP_VERTICAL);
           SDL_RenderTextureRotated shadow_corner (rectZ (w - 55) 0 55 55)
             SDL_FLIP_VERTICAL;
           SDL_RenderTexture shadow_corner (rectZ (w - 55) (h - 55) 55 55);
           SDL_RenderTextureRotated shadow_corner (rectZ 0 (h - 55) 55 55)
             SDL_FLIP_HORIZONTAL;
           SDL_RenderTextureRotated shadow_bottom (rectZ 55 0 (w - 110) 16)
             SDL_FLIP_VERTICAL;
           SDL_RenderTexture shadow_bottom (rectZ 55 (h - 16) (w - 110) 16);
           SDL_RenderTextureRotated shadow_left (rectZ 0 55 16 (h - 110))
             SDL_FLIP_NONE;
           SDL_RenderTextureRotated shadow_left (rectZ (w - 16) 55 16 (h - 110))
             SDL_FLIP_HORIZONTAL ].
Proof.
  intros Hl Hw Hh. unfold drawShadow. rewrite Hl.
  cbn [rectZ SDL_FRect.w SDL_FRect.h].
  rewrite !to_int_of_int by lia. cbn [bind_int].
  unfold set_x, set_y. cbn [SDL_FRect.x SDL_FRect.y SDL_FRect.w SDL_FRect.h].
  rewrite !sub_of_int by lia.
  rewrite !wrap_int_small by lia.
  reflexivity.
Qed.

(** The calls of [drawShadow], [drawWindow] and of a list of frames are
    drawing calls; each frame is presented once. *)
Lemma drawShadow_calls (l : Layout.t) (shadow_calls : list SDL_Call) :
  drawShadow l = Some shadow_calls ->
  forallb is_render shadow_calls = true
  /\ filter is_present shadow_calls = []
  /\ List.length shadow_calls = 8%nat.
Proof.
  unfold drawShadow.
  destruct (F32.to_int (SDL_FRect.w (Layout.window l))) as [w|]; [|discriminate].
  destruct (F32.to_int (SDL_FRect.h (Layout.window l))) as [h|]; [|discriminate].
  cbn [bind_int]. intros [= <-]. repeat split.
Qed.

Lemma drawWindow_calls (st : App) (cs : list SDL_Call) :
  drawWindow st = Some cs ->
  forallb is_render cs = true /\ List.length (filter is_present cs) = 1%nat.
Proof.
  unfold drawWindow.
  destruct (drawShadow (layout st)) as [sc|] eqn:E; [|discriminate].
  destruct (drawShadow_calls _ _ E) as (R & P & _).
  intros [= <-]. split.
  - cbn [app forallb is_render andb]. rewrite !forallb_app, R. reflexivity.
  - cbn [app filter is_present]. rewrite !filter_app, P. reflexivity.
Qed.

Lemma draw_frames_calls (frames : list App) :
  forall drawn, draw_frames frames = Some drawn ->
  forallb is_render drawn = true
  /\ List.length (filter is_present drawn) = List.length frames.
Proof.
  induction frames as [|st rest IH]; intros drawn.
  - intros [= <-]. split; reflexivity.
  - cbn [draw_frames].
    destruct (drawWindow st) as [cs|] eqn:E; [|discriminate].
    destruct (draw_frames rest) as [cs'|]; [|discriminate].
    intros [= <-].
    destruct (drawWindow_calls _ _ E) as [R P].
    destruct (IH cs' eq_refl) as [R' P'].
    rewrite forallb_app, filter_app, length_app, R, R', P, P'.
    split; reflexivity.
Qed.

(** [drawWindow] in a reachable state *)
Lemma drawWindow_defined (sh : Shadow.t) (st : App) :
  reachable (env_ok sh) sh st ->
  exists shadow_calls,
    drawShadow (layout st) = Some shadow_calls
    /\ List.length shadow_calls = 8%nat
    /\ drawWindow st
       = Some ([SDL_SetRenderDrawColor (color 0 0 0 0); SDL_RenderClear]
               ++ shadow_calls
               ++ fill_rects (if Theme.useLight (theme st)
                              then theme_light else theme_dark) (layout st)
               ++ [SDL_RenderPresent]).
Proof.
  intros Hr.
  destruct (reachable_layout _ _ _ Hr) as (env & Hok & Hl).
  destruct (reachable_palettes _ _ _ Hr) as [Pl Pd].
  pose (st0 := mkApp layout_init sh theme_init false true).
  specialize (Hl st0 eq_refl).
  pose proof (updateLayout_window env st0 Hok) as Hw.
  rewrite <- Hl in Hw.
  destruct Hok as (_ & Bw & Bh & _).
  pose proof (drawShadow_exact _ _ _ Hw Bw Bh) as E.
  eexists. split; [exact E|]. split; [reflexivity|].
  unfold drawWindow. rewrite E. unfold active_palette. rewrite Pl, Pd.
  reflexivity.
Qed.

(** Frames of reachable states can be drawn. *)
Lemma draw_frames_defined (sh : Shadow.t) (frames : list App) :
  Forall (reachable (env_ok sh) sh) frames ->
  exists drawn, draw_frames frames = Some drawn.
Proof.
  induction 1 as [|st rest Hr _ IH]; [exists []; reflexivity|].
  destruct (drawWindow_defined sh st Hr) as (sc & _ & _ & E).
  destruct IH as [drawn' E']. cbn [draw_frames]. rewrite E, E'.
  eexists. reflexivity.
Qed.

(** X10.  For a window of at least 110 x 110 pixels in the exact range,
    [drawShadow] is defined and draws eight textures whose destination
    rectangles all lie within the window and of which no two overlap. *)
Theorem drawShadow_tiles (env : Env) (st : App) :
  env_ok (shadow st) env ->
  110 <= fst (SDL_GetWindowSizeInPixels env) ->
  110 <= snd (SDL_GetWindowSizeInPixels env) ->
  exists shadow_calls,
    drawShadow (layout (updateLayout env st)) = Some shadow_calls
    /\ List.length (dstrects shadow_calls) = 8%nat
    /\ forallb (fun r => contained r (Layout.window (layout (updateLayout env st))))
               (dstrects shadow_calls) = true
    /\ pairwise (fun a b => negb (overlap a b)) (dstrects shadow_calls) = true.
Proof.
  intros Hok Hw Hh.
  pose proof (updateLayout_window env st Hok) as Hl.
  destruct Hok as (_ & Bw & Bh & _).
  set (w := fst (SDL_GetWindowSizeInPixels env)) in *.
  set (h := snd (SDL_GetWindowSizeInPixels env)) in *.
  rewrite (drawShadow_exact _ w h Hl Bw Bh). eexists. split; [reflexivity|].
  cbn [dstrects dstrect_of]. split; [reflexivity|].
  rewrite Hl. cbn [forallb pairwise]. unfold contained, overlap.
  rewrite !rect_exact_rectZ by lia.
  split; bool_leaves.
Qed.

Lemma drawShadow_tiles_witness :
  exists shadow_calls,
    drawShadow (layout (updateLayout (env_of scale_1_5 800 600) app16))
    = Some shadow_calls
    /\ List.length (dstrects shadow_calls) = 8%nat
    /\ forallb (fun r => contained r (Layout.window
                  (layout (updateLayout (env_of scale_1_5 800 600) app16))))
               (dstrects shadow_calls) = true
    /\ pairwise (fun a b => negb (overlap a b)) (dstrects shadow_calls) = true.
Proof.
  apply (drawShadow_tiles (env_of scale_1_5 800 600) app16).
  - repeat split; try run; cbn; lia.
  - cbn; lia.
  - cbn; lia.
Defined.

(** X11.  When the shadow textures give margins of at most 16, every
    pixel of the window outside the background lies in one of the eight
    destination rectangles of [drawShadow]: the shadow leaves no gap
    around the background. *)
Theorem drawShadow_covers_margin (env : Env) (st : App) (px py : Z) :
  env_ok (shadow st) env ->
  110 <= fst (SDL_GetWindowSizeInPixels env) ->
  110 <= snd (SDL_GetWindowSizeInPixels env) ->
  SDL_Texture.w (Shadow.left (shadow st)) <= 16 ->
  SDL_Texture.h (Shadow.bottom (shadow st)) <= 16 ->
  has_pixel (Layout.window (layout (updateLayout env st))) px py = true ->
  has_pixel (Layout.background (layout (updateLayout env st))) px py = false ->
  exists shadow_calls,
    drawShadow (layout (updateLayout env st)) = Some shadow_calls
    /\ existsb (fun r => has_pixel r px py) (dstrects shadow_calls) = true.
Proof.
  intros Hok Hw Hh Hlw Hbh Hin Hout.
  pose proof (updateLayout_window env st Hok) as Hl.
  rewrite (updateLayout_exact env st Hok) in Hin, Hout.
  cbn [Layout.window Layout.background] in Hin, Hout.
  destruct Hok as (_ & Bw & Bh & Blw & Bbh).
  set (w := fst (SDL_GetWindowSizeInPixels env)) in *.
  set (h := snd (SDL_GetWindowSizeInPixels env)) in *.
  set (left_w := SDL_Texture.w (Shadow.left (shadow st))) in *.
  set (bottom_h := SDL_Texture.h (Shadow.bottom (shadow st))) in *.
  rewrite (drawShadow_exact _ w h Hl Bw Bh). eexists. split; [reflexivity|].
  cbn [dstrects dstrect_of existsb].
  unfold has_pixel in *.
  rewrite !rect_exact_rectZ in * by lia.
  rewrite !andb_true_iff, !Z.leb_le, !Z.ltb_lt in Hin.
  rewrite !andb_false_iff, !Z.leb_gt, !Z.ltb_ge in Hout.
  rewrite !orb_true_iff, !andb_true_iff, !Z.leb_le, !Z.ltb_lt.
  lia.
Qed.

Lemma drawShadow_covers_margin_witness :
  exists shadow_calls,
    drawShadow (layout (updateLayout (env_of scale_1_5 800 600) app16))
    = Some shadow_calls
    /\ existsb (fun r => has_pixel r 790 300) (dstrects shadow_calls) = true.
Proof.
  apply (drawShadow_covers_margin (env_of scale_1_5 800 600) app16 790 300).
  - repeat split; try run; cbn; lia.
  - cbn; lia.
  - cbn; lia.
  - cbn; lia.
  - cbn; lia.
  - run.
  - run.
Defined.

(** X12.  Every frame that the program draws, under answers of SDL in
    the exact range, is defined and is: clear to transparent black, the
    eight calls of [drawShadow], the background in the border colour, the
    title bar, the client area in the background colour, present; the
    three colours are those of [theme_light] when [theme.useLight] is set
    and of [theme_dark] otherwise. *)
Theorem drawWindow_frame (sh : Shadow.t) (env : Env)
  (events : list (Env * SDL_EventType)) :
  env_ok sh env -> Forall (fun e => env_ok sh (fst e)) events ->
  Forall (fun st =>
            exists shadow_calls,
              drawShadow (layout st) = Some shadow_calls
              /\ List.length shadow_calls = 8%nat
              /\ drawWindow st
                 = Some ([SDL_SetRenderDrawColor (color 0 0 0 0);
                          SDL_RenderClear]
                         ++ shadow_calls
                         ++ fill_rects (if Theme.useLight (theme st)
                                        then theme_light else theme_dark)
                                       (layout st)
                         ++ [SDL_RenderPresent]))
         (fst (update_loop events (main_init env sh))).
Proof.
  intros Hok Hev.
  destruct (main_init_flags env sh) as [Fx _].
  pose proof (reach_init (env_ok sh) sh env Hok) as Hr.
  destruct (update_loop_reachable _ sh events Hev _ Hr Fx) as [Hf _].
  revert Hf. apply Forall_impl. intros st. apply drawWindow_defined.
Qed.

Lemma drawWindow_frame_witness :
  Forall (fun st =>
            exists shadow_calls,
              drawShadow (layout st) = Some shadow_calls
              /\ List.length shadow_calls = 8%nat
              /\ drawWindow st
                 = Some ([SDL_SetRenderDrawColor (color 0 0 0 0);
                          SDL_RenderClear]
                         ++ shadow_calls
                         ++ fill_rects (if Theme.useLight (theme st)
                                        then theme_light else theme_dark)
                                       (layout st)
                         ++ [SDL_RenderPresent]))
         (fst (update_loop
                 [(mkEnv scale_1_5 (800, 600) SDL_SYSTEM_THEME_DARK,
                   SDL_EVENT_SYSTEM_THEME_CHANGED);
                  (mkEnv scale_1_5 (800, 600) SDL_SYSTEM_THEME_DARK,
                   SDL_EVENT_QUIT)]
                 (main_init (env_of scale_1_0 800 600) shadow16))).
Proof.
  apply (drawWindow_frame shadow16 (env_of scale_1_0 800 600)
           [(mkEnv scale_1_5 (800, 600) SDL_SYSTEM_THEME_DARK,
             SDL_EVENT_SYSTEM_THEME_CHANGED);
            (mkEnv scale_1_5 (800, 600) SDL_SYSTEM_THEME_DARK,
             SDL_EVENT_QUIT)]).
  - repeat split; try run; cbn; lia.
  - repeat constructor; try run; cbn; lia.
Defined.

(** * Start-up and clean-up *)

(** [main] after a successful start-up. *)
Lemma main_started (b : Startup) (sh : Shadow.t) (env : Env)
  (events : list (Env * SDL_EventType)) :
  startup_ok b = true ->
  main b sh env events
  = let '(frames, final) := update_loop events (main_init env sh) in
    match draw_frames frames with
    | None => Undefined
    | Some drawn =>
        match final with
        | Some _ =>
            Exited EXIT_SUCCESS
              (mkSys false false [fn_destroyWindow; fn_TTF_Quit; fn_SDL_Quit]
                 (startup_calls ++ drawn ++ releases_due b))
        | None =>
            Waiting
              (mkSys true true [fn_destroyWindow; fn_TTF_Quit; fn_SDL_Quit]
                 (startup_calls ++ drawn))
        end
    end.
Proof.
  destruct b as [[] [] [] [] []]; try discriminate. intros _.
  unfold main. cbn [initSDL createWindow SDL_Init_ok TTF_Init_ok
                    SDL_CreateWindow_ok SDL_CreateRenderer_ok
                    SDL_SetWindowHitTest_ok negb call atexit sys_init
                    wnd rnd registered calls app loadImageResources].
  destruct (update_loop events (main_init env sh)) as [frames final].
  destruct (draw_frames frames) as [drawn|]; [|reflexivity].
  destruct final as [st'|];
    cbv beta iota zeta delta
      [exit calls_after loadImageResources call fold_left run_atexit
       destroyWindow wnd rnd registered calls releases_due startup_calls
       SDL_Init_ok TTF_Init_ok SDL_CreateWindow_ok SDL_CreateRenderer_ok andb];
    cbn [app]; rewrite <- ?app_assoc; reflexivity.
Qed.

(** A drawing call is neither a message box nor a release. *)
Lemma is_render_not_other (cs : list SDL_Call) :
  forallb is_render cs = true ->
  filter is_message_box cs = [] /\ filter is_release cs = [].
Proof.
  induction cs as [|c rest IH]; [split; reflexivity|].
  cbn [forallb]. intros H. apply andb_true_iff in H. destruct H as [Hc Hr].
  destruct (IH Hr) as [M R].
  destruct c; try discriminate; cbn [filter is_message_box is_release];
    split; assumption.
Qed.

(** The discipline over a concatenation, and over drawing calls. *)
Lemma track_app (b : Startup) (cs cs' : list SDL_Call) :
  forall alive,
    track b alive (cs ++ cs')
    = match track b alive cs with
      | Some alive' => track b alive' cs'
      | None => None
      end.
Proof.
  induction cs as [|c rest IH]; intros [w r]; [reflexivity|].
  cbn [app track].
  destruct c; cbn [is_render]; rewrite ?IH;
    repeat match goal with
           | |- context [if ?x then _ else _] => destruct x
           end; reflexivity.
Qed.

Lemma track_render (b : Startup) (cs : list SDL_Call) (w : bool) :
  forallb is_render cs = true -> track b (w, true) cs = Some (w, true).
Proof.
  induction cs as [|c rest IH]; [reflexivity|].
  cbn [forallb]. intros H. apply andb_true_iff in H. destruct H as [Hc Hr].
  destruct c; try discriminate; cbn [track is_render]; exact (IH Hr).
Qed.

(** X13.  When a call of the start-up fails, [main] exits with
    [EXIT_FAILURE] whatever the events are, after exactly one message box,
    whose title names the first call that failed, and without having
    loaded a texture or drawn anything. *)
Theorem main_startup_failure (b : Startup) (sh : Shadow.t) (env : Env)
  (events : list (Env * SDL_EventType)) :
  startup_ok b = false ->
  exists s,
    main b sh env events = Exited EXIT_FAILURE s
    /\ filter is_message_box (calls s)
       = [SDL_ShowSimpleMessageBox (failure_title b)]
    /\ filter is_render (calls s) = [].
Proof.
  destruct b as [[] [] [] [] []]; try discriminate; intros _;
    eexists; (split; [reflexivity|]); split; reflexivity.
Qed.

Lemma main_startup_failure_witness :
  exists s,
    main (mkStartup true true true false true) shadow16
         (env_of scale_1_0 800 600) []
    = Exited EXIT_FAILURE s
    /\ filter is_message_box (calls s)
       = [SDL_ShowSimpleMessageBox "Failed to create renderer"]
    /\ filter is_render (calls s) = [].
Proof.
  apply (main_startup_failure (mkStartup true true true false true) shadow16
           (env_of scale_1_0 800 600) []).
  reflexivity.
Defined.

(** X14.  When the start-up succeeds and SDL's answers are in the exact
    range, [main] is defined on every list of events: it exits with
    [EXIT_SUCCESS] if a quit event is among them and is still waiting
    otherwise.  Its calls are those of the start-up, the drawing calls of
    the frames, and on exit the releases; one frame is presented at the
    start and one more for each handled event that sets the redraw flag. *)
Theorem main_exits_on_quit (b : Startup) (sh : Shadow.t) (env : Env)
  (events : list (Env * SDL_EventType)) :
  startup_ok b = true ->
  env_ok sh env -> Forall (fun e => env_ok sh (fst e)) events ->
  exists s drawn,
    main b sh env events
    = (if existsb (fun e => is_quit (snd e)) events
       then Exited EXIT_SUCCESS s else Waiting s)
    /\ calls s
       = startup_calls ++ drawn
         ++ (if existsb (fun e => is_quit (snd e)) events
             then releases_due b else [])
    /\ forallb is_render drawn = true
    /\ List.length (filter is_present drawn)
       = S (List.length (filter (fun e => sets_redraw (snd e))
                                (handled events))).
Proof.
  intros Hb Hok Hev.
  destruct (main_init_flags env sh) as [Fx Fr].
  pose proof (reach_init (env_ok sh) sh env Hok) as Hr.
  destruct (update_loop_reachable _ sh events Hev _ Hr Fx) as [Hf _].
  pose proof (update_loop_final events _ Fx) as Hq.
  pose proof (update_loop_frames events _ Fx) as Hn. rewrite Fr in Hn.
  rewrite (main_started b sh env events Hb).
  destruct (update_loop events (main_init env sh)) as [frames final].
  cbn [fst snd] in *.
  destruct (draw_frames_defined sh frames Hf) as [drawn Ed]. rewrite Ed.
  destruct (draw_frames_calls frames drawn Ed) as [R P].
  destruct final as [st'|].
  - destruct Hq as [Hq _]. rewrite Hq.
    eexists. exists drawn. split; [reflexivity|]. cbn [calls].
    split; [reflexivity|]. split; [exact R|]. rewrite P, Hn. reflexivity.
  - rewrite Hq.
    eexists. exists drawn. split; [reflexivity|]. cbn [calls].
    rewrite app_nil_r.
    split; [reflexivity|]. split; [exact R|]. rewrite P, Hn. reflexivity.
Qed.

Lemma main_exits_on_quit_witness :
  exists s drawn,
    main (mkStartup true true true true true) shadow16
         (env_of scale_1_0 800 600)
         [(env_of scale_1_5 800 600, SDL_EVENT_WINDOW_DISPLAY_SCALE_CHANGED);
          (env_of scale_1_5 800 600, SDL_EVENT_other 1024);
          (env_of scale_1_5 800 600, SDL_EVENT_QUIT);
          (env_of scale_1_5 800 600, SDL_EVENT_WINDOW_EXPOSED)]
    = Exited EXIT_SUCCESS s
    /\ calls s
       = startup_calls ++ drawn
         ++ [SDL_DestroyRenderer; SDL_DestroyWindow; TTF_Quit; SDL_Quit]
    /\ forallb is_render drawn = true
    /\ List.length (filter is_present drawn) = 2%nat.
Proof.
  apply (main_exits_on_quit (mkStartup true true true true true) shadow16
           (env_of scale_1_0 800 600)
           [(env_of scale_1_5 800 600, SDL_EVENT_WINDOW_DISPLAY_SCALE_CHANGED);
            (env_of scale_1_5 800 600, SDL_EVENT_other 1024);
            (env_of scale_1_5 800 600, SDL_EVENT_QUIT);
            (env_of scale_1_5 800 600, SDL_EVENT_WINDOW_EXPOSED)]).
  - reflexivity.
  - repeat split; try run; cbn; lia.
  - repeat constructor; try run; cbn; lia.
Defined.

(** X15.  However [main] exits, what the start-up acquired is released
    exactly once and in the reverse order of acquisition, after every
    other call: the renderer if it was created, then the window if it was
    created, then SDL_ttf and SDL if they were initialised; nothing else is
    released, and [wnd] and [rnd] end as NULL. *)
Theorem main_cleanup (b : Startup) (sh : Shadow.t) (env : Env)
  (events : list (Env * SDL_EventType)) (status : ExitStatus) (s : Sys) :
  main b sh env events = Exited status s ->
  wnd s = false /\ rnd s = false
  /\ exists body, calls s = body ++ releases_due b
                  /\ filter is_release body = [].
Proof.
  destruct (startup_ok b) eqn:Hb.
  - rewrite (main_started b sh env events Hb).
    destruct (update_loop events (main_init env sh)) as [frames final].
    destruct (draw_frames frames) as [drawn|] eqn:Ed; [|discriminate].
    destruct final as [st'|]; [|discriminate].
    intros [= <- <-]. cbn [wnd rnd calls]. split; [reflexivity|].
    split; [reflexivity|].
    exists (startup_calls ++ drawn). split; [reflexivity|].
    destruct (draw_frames_calls frames drawn Ed) as [R _].
    rewrite filter_app, (proj2 (is_render_not_other drawn R)). reflexivity.
  - destruct b as [[] [] [] [] []]; try discriminate Hb;
      intros H; cbv in H; injection H as <- <-;
      (split; [reflexivity|]); (split; [reflexivity|]);
      match goal with
      | |- exists body, ?cs = body ++ ?rel /\ _ =>
          exists (firstn (List.length cs - List.length rel) cs)
      end; split; reflexivity.
Qed.

Lemma main_cleanup_witness :
  exists body,
    calls (exit (snd (createWindow (mkStartup true true true false true)
                        (snd (initSDL (mkStartup true true true false true)
                                sys_init)))))
    = body ++ [SDL_DestroyWindow; TTF_Quit; SDL_Quit]
    /\ filter is_release body = [].
Proof.
  apply (main_cleanup (mkStartup true true true false true) shadow16
           (env_of scale_1_0 800 600) [] EXIT_FAILURE
           (exit (snd (createWindow (mkStartup true true true false true)
                         (snd (initSDL (mkStartup true true true false true)
                                 sys_init)))))).
  reflexivity.
Defined.

(** X16.  [destroyWindow] destroys the renderer, if there is one, before
    the window, if there is one, and leaves both pointers NULL; a second
    call does nothing. *)
Theorem destroyWindow_idempotent (s : Sys) :
  destroyWindow (destroyWindow s) = destroyWindow s
  /\ wnd (destroyWindow s) = false /\ rnd (destroyWindow s) = false
  /\ calls (destroyWindow s)
     = calls s ++ (if rnd s then [SDL_DestroyRenderer] else [])
               ++ (if wnd s then [SDL_DestroyWindow] else []).
Proof.
  destruct s as [[] [] reg cs]; cbn; rewrite <- ?app_assoc, ?app_nil_r;
    repeat split; reflexivity.
Qed.

(** X17.  In every run of [main] the window and the renderer are used
    only while they exist: no call that needs the window is made before
    [SDL_CreateWindow] has succeeded or after [SDL_DestroyWindow], no
    drawing call or texture load before [SDL_CreateRenderer] has succeeded
    or after [SDL_DestroyRenderer], the renderer is destroyed before the
    window and neither is created or destroyed twice; on exit both are
    gone, and while the loop waits both exist. *)
Theorem main_resource_discipline (b : Startup) (sh : Shadow.t) (env : Env)
  (events : list (Env * SDL_EventType)) :
  match main b sh env events with
  | Exited _ s => track b (false, false) (calls s) = Some (false, false)
  | Waiting s => track b (false, false) (calls s) = Some (true, true)
  | Undefined => True
  end.
Proof.
  destruct (startup_ok b) eqn:Hb.
  - rewrite (main_started b sh env events Hb).
    destruct (update_loop events (main_init env sh)) as [frames final].
    destruct (draw_frames frames) as [drawn|] eqn:Ed; [|exact I].
    destruct (draw_frames_calls frames drawn Ed) as [R _].
    destruct b as [[] [] [] [] []]; try discriminate Hb.
    destruct final as [st'|]; cbn [calls];
      rewrite track_app;
      change (track (mkStartup true true true true true) (false, false)
                    startup_calls) with (Some (true, true));
      cbv beta iota; rewrite ?track_app, (track_render _ drawn true R);
      reflexivity.
  - destruct b as [[] [] [] [] []]; try discriminate Hb; reflexivity.
Qed.
